(** * NutriAI: the JSON extraction step and the prompt builder of [main.py]

    A shallow embedding of [extract_and_parse_json], [create_prompt_template]
    and the export line of [display_plan], together with the parts of
    Python's [re] and [json] modules these functions call.

    - A Python [str] is a list of Unicode code points.
    - [re.search] and [re.sub] are a small backtracking matcher with Python's
      priorities (leftmost match, ordered alternation, greedy repetition);
      the three patterns of the source are data of type [regex].
    - [json.loads] follows [json.decoder]/[json.scanner]: [scan_once],
      [JSONObject], [JSONArray], [scanstring] and the number pattern.
      A float is kept as the text it was read from. The interpreter is
      there with two limits: the room that the call stack leaves for
      nested arrays and objects ([RecursionError] beyond it) and the limit
      on the digits of an integer (the [ValueError] of [int] beyond it).
    - [json.dumps(plan, indent=2)] follows [json.encoder]: [_make_iterencode]
      and [py_encode_basestring_ascii]. The type of floats, [float(text)]
      and the float printer of the encoder are parameters.
    - [st.error] and [st.text_area] append to an explicit list of rendered
      elements when they return; whether they return or raise is a
      parameter.
    - [get_user_input], [init_groq_client], [main] and the first part of
      [display_plan] work on an explicit session; what Streamlit and the
      model client do is a parameter. *)

From Stdlib Require Import String Ascii List NArith ZArith Bool Arith Lia.
From Stdlib Require Import DecimalString DecimalPos Sorted.
Import ListNotations.

(* ===================================================================== *)
(** ** Python strings                                                      *)
(* ===================================================================== *)

Definition char := N.
Definition str := list char.

Definition ch (a : ascii) : char := N_of_ascii a.

(** A literal of the source, as code points. *)
Definition ustr (s : string) : str := map ch (list_ascii_of_string s).

Definition c_quote : char := 34%N.
Definition c_backslash : char := 92%N.
Definition c_lbrace : char := Eval cbv in ch "{".
Definition c_rbrace : char := Eval cbv in ch "}".
Definition c_lbracket : char := Eval cbv in ch "[".
Definition c_rbracket : char := Eval cbv in ch "]".
Definition c_comma : char := Eval cbv in ch ",".
Definition c_colon : char := Eval cbv in ch ":".
Definition c_backtick : char := Eval cbv in ch "`".

(** Test inputs are written with an apostrophe where the text has a double
    quote. *)
Definition py (s : string) : str :=
  map (fun c => if N.eqb c (ch "'") then c_quote else c) (ustr s).

(** [Py_UNICODE_ISSPACE]: what [\s] matches in a [str] pattern and what
    [str.strip()] removes. *)
Definition is_space (c : char) : bool :=
  ((9 <=? c) && (c <=? 13) || (28 <=? c) && (c <=? 32)
   || (c =? 133) || (c =? 160) || (c =? 5760)
   || (8192 <=? c) && (c <=? 8202)
   || (c =? 8232) || (c =? 8233) || (c =? 8239) || (c =? 8287)
   || (c =? 12288))%N.

Fixpoint lstrip (s : str) : str :=
  match s with
  | c :: s' => if is_space c then lstrip s' else s
  | [] => []
  end.

Definition rstrip (s : str) : str := rev (lstrip (rev s)).

(** [str.strip()] *)
Definition strip (s : str) : str := rstrip (lstrip s).

(* ===================================================================== *)
(** ** Regular expressions ([re])                                          *)
(* ===================================================================== *)

Inductive regex : Type :=
| Eps
| Chr (c : char)
| Cls (p : char -> bool)
| Seq (a b : regex)
| Alt (a b : regex)
| Star (p : char -> bool)      (* greedy [*] over one character class *)
| Grp (a : regex).             (* capturing group 1 *)

Definition Opt (a : regex) : regex := Alt a Eps.

Fixpoint Lit (s : str) : regex :=
  match s with
  | [] => Eps
  | c :: s' => Seq (Chr c) (Lit s')
  end.

Record rmatch : Type := mkMatch {
  m_text : str;               (* group 0 *)
  m_group1 : option str;
  m_rest : str                (* the text after the match *)
}.

Definition consume (c : char) (r : option rmatch) : option rmatch :=
  match r with
  | Some m => Some (mkMatch (c :: m_text m) (m_group1 m) (m_rest m))
  | None => None
  end.

Definition close_group (g : str) (r : option rmatch) : option rmatch :=
  match r with
  | Some m => Some (mkMatch (m_text m) (Some g) (m_rest m))
  | None => None
  end.

(** Greedy repetition: take one more character first, give it back when the
    continuation fails. *)
Fixpoint star_greedy (p : char -> bool) (s : str)
    (k : str -> option rmatch) : option rmatch :=
  match s with
  | c :: s' =>
      if p c then
        match consume c (star_greedy p s' k) with
        | Some m => Some m
        | None => k s
        end
      else k s
  | [] => k s
  end.

(** The backtracking matcher, in continuation-passing style: [k] matches
    what follows. *)
Fixpoint exec (r : regex) (s : str) (k : str -> option rmatch)
    {struct r} : option rmatch :=
  match r with
  | Eps => k s
  | Chr c =>
      match s with
      | x :: s' => if N.eqb x c then consume x (k s') else None
      | [] => None
      end
  | Cls p =>
      match s with
      | x :: s' => if p x then consume x (k s') else None
      | [] => None
      end
  | Seq a b => exec a s (fun s' => exec b s' k)
  | Alt a b =>
      match exec a s k with
      | Some m => Some m
      | None => exec b s k
      end
  | Star p => star_greedy p s k
  | Grp a =>
      exec a s (fun s' =>
        close_group (firstn (length s - length s') s) (k s'))
  end.

(** A match that starts at the head of [s]. *)
Definition re_match (r : regex) (s : str) : option rmatch :=
  exec r s (fun s' => Some (mkMatch [] None s')).

(** [re.search]: the leftmost position with a match. *)
Fixpoint re_search (r : regex) (s : str) : option rmatch :=
  match re_match r s with
  | Some m => Some m
  | None =>
      match s with
      | [] => None
      | _ :: s' => re_search r s'
      end
  end.

(** A replacement template: literal text and [\1]. *)
Inductive repl_item : Type :=
| RText (t : str)
| RGroup1.

Definition expand_item (m : rmatch) (i : repl_item) : str :=
  match i with
  | RText t => t
  | RGroup1 => match m_group1 m with Some g => g | None => [] end
  end.

Definition expand (repl : list repl_item) (m : rmatch) : str :=
  flat_map (expand_item m) repl.

(** [re.sub]: non-overlapping matches from left to right; text between
    matches is copied. The fuel counts positions. *)
Fixpoint re_sub_from (fuel : nat) (r : regex) (repl : list repl_item)
    (s : str) : str :=
  match fuel with
  | 0 => s
  | S fuel' =>
      match re_match r s with
      | Some m =>
          match m_text m with
          | _ :: _ => expand repl m ++ re_sub_from fuel' r repl (m_rest m)
          | [] =>
              match s with
              | [] => expand repl m
              | c :: s' => expand repl m ++ c :: re_sub_from fuel' r repl s'
              end
          end
      | None =>
          match s with
          | [] => []
          | c :: s' => c :: re_sub_from fuel' r repl s'
          end
      end
  end.

Definition re_sub (r : regex) (repl : list repl_item) (s : str) : str :=
  re_sub_from (S (length s)) r repl s.

(** *** The patterns of [extract_and_parse_json] *)

Definition any_char (c : char) : bool := true.

Definition is_closer (c : char) : bool :=
  (N.eqb c c_rbrace || N.eqb c c_rbracket)%bool.

(** [r'({[\s\S]*})'] *)
Definition json_pattern : regex :=
  Grp (Seq (Chr c_lbrace) (Seq (Star any_char) (Chr c_rbrace))).

Definition fence : str := [c_backtick; c_backtick; c_backtick].

(** [r'```(?:json)?\s*|\s*```'] *)
Definition fence_pattern : regex :=
  Alt (Seq (Lit fence) (Seq (Opt (Lit (ustr "json"))) (Star is_space)))
      (Seq (Star is_space) (Lit fence)).

(** [r',(\s*[}\]])'] *)
Definition comma_pattern : regex :=
  Seq (Chr c_comma) (Grp (Seq (Star is_space) (Cls is_closer))).

(* ===================================================================== *)
(** ** JSON values and [json.loads]                                        *)
(* ===================================================================== *)

(** [parse_constant]: the three names the decoder accepts beside numbers. *)
Inductive nonfinite : Type := NaN | PosInf | NegInf.

(** What the decoder builds: [None], [bool], [int], [float], [str], [list]
    and [dict]. A [dict] is its items in insertion order, keys distinct. *)
#[warnings="-register-all"]
Inductive json : Type :=
| JNull
| JBool (b : bool)
| JInt (z : Z)
| JFloat (text : str)          (* [float(text)] *)
| JConst (c : nonfinite)
| JStr (s : str)
| JArr (items : list json)
| JObj (d : list (str * json)).

Fixpoint str_eqb (a b : str) : bool :=
  match a, b with
  | [], [] => true
  | x :: a', y :: b' => N.eqb x y && str_eqb a' b'
  | _, _ => false
  end.

(** [d[k] = v] *)
Fixpoint dict_set {V : Type} (k : str) (v : V) (d : list (str * V))
    : list (str * V) :=
  match d with
  | [] => [(k, v)]
  | (k', v') :: d' =>
      if str_eqb k k' then (k', v) :: d' else (k', v') :: dict_set k v d'
  end.

(** [dict(pairs)] *)
Definition dict {V : Type} (pairs : list (str * V)) : list (str * V) :=
  fold_left (fun d kv => dict_set (fst kv) (snd kv) d) pairs [].

(** [WHITESPACE = re.compile(r'[ \t\n\r]*')] *)
Definition is_json_ws (c : char) : bool :=
  (N.eqb c 32 || N.eqb c 9 || N.eqb c 10 || N.eqb c 13)%bool.

Fixpoint skip_ws (s : str) : str :=
  match s with
  | c :: s' => if is_json_ws c then skip_ws s' else s
  | [] => []
  end.

Definition is_digit (c : char) : bool := ((48 <=? c) && (c <=? 57))%N.

(** The longest run of digits at the head, and what follows it. *)
Fixpoint digits (s : str) : str * str :=
  match s with
  | c :: s' =>
      if is_digit c then let (ds, r) := digits s' in (c :: ds, r)
      else ([], s)
  | [] => ([], [])
  end.

Record number_match : Type := mkNumber {
  n_integer : str;
  n_frac : option str;
  n_exp : option str;
  n_end : str
}.

Definition match_integer (s : str) : option (str * str) :=
  let (sign, s1) :=
    match s with
    | c :: t => if N.eqb c (ch "-") then ([c], t) else ([], s)
    | [] => ([], s)
    end in
  match s1 with
  | d :: t =>
      if N.eqb d (ch "0") then Some (sign ++ [d], t)
      else if is_digit d then
             let (ds, r) := digits t in Some (sign ++ d :: ds, r)
           else None
  | [] => None
  end.

Definition match_frac (s : str) : option str * str :=
  match s with
  | c :: t =>
      if N.eqb c (ch ".") then
        match digits t with
        | ([], _) => (None, s)
        | (ds, r) => (Some (c :: ds), r)
        end
      else (None, s)
  | [] => (None, s)
  end.

Definition match_exp (s : str) : option str * str :=
  match s with
  | c :: t =>
      if (N.eqb c (ch "e") || N.eqb c (ch "E"))%bool then
        let (sign, t1) :=
          match t with
          | x :: t' =>
              if (N.eqb x (ch "-") || N.eqb x (ch "+"))%bool
              then ([x], t') else ([], t)
          | [] => ([], t)
          end in
        match digits t1 with
        | ([], _) => (None, s)
        | (ds, r) => (Some (c :: sign ++ ds), r)
        end
      else (None, s)
  | [] => (None, s)
  end.

(** [NUMBER_RE.match]: group 1 is an optional minus and either [0] or a
    nonzero digit with more digits, group 2 an optional [\.[0-9]+], group 3
    an optional [[eE][-+]?[0-9]+]. *)
Definition match_number (s : str) : option number_match :=
  match match_integer s with
  | None => None
  | Some (i, r) =>
      let (f, r1) := match_frac r in
      let (e, r2) := match_exp r1 in
      Some (mkNumber i f e r2)
  end.

(** [int(text)] on the text of the integer group. *)
Definition digit_val (c : char) : Z := Z.of_N (c - 48).

Definition nat_of_digits (s : str) : Z :=
  fold_left (fun acc c => (10 * acc + digit_val c)%Z) s 0%Z.

Definition parse_int (s : str) : Z :=
  match s with
  | c :: t => if N.eqb c (ch "-") then (- nat_of_digits t)%Z
              else nat_of_digits s
  | [] => 0%Z
  end.

Definition opt_text (o : option str) : str :=
  match o with Some t => t | None => [] end.

Definition number_value (m : number_match) : json :=
  match n_frac m, n_exp m with
  | None, None => JInt (parse_int (n_integer m))
  | f, e => JFloat (n_integer m ++ opt_text f ++ opt_text e)
  end.

(** *** Strings *)

Definition hex_val (c : char) : option N :=
  if ((48 <=? c) && (c <=? 57))%N then Some (c - 48)%N
  else if ((65 <=? c) && (c <=? 70))%N then Some (c - 55)%N
  else if ((97 <=? c) && (c <=? 102))%N then Some (c - 87)%N
  else None.

(** [_decode_uXXXX] on the four characters after [\u]. *)
Definition decode_uXXXX (a b c d : char) : option N :=
  match hex_val a, hex_val b, hex_val c, hex_val d with
  | Some x, Some y, Some z, Some w =>
      Some (((x * 16 + y) * 16 + z) * 16 + w)%N
  | _, _, _, _ => None
  end.

(** [BACKSLASH] *)
Definition backslash_table (esc : char) : option char :=
  if N.eqb esc c_quote then Some c_quote
  else if N.eqb esc c_backslash then Some c_backslash
  else if N.eqb esc (ch "/") then Some (ch "/")
  else if N.eqb esc (ch "b") then Some 8%N
  else if N.eqb esc (ch "f") then Some 12%N
  else if N.eqb esc (ch "n") then Some 10%N
  else if N.eqb esc (ch "r") then Some 13%N
  else if N.eqb esc (ch "t") then Some 9%N
  else None.

Definition is_high_surrogate (u : N) : bool := ((55296 <=? u) && (u <=? 56319))%N.
Definition is_low_surrogate (u : N) : bool := ((56320 <=? u) && (u <=? 57343))%N.

Definition join_surrogates (hi lo : N) : N :=
  (65536 + N.lor (N.shiftl (hi - 55296) 10) (lo - 56320))%N.

Definition push (c : char) (r : option (str * str)) : option (str * str) :=
  match r with
  | Some (x, rest) => Some (c :: x, rest)
  | None => None
  end.

(** [scanstring] in strict mode, from the character after the opening
    quote: the decoded text and what follows the closing quote. *)
Fixpoint scanstring (s : str) : option (str * str) :=
  match s with
  | [] => None
  | c :: t =>
      if N.eqb c c_quote then Some ([], t)
      else if N.eqb c c_backslash then
        match t with
        | [] => None
        | esc :: t1 =>
            if N.eqb esc (ch "u") then
              match t1 with
              | h1 :: h2 :: h3 :: h4 :: t2 =>
                  match decode_uXXXX h1 h2 h3 h4 with
                  | None => None
                  | Some uni =>
                      if is_high_surrogate uni then
                        match t2 with
                        | b :: u :: t3 =>
                            if (N.eqb b c_backslash && N.eqb u (ch "u"))%bool
                            then
                              match t3 with
                              | g1 :: g2 :: g3 :: g4 :: t4 =>
                                  match decode_uXXXX g1 g2 g3 g4 with
                                  | None => None
                                  | Some uni2 =>
                                      if is_low_surrogate uni2
                                      then push (join_surrogates uni uni2)
                                                (scanstring t4)
                                      else push uni (scanstring t2)
                                  end
                              | _ => None
                              end
                            else push uni (scanstring t2)
                        | _ => push uni (scanstring t2)
                        end
                      else push uni (scanstring t2)
                  end
              | _ => None
              end
            else
              match backslash_table esc with
              | Some x => push x (scanstring t1)
              | None => None
              end
        end
      else if (c <=? 31)%N then None
      else push c (scanstring t)
  end.

(** *** Values *)

(** Exceptions the body of [extract_and_parse_json] can meet; all of them
    are subclasses of [Exception]. *)
Inductive exn : Type :=
| JSONDecodeError
| RecursionError
| OtherError (name : string).

(** The [ValueError] of [int(text)]; [JSONDecodeError] is a subclass of
    it, not the other way round. *)
Definition ValueError : exn := OtherError "ValueError".

Inductive outcome (A : Type) : Type :=
| Return (a : A)
| Raise (e : exn).
Arguments Return {A} a.
Arguments Raise {A} e.

(** What the interpreter allows when [json.loads] is called:
    [sys.get_int_max_str_digits()] (4300 unless it was set; 0 for no
    limit, as in the versions of Python without it), and the number of
    nested arrays and objects the scanner can enter before it reaches the
    recursion limit, which depends on the depth of the call stack. *)
Record limits : Type := mkLimits {
  int_max_str_digits : N;
  recursion_room : nat
}.

Inductive presult : Type :=
| Ok (v : json) (rest : str)
| Fail                          (* [JSONDecodeError] or [StopIteration] *)
| Raises (e : exn).             (* [RecursionError], or the [ValueError]
                                   of [int] *)

Fixpoint starts_with (p s : str) : bool :=
  match p, s with
  | [], _ => true
  | x :: p', y :: s' => N.eqb x y && starts_with p' s'
  | _ :: _, [] => false
  end.

Section Containers.

(** [JSONArray] and [JSONObject] receive the scanner as an argument. *)
Variable scan : str -> presult.

(** The [while True] loop of [JSONArray]. The fuel counts elements; the
    loop is entered with more fuel than the text has characters, so that
    it never runs out. *)
Fixpoint array_items (fuel : nat) (values : list json) (s : str)
    : presult :=
  match fuel with
  | 0 => Raises RecursionError
  | S fuel' =>
      match scan s with
      | Ok v r =>
          match skip_ws r with
          | c :: r1 =>
              if N.eqb c c_rbracket then Ok (JArr (values ++ [v])) r1
              else if N.eqb c c_comma
                   then array_items fuel' (values ++ [v]) (skip_ws r1)
                   else Fail
          | [] => Fail
          end
      | Fail => Fail
      | Raises e => Raises e
      end
  end.

Definition JSONArray (s : str) : presult :=
  match skip_ws s with
  | c :: r =>
      if N.eqb c c_rbracket then Ok (JArr []) r
      else array_items (S (length s)) [] (skip_ws s)
  | [] => Fail
  end.

(** The [while True] loop of [JSONObject], from the character after the
    opening quote of a key. *)
Fixpoint object_items (fuel : nat) (pairs : list (str * json)) (s : str)
    : presult :=
  match fuel with
  | 0 => Raises RecursionError
  | S fuel' =>
      match scanstring s with
      | None => Fail
      | Some (key, r) =>
          match skip_ws r with
          | c :: r1 =>
              if N.eqb c c_colon then
                match scan (skip_ws r1) with
                | Ok v r2 =>
                    match skip_ws r2 with
                    | d :: r3 =>
                        if N.eqb d c_rbrace
                        then Ok (JObj (dict (pairs ++ [(key, v)]))) r3
                        else if N.eqb d c_comma then
                          match skip_ws r3 with
                          | q :: r4 =>
                              if N.eqb q c_quote
                              then object_items fuel'
                                     (pairs ++ [(key, v)]) r4
                              else Fail
                          | [] => Fail
                          end
                        else Fail
                    | [] => Fail
                    end
                | Fail => Fail
                | Raises e => Raises e
                end
              else Fail
          | [] => Fail
          end
      end
  end.

Definition JSONObject (s : str) : presult :=
  match skip_ws s with
  | c :: r =>
      if N.eqb c c_rbrace then Ok (JObj []) r
      else if N.eqb c c_quote then object_items (S (length s)) [] r
      else Fail
  | [] => Fail
  end.

End Containers.

(** The digits of the text of an integer, without its sign. *)
Definition int_digits (text : str) : str :=
  match text with
  | c :: t => if N.eqb c (ch "-") then t else text
  | [] => []
  end.

(** [int(text)] raises [ValueError] when a limit is set and the text has
    more digits than the limit; no text of 640 digits or less is
    refused. *)
Definition exceeds_digits (max_str_digits : N) (text : str) : bool :=
  let n := N.of_nat (length (int_digits text)) in
  ((640 <? n) && (0 <? max_str_digits) && (max_str_digits <? n))%N.

(** Only a number without fraction and exponent goes through [int]. *)
Definition int_raises (max_str_digits : N) (m : number_match) : bool :=
  match n_frac m, n_exp m with
  | None, None => exceeds_digits max_str_digits (n_integer m)
  | _, _ => false
  end.

(** [scan_once]: entering an array or an object takes one of the [room]
    nested calls that are left. *)
Fixpoint scan_once (max_str_digits : N) (room : nat) (s : str) : presult :=
  match s with
  | [] => Fail
  | c :: t =>
      if N.eqb c c_quote then
        match scanstring t with
        | Some (x, r) => Ok (JStr x) r
        | None => Fail
        end
      else if N.eqb c c_lbrace then
        match room with
        | 0 => Raises RecursionError
        | S room' => JSONObject (scan_once max_str_digits room') t
        end
      else if N.eqb c c_lbracket then
        match room with
        | 0 => Raises RecursionError
        | S room' => JSONArray (scan_once max_str_digits room') t
        end
      else if starts_with (ustr "null") s then Ok JNull (skipn 4 s)
      else if starts_with (ustr "true") s then Ok (JBool true) (skipn 4 s)
      else if starts_with (ustr "false") s
           then Ok (JBool false) (skipn 5 s)
      else
        match match_number s with
        | Some m =>
            if int_raises max_str_digits m then Raises ValueError
            else Ok (number_value m) (n_end m)
        | None =>
            if starts_with (ustr "NaN") s then Ok (JConst NaN) (skipn 3 s)
            else if starts_with (ustr "Infinity") s
                 then Ok (JConst PosInf) (skipn 8 s)
            else if starts_with (ustr "-Infinity") s
                 then Ok (JConst NegInf) (skipn 9 s)
            else Fail
        end
  end.

(** [JSONDecoder.decode] *)
Definition decode (lim : limits) (s : str) : outcome json :=
  match scan_once (int_max_str_digits lim) (recursion_room lim) (skip_ws s)
  with
  | Ok v r =>
      match skip_ws r with
      | [] => Return v
      | _ :: _ => Raise JSONDecodeError      (* Extra data *)
      end
  | Fail => Raise JSONDecodeError            (* Expecting value *)
  | Raises e => Raise e
  end.

Definition c_bom : char := 65279%N.

(** [json.loads] on a [str] *)
Definition json_loads (lim : limits) (s : str) : outcome json :=
  match s with
  | c :: _ => if N.eqb c c_bom then Raise JSONDecodeError else decode lim s
  | [] => decode lim s
  end.

(* ===================================================================== *)
(** ** [extract_and_parse_json]                                            *)
(* ===================================================================== *)

(** What Streamlit has been asked to render. *)
Inductive error_text : Type :=
| JsonParsingError (e : exn)        (* "JSON Parsing Error: {str(e)}" *)
| ProcessingError (e : exn).        (* "Error processing output: {str(e)}" *)

Inductive element : Type :=
| st_error (msg : error_text)
| st_text_area (label : string) (value : str) (height : nat).

Definition page := list element.

(** Streamlit: whether the call for an element returns or raises, on the
    page as it is. When it returns, the element is on the page. *)
Definition streamlit : Type := page -> element -> outcome unit.

Definition render (st : streamlit) (el : element) (ui : page)
    : outcome unit * page :=
  match st ui el with
  | Return _ => (Return tt, ui ++ [el])
  | Raise e => (Raise e, ui)
  end.

Inductive exn_class : Type := cls_JSONDecodeError | cls_Exception.

Definition isinstance (e : exn) (c : exn_class) : bool :=
  match c, e with
  | cls_Exception, _ => true
  | cls_JSONDecodeError, JSONDecodeError => true
  | cls_JSONDecodeError, _ => false
  end.

(** The body of an [except] clause: it returns a value, or an exception
    raised in it leaves the function. *)
Definition handler := exn -> page -> outcome (option json) * page.

(** The [except] clauses in order; an exception no clause names leaves the
    function. *)
Fixpoint try_except (handlers : list (exn_class * handler)) (e : exn)
    (ui : page) : outcome (option json) * page :=
  match handlers with
  | [] => (Raise e, ui)
  | (c, h) :: rest =>
      if isinstance e c then h e ui else try_except rest e ui
  end.

Section Extraction.

Variable st : streamlit.

(** The decoder the body calls. *)
Variable loads : str -> outcome json.

(** The text handed to the decoder. *)
Definition candidate_json (raw_output : str) : str :=
  let json_str :=
    match re_search json_pattern raw_output with
    | Some m => opt_text (m_group1 m)
    | None => raw_output
    end in
  let json_str := strip (re_sub fence_pattern [] json_str) in
  re_sub comma_pattern [RGroup1] json_str.

Definition on_decode_error (raw_output : str) : handler :=
  fun e ui =>
    match render st (st_error (JsonParsingError e)) ui with
    | (Return _, ui1) =>
        match
          render st (st_text_area "Problematic JSON Output" raw_output 200)
            ui1
        with
        | (Return _, ui2) => (Return None, ui2)
        | (Raise e', ui2) => (Raise e', ui2)
        end
    | (Raise e', ui1) => (Raise e', ui1)
    end.

Definition on_exception : handler :=
  fun e ui =>
    match render st (st_error (ProcessingError e)) ui with
    | (Return _, ui1) => (Return None, ui1)
    | (Raise e', ui1) => (Raise e', ui1)
    end.

Definition extract_with (raw_output : str) (ui : page)
    : outcome (option json) * page :=
  match loads (candidate_json raw_output) with
  | Return v => (Return (Some v), ui)
  | Raise e =>
      try_except [(cls_JSONDecodeError, on_decode_error raw_output);
                  (cls_Exception, on_exception)] e ui
  end.

End Extraction.

Definition extract_and_parse_json (st : streamlit) (lim : limits)
    : str -> page -> outcome (option json) * page :=
  extract_with st (json_loads lim).

(** The value the caller receives, on an empty page. *)
Definition extracted (st : streamlit) (lim : limits) (raw_output : str)
    : outcome (option json) :=
  fst (extract_and_parse_json st lim raw_output []).

(* ===================================================================== *)
(** ** Notions used in the statements                                     *)
(* ===================================================================== *)

(** Put the characters of [a] in front of a match. *)
Definition prepend (a : str) (r : option rmatch) : option rmatch :=
  fold_right consume r a.

Definition after_brace (k : str -> option rmatch) : str -> option rmatch :=
  fun s2 => exec (Chr c_rbrace) s2 k.

(** The group of [json_pattern] closes with the text consumed so far. *)
Definition json_group (s : str) : str -> option rmatch :=
  fun s' => close_group (firstn (length s - length s') s)
              (Some (mkMatch [] None s')).

(** A [{] with a [}] somewhere after it. *)
Definition brace_pair (s : str) : Prop :=
  exists a b c, s = a ++ c_lbrace :: b ++ c_rbrace :: c.

(** The text contains three backticks in a row. *)
Definition has_fence (s : str) : Prop := exists a b, s = a ++ fence ++ b.

(** A comma, then whitespace only, then a closing brace or bracket. *)
Definition trailing_comma_at (s : str) : Prop :=
  exists w c r, s = c_comma :: w ++ c :: r
                /\ forallb is_space w = true /\ is_closer c = true.

Definition has_trailing_comma (s : str) : Prop :=
  exists a b, s = a ++ b /\ trailing_comma_at b.

Definition comma_group (s : str) : str -> option rmatch :=
  fun s' => close_group (firstn (length s - length s') s)
              (Some (mkMatch [] None s')).

(** Stripping removes the whitespace around a text whose first and last
    characters are not whitespace. *)
Definition head_not_space (s : str) : Prop :=
  match s with c :: _ => is_space c = false | [] => False end.

Definition last_not_space (s : str) : Prop := head_not_space (rev s).

(** [p in s] *)
Fixpoint contains (p s : str) : bool :=
  starts_with p s ||
  match s with
  | [] => false
  | _ :: s' => contains p s'
  end.

Definition trailing_comma_here (s : str) : bool :=
  match s with
  | x :: t =>
      N.eqb x c_comma &&
      match lstrip t with
      | c :: _ => is_closer c
      | [] => false
      end
  | [] => false
  end.

(** Some comma of [s] is followed, after optional whitespace, by [}] or
    []]. *)
Fixpoint trailing_comma (s : str) : bool :=
  trailing_comma_here s ||
  match s with
  | [] => false
  | _ :: s' => trailing_comma s'
  end.

(** [s] starts with [{] and ends with [}]. *)
Definition braced (s : str) : Prop :=
  exists body, s = c_lbrace :: body ++ [c_rbrace].

Definition string_stable (s x r : str) : Prop :=
  exists pre, s = (pre ++ [c_quote]) ++ r
              /\ forall r', scanstring ((pre ++ [c_quote]) ++ r') = Some (x, r').

(** Characters that could continue a number. *)
Definition numcont (c : char) : bool :=
  is_digit c || N.eqb c (ch ".") || N.eqb c (ch "e") || N.eqb c (ch "E").

(** What may follow a scanned value: the end of the text, or a character
    that cannot continue a number. *)
Definition sep (r : str) : Prop :=
  match r with c :: _ => numcont c = false | [] => True end.

Definition ends_digit (l : str) : Prop :=
  exists l0 z, l = l0 ++ [z] /\ is_digit z = true.

Definition int_stable (i r : str) : Prop :=
  ends_digit i /\
  forall r', match r' with c :: _ => is_digit c = false | [] => True end ->
             match_integer (i ++ r') = Some (i, r').

Definition number_stable (s : str) (m : number_match) : Prop :=
  exists pre, s = pre ++ n_end m /\ ends_digit pre
    /\ forall r', sep r' ->
         match_number (pre ++ r')
         = Some (mkNumber (n_integer m) (n_frac m) (n_exp m) r').

Definition token_end (pre : str) : Prop :=
  exists pre0 z, pre = pre0 ++ [z] /\ is_space z = false.

Definition is_object (v : json) : Prop := exists d, v = JObj d.

Definition newline : str := [10%N].

(** The scenario of the specification: prose, a json-tagged fence around
    an object with two trailing commas, and a closing line. *)
Definition scenario_input : str :=
  ustr "Here is your plan:" ++ newline ++ ustr "```json" ++ newline
  ++ py "{'a':1,'b':[1,2,],}" ++ newline ++ ustr "```" ++ newline
  ++ ustr "Enjoy!".

Definition scenario_plan : json :=
  JObj [(ustr "a", JInt 1); (ustr "b", JArr [JInt 1; JInt 2])].

(** What is rendered when the decoder rejects the candidate. *)
Definition decode_failure (raw_output : str) : page :=
  [st_error (JsonParsingError JSONDecodeError);
   st_text_area "Problematic JSON Output" raw_output 200].


(** What is rendered when the body raises another exception. *)
Definition processing_failure (e : exn) : page :=
  [st_error (ProcessingError e)].

(** Every call of Streamlit returns. *)
Definition renders (st : streamlit) : Prop :=
  forall ui el, st ui el = Return tt.

(** A Streamlit all of whose calls return. *)
Definition st_returns : streamlit := fun _ _ => Return tt.




(** The limit on digits that Python sets by default, and room for 900
    nested values. *)
Definition default_limits : limits := mkLimits 4300 900.

(** The limit on the digits of an integer is lifted, or raised. *)
Definition digits_allow (max_str_digits max_str_digits' : N) : Prop :=
  max_str_digits' = 0%N
  \/ (0 < max_str_digits /\ max_str_digits <= max_str_digits')%N.

(** An interpreter that allows at least what another does. *)
Definition allows (lim lim' : limits) : Prop :=
  digits_allow (int_max_str_digits lim) (int_max_str_digits lim')
  /\ recursion_room lim <= recursion_room lim'.

(** An interpreter without a limit on digits and with the room of the
    roomier of two. *)
Definition most (lim lim' : limits) : limits :=
  mkLimits 0 (Nat.max (recursion_room lim) (recursion_room lim')).

(* ===================================================================== *)
(** ** The prompt                                                          *)
(* ===================================================================== *)

(** The dictionary [get_user_input] returns. [age] and [duration] are
    [int]; [weight] and [height] are [float] and are carried as the text
    Python prints for them. *)
Record UserProfile : Type := mkProfile {
  name : str;
  age : N;
  weight : str;
  height : str;
  activity_level : str;
  dietary_preferences : str;
  dietary_requirements : str;
  restrictions : str;
  goal : str;
  region : str;
  preferred_cuisines : str;
  budget : str;
  meal_frequency : str;
  duration : N;
  secondary_goals : str
}.

(** [str(n)] for a non-negative [int] *)
Definition decimal (n : N) : str :=
  ustr (NilZero.string_of_uint (N.to_uint n)).

(** The keyword arguments of [format_prompt], with the [timestamp] that
    [partial] bound when the template was created. *)
Definition template_variables (p : UserProfile) (timestamp : str)
    : list (str * str) :=
  [(ustr "name", name p);
   (ustr "age", decimal (age p));
   (ustr "weight", weight p);
   (ustr "height", height p);
   (ustr "activity_level", activity_level p);
   (ustr "dietary_preferences", dietary_preferences p);
   (ustr "dietary_requirements", dietary_requirements p);
   (ustr "restrictions", restrictions p);
   (ustr "goal", goal p);
   (ustr "region", region p);
   (ustr "preferred_cuisines", preferred_cuisines p);
   (ustr "budget", budget p);
   (ustr "meal_frequency", meal_frequency p);
   (ustr "duration", decimal (duration p));
   (ustr "secondary_goals", secondary_goals p);
   (ustr "timestamp", timestamp)].

Fixpoint lookup (k : str) (d : list (str * str)) : option str :=
  match d with
  | [] => None
  | (k', v) :: d' => if str_eqb k k' then Some v else lookup k d'
  end.

(** The template of [create_prompt_template], with [@] where the source
    has a double quote. *)
Definition prompt_source : string := "
    You are NutriAI, an advanced AI nutritionist. Generate a personalized {duration}-day diet plan in VALID JSON format.

    === USER PROFILE ===
    - Name: {name}
    - Age: {age}
    - Weight: {weight} kg
    - Height: {height} cm
    - Activity: {activity_level}
    - Goals: {goal} (primary), {secondary_goals} (secondary)
    - Preferences: {dietary_preferences}
    - Requirements: {dietary_requirements}
    - Restrictions: {restrictions}
    - Region: {region}
    - Cuisines: {preferred_cuisines}
    - Budget: {budget}
    - Meal Frequency: {meal_frequency}

    === REGIONAL CONSIDERATIONS ===
    Incorporate authentic and regionally appropriate foods based on the user's region ({region}). Focus on locally available ingredients and traditional cooking methods common in that area. Adjust spice levels, cooking techniques, and meal compositions to align with regional dietary patterns.

    === OUTPUT FORMAT ===
    Return ONLY a JSON object with no other text around it. The JSON must follow this structure:
    {{
        @metadata@: {{
            @generated_at@: @{timestamp}@,
            @plan_duration@: {duration}
        }},
        @user_profile@: {{
            @bmi@: 22.1,
            @bmr@: 1650,
            @daily_calories@: 2200,
            @macros@: {{
                @protein@: {{@percent@: 30, @grams@: 165}},
                @carbs@: {{@percent@: 40, @grams@: 220}},
                @fats@: {{@percent@: 30, @grams@: 73}}
            }},
            @micro_nutrients@: [@iron@, @vitamin D@],
            @considerations@: []
        }},
        @daily_plans@: {{
            @day_1@: {{
                @meals@: {{
                    @breakfast@: {{
                        @name@: @Meal Name@,
                        @desc@: @Description@,
                        @ingredients@: [@item1@, @item2@],
                        @nutrition@: {{
                            @calories@: 350,
                            @protein@: 20,
                            @carbs@: 45,
                            @fats@: 8,
                            @fiber@: 5
                        }},
                        @prep@: @Preparation steps@,
                        @time@: @08:00@
                    }}
                }},
                @snacks@: {{
                    @morning_snack@: {{
                        @name@: @Snack Name@,
                        @nutrition@: {{
                            @calories@: 150,
                            @protein@: 5,
                            @carbs@: 20,
                            @fats@: 5
                        }}
                    }}
                }},
                @hydration@: {{
                    @water@: @2L minimum@,
                    @other@: [@herbal tea@, @electrolyte drink@]
                }}
            }}
        }},
        @shopping_list@: {{
            @proteins@: [@chicken@, @tofu@],
            @carbs@: [@quinoa@, @sweet potatoes@],
            @vegetables@: [@spinach@, @broccoli@],
            @fruits@: [@berries@, @bananas@],
            @other@: [@olive oil@, @nuts@]
        }},
        @recommendations@: {{
            @general@: @General advice@,
            @supplements@: [@vitamin D@, @omega-3@],
            @tracking@: @Progress tracking tips@
        }}
    }}

    IMPORTANT: Return ONLY the JSON - no explanation, no markdown code blocks, no additional text.
    ".

Definition prompt_template : str :=
  map (fun c => if N.eqb c (ch "@") then c_quote else c) (ustr prompt_source).

Definition emit (c : char) (r : option str) : option str :=
  match r with Some t => Some (c :: t) | None => None end.

Definition emit_text (v : str) (r : option str) : option str :=
  match r with Some t => Some (v ++ t) | None => None end.

(** [str.format] on an f-string template: doubled braces are literal
    braces, [{key}] is replaced by the value of [key]; [field] holds the
    characters of the key being read, last first. A missing key, a single
    closing brace and an open field are errors. *)
Fixpoint format_from (env : list (str * str)) (field : option str)
    (s : str) : option str :=
  match s with
  | [] =>
      match field with
      | None => Some []
      | Some _ => None
      end
  | c :: t =>
      match field with
      | Some key =>
          if N.eqb c c_rbrace then
            match lookup (rev key) env with
            | Some v => emit_text v (format_from env None t)
            | None => None
            end
          else format_from env (Some (c :: key)) t
      | None =>
          if N.eqb c c_lbrace then
            match t with
            | c2 :: t2 =>
                if N.eqb c2 c_lbrace then emit c (format_from env None t2)
                else format_from env (Some []) t
            | [] => None
            end
          else if N.eqb c c_rbrace then
            match t with
            | c2 :: t2 =>
                if N.eqb c2 c_rbrace then emit c (format_from env None t2)
                else None
            | [] => None
            end
          else emit c (format_from env None t)
      end
  end.

(** [format_prompt] of [create_prompt_template()] on the dictionary: the
    text of the one message; [timestamp] is [datetime.now().isoformat()]
    at creation. *)
Definition format_prompt (p : UserProfile) (timestamp : str) : option str :=
  format_from (template_variables p timestamp) None prompt_template.

(** The fixed text before the first field. *)
Definition prompt_head : str :=
  newline
  ++ ustr "    You are NutriAI, an advanced AI nutritionist. Generate a personalized ".

Definition day_phrase : str := ustr "-day diet plan in VALID JSON format.".

(** The key of the metadata field, with its quotes, colon and space. *)
Definition plan_duration_label : str := py "'plan_duration': ".

(** The template between the first phrase and the metadata field, and
    after the metadata field. *)
Definition template_middle : str := firstn 990 (skipn 121 prompt_template).
Definition template_tail : str := skipn 1138 prompt_template.

Definition with_duration (p : UserProfile) (d : N) : UserProfile :=
  mkProfile (name p) (age p) (weight p) (height p) (activity_level p)
    (dietary_preferences p) (dietary_requirements p) (restrictions p)
    (goal p) (region p) (preferred_cuisines p) (budget p) (meal_frequency p)
    d (secondary_goals p).

(** What the middle and the tail of the template format to. *)
Definition prompt_middle (p : UserProfile) (timestamp : str) : str :=
  opt_text (format_from (template_variables p timestamp) None template_middle).

Definition prompt_tail (p : UserProfile) (timestamp : str) : str :=
  opt_text (format_from (template_variables p timestamp) None template_tail).

(** The default form values, with a plan of 14 days. *)
Definition sample_profile : UserProfile :=
  mkProfile (ustr "Alex Johnson") 30 (ustr "70.0") (ustr "170.0")
    (ustr "Sedentary (little to no exercise)") (ustr "None") (ustr "None")
    (ustr "None") (ustr "Weight Loss") (ustr "North America") (ustr "Any")
    (ustr "Low") (ustr "3 meals") 14 (ustr "None").

(* ===================================================================== *)
(** ** [json.dumps(plan, indent=2)]                                        *)
(* ===================================================================== *)

(** One lower-case hexadecimal digit. *)
Definition hex_digit (d : N) : char :=
  if (d <? 10)%N then (48 + d)%N else (87 + d)%N.

(** ['{0:04x}'.format(n)] for [n < 0x10000] *)
Definition hex4 (n : N) : str :=
  [hex_digit (n / 4096); hex_digit ((n / 256) mod 16);
   hex_digit ((n / 16) mod 16); hex_digit (n mod 16)]%N.

Definition u_escape (n : N) : str := c_backslash :: ch "u" :: hex4 n.

(** The replacement of one character in [py_encode_basestring_ascii]:
    [ESCAPE_DCT], the characters from space to tilde as they are, and the
    [\uXXXX] forms, a surrogate pair above the basic plane. *)
Definition escape_char (c : char) : str :=
  if N.eqb c c_quote then [c_backslash; c_quote]
  else if N.eqb c c_backslash then [c_backslash; c_backslash]
  else if N.eqb c 8 then [c_backslash; ch "b"]
  else if N.eqb c 12 then [c_backslash; ch "f"]
  else if N.eqb c 10 then [c_backslash; ch "n"]
  else if N.eqb c 13 then [c_backslash; ch "r"]
  else if N.eqb c 9 then [c_backslash; ch "t"]
  else if ((32 <=? c) && (c <=? 126))%N then [c]
  else if (c <? 65536)%N then u_escape c
  else
    let n := (c - 65536)%N in
    u_escape (N.lor 55296 (N.land (N.shiftr n 10) 1023))
    ++ u_escape (N.lor 56320 (N.land n 1023)).

(** [encode_basestring_ascii] *)
Definition encode_basestring_ascii (s : str) : str :=
  c_quote :: flat_map escape_char s ++ [c_quote].

(** [int.__repr__] *)
Definition int_repr (z : Z) : str :=
  match z with
  | Z0 => decimal 0
  | Zpos p => decimal (Npos p)
  | Zneg p => ch "-" :: decimal (Npos p)
  end.

(** The texts of the three constants. *)
Definition const_text (c : nonfinite) : str :=
  match c with
  | NaN => ustr "NaN"
  | PosInf => ustr "Infinity"
  | NegInf => ustr "-Infinity"
  end.

(** A line break and the indentation of a nesting level, two spaces per
    level. *)
Definition newline_indent (level : nat) : str :=
  10%N :: repeat 32%N (2 * level).

(** [chr] exists for these code points only. *)
Definition valid_char (c : char) : bool := (c <=? 1114111)%N.



(** The values the decoder builds from a Python [str]: every character of
    every string is a code point, and the keys of a [dict] are distinct. *)
#[warnings="-register-all"]
Inductive python_value : json -> Prop :=
| pv_null : python_value JNull
| pv_bool b : python_value (JBool b)
| pv_int z : python_value (JInt z)
| pv_float t : python_value (JFloat t)
| pv_const c : python_value (JConst c)
| pv_str s : forallb valid_char s = true -> python_value (JStr s)
| pv_arr l : Forall python_value l -> python_value (JArr l)
| pv_obj d :
    NoDup (map fst d) ->
    Forall (fun kv => forallb valid_char (fst kv) = true
                      /\ python_value (snd kv)) d ->
    python_value (JObj d).



(** A text all of whose characters are code points. *)
Definition valid (s : str) : Prop := forallb valid_char s = true.

(** An item of a [dict] the decoder builds. *)
Definition valid_pair (kv : str * json) : Prop :=
  valid (fst kv) /\ python_value (snd kv).

Section Encoder.

(** Python's floats: [float] is [float(text)], [floatstr] is what the
    encoder prints for a float ([float.__repr__], or one of [NaN],
    [Infinity], [-Infinity]). *)
Variable F : Type.
Variable float : str -> F.
Variable floatstr : F -> str.

(** [_iterencode] with [indent=2], hence the item separator [,] and the
    key separator [: ]; the chunks are joined. *)
Fixpoint iterencode (level : nat) (o : json) : str :=
  match o with
  | JNull => ustr "null"
  | JBool true => ustr "true"
  | JBool false => ustr "false"
  | JInt z => int_repr z
  | JFloat t => floatstr (float t)
  | JConst c => floatstr (float (const_text c))
  | JStr s => encode_basestring_ascii s
  | JArr [] => ustr "[]"
  | JArr (x :: xs) =>
      c_lbracket :: newline_indent (S level) ++ iterencode (S level) x
      ++ (fix more (l : list json) : str :=
            match l with
            | [] => newline_indent level ++ [c_rbracket]
            | y :: l' =>
                c_comma :: newline_indent (S level)
                ++ iterencode (S level) y ++ more l'
            end) xs
  | JObj [] => ustr "{}"
  | JObj ((k, x) :: d) =>
      c_lbrace :: newline_indent (S level) ++ encode_basestring_ascii k
      ++ ustr ": " ++ iterencode (S level) x
      ++ (fix more (l : list (str * json)) : str :=
            match l with
            | [] => newline_indent level ++ [c_rbrace]
            | (k', y) :: l' =>
                c_comma :: newline_indent (S level)
                ++ encode_basestring_ascii k' ++ ustr ": "
                ++ iterencode (S level) y ++ more l'
            end) d
  end.

(** The items of a list after the first, with the closing bracket. *)
Fixpoint more_items (level : nat) (l : list json) : str :=
  match l with
  | [] => newline_indent level ++ [c_rbracket]
  | y :: l' =>
      c_comma :: newline_indent (S level)
      ++ iterencode (S level) y ++ more_items level l'
  end.

(** The items of a dictionary after the first, with the closing brace. *)
Fixpoint more_pairs (level : nat) (l : list (str * json)) : str :=
  match l with
  | [] => newline_indent level ++ [c_rbrace]
  | (k, y) :: l' =>
      c_comma :: newline_indent (S level)
      ++ encode_basestring_ascii k ++ ustr ": "
      ++ iterencode (S level) y ++ more_pairs level l'
  end.

(** The [data] of the download button: [json.dumps(plan, indent=2)]. *)
Definition export_data (plan : json) : str := iterencode 0 plan.



(** What the encoder prints for a float: a number with a fraction or an
    exponent, or the name of a constant. *)
Definition float_text (t : str) : Prop :=
  (exists m, match_number t = Some m /\ n_end m = []
             /\ (n_frac m <> None \/ n_exp m <> None))
  \/ (exists c, t = const_text c).




End Encoder.


(** The characters of a decimal numeral. *)
Fixpoint uint_chars (d : Decimal.uint) : str :=
  match d with
  | Decimal.Nil => []
  | Decimal.D0 d => 48%N :: uint_chars d
  | Decimal.D1 d => 49%N :: uint_chars d
  | Decimal.D2 d => 50%N :: uint_chars d
  | Decimal.D3 d => 51%N :: uint_chars d
  | Decimal.D4 d => 52%N :: uint_chars d
  | Decimal.D5 d => 53%N :: uint_chars d
  | Decimal.D6 d => 54%N :: uint_chars d
  | Decimal.D7 d => 55%N :: uint_chars d
  | Decimal.D8 d => 56%N :: uint_chars d
  | Decimal.D9 d => 57%N :: uint_chars d
  end.


(** *** Examples *)




(** *** A model of floats for the examples: a float is its text *)

(** The texts that stand for a float: a number with a fraction or an
    exponent, or the name of a constant. *)
Definition is_float_text (t : str) : bool :=
  match match_number t with
  | Some m =>
      match n_end m, n_frac m, n_exp m with
      | [], None, None => false
      | [], _, _ => true
      | _ :: _, _, _ => false
      end
  | None =>
      str_eqb t (const_text NaN) || str_eqb t (const_text PosInf)
      || str_eqb t (const_text NegInf)
  end.

Record text_float : Type := mkTextFloat {
  tf_text : str;
  tf_ok : is_float_text tf_text = true
}.

Definition text_float_zero : text_float := mkTextFloat (ustr "0.0") eq_refl.

(** [float(text)]; the decoder asks for it on the texts of floats only. *)
Definition tf_float (t : str) : text_float :=
  match bool_dec (is_float_text t) true with
  | left e => mkTextFloat t e
  | right _ => text_float_zero
  end.

(* ===================================================================== *)
(** ** String methods of [display_plan] and [get_user_input]               *)
(* ===================================================================== *)

(** [sep.join(items)] *)
Fixpoint join (sep : str) (items : list str) : str :=
  match items with
  | [] => []
  | [x] => x
  | x :: rest => x ++ sep ++ join sep rest
  end.

(** [s.split(sep)] for the separators of the source, which are not empty:
    the text is cut at each occurrence of [sep], found from the left and
    not overlapping. [skip] counts the characters of an occurrence still to
    pass; [cur] holds the piece being read, last character first. *)
Fixpoint split_from (sep : str) (skip : nat) (cur : str) (s : str)
    : list str :=
  match s with
  | [] => [rev cur]
  | c :: t =>
      match skip with
      | S k => split_from sep k cur t
      | 0 =>
          if starts_with sep s
          then rev cur :: split_from sep (length sep - 1) [] t
          else split_from sep 0 (c :: cur) t
      end
  end.

Definition split (sep s : str) : list str := split_from sep 0 [] s.

(** [s.replace(old, new)] for a non-empty [old]. *)
Fixpoint replace_from (old new : str) (skip : nat) (s : str) : str :=
  match s with
  | [] => []
  | c :: t =>
      match skip with
      | S k => replace_from old new k t
      | 0 =>
          if starts_with old s
          then new ++ replace_from old new (length old - 1) t
          else c :: replace_from old new 0 t
      end
  end.

Definition replace (old new s : str) : str := replace_from old new 0 s.

(** [s.endswith(suffix)] *)
Definition endswith (suffix s : str) : bool :=
  starts_with (rev suffix) (rev s).

(** *** The number of a day *)

(** [day.split('_')[-1] if '_' in day else day.replace('day_', '')], the
    text of the button of a day. *)
Definition day_num (day : str) : str :=
  if contains (ustr "_") day then last (split (ustr "_") day) []
  else replace (ustr "day_") [] day.

(** [selected_day.split('_')[-1]], the text of the heading of the day. *)
Definition heading_day_num (selected_day : str) : str :=
  last (split (ustr "_") selected_day) [].

(** *** Preparation steps *)

(** The body of the loop over [enumerate(prep_steps)]: the line given to
    [st.markdown], if any. *)
Definition step_line (i : nat) (step : str) : list str :=
  match step with
  | [] => []
  | _ :: _ =>
      let step := strip step in
      let step := if endswith (ustr ".") step then step
                  else step ++ ustr "." in
      [decimal (N.of_nat (i + 1)) ++ ustr ". " ++ step]
  end.

Fixpoint step_lines_from (i : nat) (steps : list str) : list str :=
  match steps with
  | [] => []
  | step :: rest => step_line i step ++ step_lines_from (S i) rest
  end.

(** The lines rendered for [meal['prep']] when it is a string. *)
Definition prep_lines (prep : str) : list str :=
  step_lines_from 0 (split (ustr ". ") prep).

(** What is rendered for a step: the step without the whitespace around
    it, closed by a full stop. *)
Definition finish_step (step : str) : str :=
  let step := strip step in
  if endswith (ustr ".") step then step else step ++ ustr ".".

(** A sentence as a recipe writes it: some text without a full stop inside
    and without whitespace at its ends. *)
Definition clean_sentence (s : str) : Prop :=
  ~ In (ch ".") s /\ head_not_space s /\ last_not_space s.

(** The numbered lines of a list of sentences, counted from [i + 1]. *)
Fixpoint numbered_from (i : nat) (sentences : list str) : list str :=
  match sentences with
  | [] => []
  | s :: rest =>
      (decimal (N.of_nat (i + 1)) ++ ustr ". " ++ s ++ ustr ".")
      :: numbered_from (S i) rest
  end.

(* ===================================================================== *)
(** ** [get_user_input]                                                    *)
(* ===================================================================== *)

(** What the widgets of the form hold when the script runs: texts for the
    text inputs and the select boxes, the numbers as for [UserProfile], the
    chosen options for the three [multiselect]s. *)
Record FormValues : Type := mkForm {
  f_name : str;
  f_age : N;
  f_weight : str;
  f_height : str;
  f_activity_level : str;
  f_dietary_preferences : list str;
  f_dietary_requirements : list str;
  f_restrictions : str;
  f_goal : str;
  f_region : str;
  f_preferred_cuisines : list str;
  f_budget : str;
  f_meal_frequency : str;
  f_duration : N
}.

(** [", ".join(chosen) if chosen else default] *)
Definition joined_or (default : str) (chosen : list str) : str :=
  match chosen with
  | [] => default
  | _ :: _ => join (ustr ", ") chosen
  end.

(** [text if text else default] *)
Definition text_or (default text : str) : str :=
  match text with
  | [] => default
  | _ :: _ => text
  end.

(** The dictionary returned when the form is submitted. *)
Definition user_data (f : FormValues) : UserProfile :=
  mkProfile (f_name f) (f_age f) (f_weight f) (f_height f)
    (f_activity_level f)
    (joined_or (ustr "None") (f_dietary_preferences f))
    (joined_or (ustr "None") (f_dietary_requirements f))
    (text_or (ustr "None") (f_restrictions f))
    (f_goal f) (f_region f)
    (joined_or (ustr "Any") (f_preferred_cuisines f))
    (f_budget f) (f_meal_frequency f) (f_duration f)
    (ustr "None").

(** [get_user_input]: the dictionary when [st.form_submit_button] returned
    [True], otherwise [None]. *)
Definition get_user_input (f : FormValues) (submitted : bool)
    : option UserProfile :=
  if submitted then Some (user_data f) else None.

(** The options of the three [multiselect]s. *)
Definition dietary_preference_options : list str :=
  [ustr "Vegetarian"; ustr "Vegan"; ustr "Pescatarian"; ustr "Flexitarian";
   ustr "None"].

Definition dietary_requirement_options : list str :=
  [ustr "Gluten-free"; ustr "Dairy-free"; ustr "Keto"; ustr "Paleo";
   ustr "Low-FODMAP"; ustr "Halal"; ustr "Kosher"; ustr "None"].

Definition cuisine_options : list str :=
  [ustr "Mediterranean"; ustr "Asian"; ustr "Indian"; ustr "Mexican";
   ustr "American"; ustr "European"; ustr "Middle Eastern"; ustr "African";
   ustr "Caribbean"; ustr "Latin American"].

(** A form whose [multiselect]s hold options of theirs. *)
Definition chosen_from_options (f : FormValues) : Prop :=
  incl (f_dietary_preferences f) dietary_preference_options
  /\ incl (f_dietary_requirements f) dietary_requirement_options
  /\ incl (f_preferred_cuisines f) cuisine_options.

(** The form with another text typed as the name, or as the restrictions. *)
Definition with_name (f : FormValues) (x : str) : FormValues :=
  mkForm x (f_age f) (f_weight f) (f_height f) (f_activity_level f)
    (f_dietary_preferences f) (f_dietary_requirements f) (f_restrictions f)
    (f_goal f) (f_region f) (f_preferred_cuisines f) (f_budget f)
    (f_meal_frequency f) (f_duration f).

Definition with_restrictions (f : FormValues) (x : str) : FormValues :=
  mkForm (f_name f) (f_age f) (f_weight f) (f_height f) (f_activity_level f)
    (f_dietary_preferences f) (f_dietary_requirements f) x
    (f_goal f) (f_region f) (f_preferred_cuisines f) (f_budget f)
    (f_meal_frequency f) (f_duration f).

(** The template around the name field and around the restrictions
    field. *)
Definition template_before_name : str := firstn 160 prompt_template.
Definition template_after_name : str := skipn 166 prompt_template.
Definition template_before_restrictions : str := firstn 434 prompt_template.
Definition template_after_restrictions : str := skipn 448 prompt_template.

(** The text a part of the template formats to. *)
Definition formatted (env : list (str * str)) (part : str) : str :=
  match format_from env None part with
  | Some text => text
  | None => []
  end.

(** The placeholder of a variable. *)
Definition placeholder (key : str) : str :=
  c_lbrace :: key ++ [c_rbrace].

(** The text of the prompt sent to the model. *)
Definition prompt_text (p : UserProfile) (timestamp : str) : str :=
  match format_prompt p timestamp return str with
  | Some text => text
  | None => []
  end.

(* ===================================================================== *)
(** ** Notions used in the statements about the parsed plan                *)
(* ===================================================================== *)

(** No object of the value, at any depth, has a key twice. *)
#[warnings="-register-all"]
Inductive distinct_keys : json -> Prop :=
| dk_null : distinct_keys JNull
| dk_bool b : distinct_keys (JBool b)
| dk_int z : distinct_keys (JInt z)
| dk_float t : distinct_keys (JFloat t)
| dk_const c : distinct_keys (JConst c)
| dk_str s : distinct_keys (JStr s)
| dk_arr l : Forall distinct_keys l -> distinct_keys (JArr l)
| dk_obj d :
    NoDup (map fst d) -> Forall (fun kv => distinct_keys (snd kv)) d ->
    distinct_keys (JObj d).

(* ===================================================================== *)
(** ** Python values in [display_plan] and [main]                          *)
(* ===================================================================== *)

Definition KeyError : exn := OtherError "KeyError".
Definition TypeError : exn := OtherError "TypeError".
Definition AttributeError : exn := OtherError "AttributeError".
Definition IndexError : exn := OtherError "IndexError".

(** The value of a key in a [dict], if it has the key. *)
Fixpoint dict_find {V : Type} (k : str) (d : list (str * V)) : option V :=
  match d with
  | [] => None
  | (k', v) :: d' => if str_eqb k k' then Some v else dict_find k d'
  end.

(** [items[i]] for a list or the characters of a string: negative indices
    count from the end. *)
Definition index {A : Type} (items : list A) (i : Z) : option A :=
  let n := Z.of_nat (length items) in
  if (0 <=? i)%Z then nth_error items (Z.to_nat i)
  else if (0 <=? i + n)%Z then nth_error items (Z.to_nat (i + n))
  else None.

Definition int_of_bool (b : bool) : Z := if b then 1%Z else 0%Z.

(** [o[key]]. The keys of a decoded object are strings, so that no other
    hashable key is found in it; a list and a string take integers. *)
Definition getitem (o key : json) : outcome json :=
  match o with
  | JObj d =>
      match key with
      | JStr k =>
          match dict_find k d with
          | Some v => Return v
          | None => Raise KeyError
          end
      | JArr _ | JObj _ => Raise TypeError            (* unhashable *)
      | JNull | JBool _ | JInt _ | JFloat _ | JConst _ => Raise KeyError
      end
  | JArr items =>
      match key with
      | JInt i =>
          match index items i with
          | Some v => Return v
          | None => Raise IndexError
          end
      | JBool b =>
          match index items (int_of_bool b) with
          | Some v => Return v
          | None => Raise IndexError
          end
      | _ => Raise TypeError
      end
  | JStr s =>
      match key with
      | JInt i =>
          match index s i with
          | Some c => Return (JStr [c])
          | None => Raise IndexError
          end
      | JBool b =>
          match index s (int_of_bool b) with
          | Some c => Return (JStr [c])
          | None => Raise IndexError
          end
      | _ => Raise TypeError
      end
  | JNull | JBool _ | JInt _ | JFloat _ | JConst _ => Raise TypeError
  end.

(** [o.get(key, default)]: only a [dict] has the method. *)
Definition get_method (o : json) (key : str) (default : json)
    : outcome json :=
  match o with
  | JObj d =>
      match dict_find key d with
      | Some v => Return v
      | None => Return default
      end
  | _ => Raise AttributeError
  end.

(** [list(o.keys())] *)
Definition keys_method (o : json) : outcome (list str) :=
  match o with
  | JObj d => Return (map fst d)
  | _ => Raise AttributeError
  end.

(** [o.items()] *)
Definition items_method (o : json) : outcome (list (str * json)) :=
  match o with
  | JObj d => Return d
  | _ => Raise AttributeError
  end.

(** [for item in v]: the items of a list, the keys of a [dict], the
    characters of a string. *)
Definition iterate (v : json) : outcome (list json) :=
  match v with
  | JArr items => Return items
  | JObj d => Return (map (fun kv => JStr (fst kv)) d)
  | JStr s => Return (map (fun c => JStr [c]) s)
  | JNull | JBool _ | JInt _ | JFloat _ | JConst _ => Raise TypeError
  end.

(** [a == b] for a string [a]. *)
Definition str_equals (a : str) (b : json) : bool :=
  match b with
  | JStr s => str_eqb a s
  | _ => false
  end.

(** *** The session *)

(** [st.session_state]: the values kept from one run of the script to the
    next; [None] is [JNull]. *)
Definition session := list (str * json).

(** [if key not in st.session_state: st.session_state[key] = value] *)
Definition setdefault (key : str) (value : json) (s : session) : session :=
  match dict_find key s with
  | Some _ => s
  | None => dict_set key value s
  end.

(** [st.session_state.get(key, default)] *)
Definition session_get (key : str) (default : json) (s : session) : json :=
  match dict_find key s with
  | Some v => v
  | None => default
  end.

(** *** Code that reads and writes the session and may raise *)

Definition action (A : Type) : Type := session -> outcome A * session.

Definition ret {A : Type} (a : A) : action A := fun s => (Return a, s).

Definition bind {A B : Type} (m : action A) (k : A -> action B)
    : action B :=
  fun s =>
    match m s with
    | (Return a, s') => k a s'
    | (Raise e, s') => (Raise e, s')
    end.

(** A step that does not touch the session. *)
Definition eval {A : Type} (o : outcome A) : action A := fun s => (o, s).

Definition read {A : Type} (f : session -> A) : action A :=
  fun s => (Return (f s), s).

Definition assign (key : str) (value : json) : action unit :=
  fun s => (Return tt, dict_set key value s).

Declare Scope action_scope.
Delimit Scope action_scope with action.
Notation "x <- m ;; k" := (bind m (fun x => k))
  (at level 61, m at next level, right associativity) : action_scope.
Notation "m ;; k" := (bind m (fun _ => k))
  (at level 61, right associativity) : action_scope.

(* ===================================================================== *)
(** ** [display_plan], up to the plan of the selected day                  *)
(* ===================================================================== *)

(** What is passed to [st.metric] as its value: a value of the plan, or
    the text of an f-string. *)
Inductive metric_value : Type :=
| metric_of (v : json)
| metric_text (t : str).

(** The calls to Streamlit that render, in the order of the source. *)
Inductive ui_call : Type :=
| st_success_ready              (* [st.success] at the top *)
| st_markdown_dashboard         (* the heading of the dashboard *)
| st_columns (n : nat)
| st_metric (label : string) (value : metric_value)
| st_tabs                       (* the four tabs *)
| st_markdown_select_day.       (* the heading over the day buttons *)

(** [f"day_btn_{day}"], the key of the button of a day. *)
Definition day_button_key (day : str) : str := ustr "day_btn_" ++ day.

Section Display.

(** Streamlit: what a rendering call does, and what [st.button] returns,
    given its label, its key and whether its type is primary. *)
Variable st_call : ui_call -> outcome unit.
Variable st_button : str -> str -> bool -> outcome bool.

(** [str(v)] for the values that are not strings. *)
Variable py_str : json -> str.

(** [f"{v}"] *)
Definition format_value (v : json) : str :=
  match v with
  | JStr s => s
  | _ => py_str v
  end.

Local Open Scope action_scope.

(** The four metrics of the dashboard. *)
Definition display_metrics (plan : json) : action unit :=
  eval (st_call st_success_ready) ;;
  eval (st_call st_markdown_dashboard) ;;
  eval (st_call (st_columns 4)) ;;
  user_profile <- eval (getitem plan (JStr (ustr "user_profile"))) ;;
  daily_calories <-
    eval (getitem user_profile (JStr (ustr "daily_calories"))) ;;
  eval (st_call (st_metric "Daily Calories" (metric_of daily_calories))) ;;
  metadata <- eval (getitem plan (JStr (ustr "metadata"))) ;;
  plan_duration <- eval (getitem metadata (JStr (ustr "plan_duration"))) ;;
  eval (st_call (st_metric "Plan Duration"
                   (metric_text (format_value plan_duration
                                 ++ ustr " days")))) ;;
  user_profile <- eval (getitem plan (JStr (ustr "user_profile"))) ;;
  bmi <- eval (get_method user_profile (ustr "bmi") (JStr (ustr "N/A"))) ;;
  eval (st_call (st_metric "BMI" (metric_text (format_value bmi)))) ;;
  user_profile <- eval (getitem plan (JStr (ustr "user_profile"))) ;;
  bmr <- eval (get_method user_profile (ustr "bmr") (JStr (ustr "N/A"))) ;;
  eval (st_call (st_metric "BMR" (metric_text (format_value bmr)))).

(** The loop over the days: one button a day; a button that returns [True]
    makes its day the selected one, in the session too. *)
Fixpoint day_buttons (days : list str) (selected_day : json)
    : action json :=
  match days with
  | [] => ret selected_day
  | day :: rest =>
      pressed <- eval (st_button (ustr "Day " ++ day_num day)
                         (day_button_key day)
                         (str_equals day selected_day)) ;;
      if pressed : bool then
        assign (ustr "selected_day") (JStr day) ;;
        day_buttons rest (JStr day)
      else day_buttons rest selected_day
  end.

(** The selection of the day, and its plan. *)
Definition select_day (plan : json) : action (json * json) :=
  eval (st_call st_markdown_select_day) ;;
  daily_plans <- eval (getitem plan (JStr (ustr "daily_plans"))) ;;
  days <- eval (keys_method daily_plans) ;;
  eval (st_call (st_columns (min 7 (length days)))) ;;
  first_day <- eval (match days with
                     | day :: _ => Return (JStr day)
                     | [] => Raise IndexError
                     end) ;;
  selected_day <- read (session_get (ustr "selected_day") first_day) ;;
  selected_day <- day_buttons days selected_day ;;
  daily_plans <- eval (getitem plan (JStr (ustr "daily_plans"))) ;;
  day_plan <- eval (getitem daily_plans selected_day) ;;
  ret (selected_day, day_plan).

(** What follows in [display_plan], given the selected day and its
    plan. *)
Variable display_day : json -> json -> json -> action unit.

(** [display_plan] *)
Definition display_plan (plan : json) : action unit :=
  display_metrics plan ;;
  eval (st_call st_tabs) ;;
  selection <- select_day plan ;;
  display_day plan (fst selection) (snd selection).

End Display.

(* ===================================================================== *)
(** ** [init_groq_client] and [main]                                       *)
(* ===================================================================== *)

(** How a part of the script ends: it returns, an exception leaves it, or
    Streamlit stops or reruns the script ([st.stop], [st.rerun]), which no
    [except Exception] clause catches. *)
Inductive ending (A : Type) : Type :=
| Done (a : A)
| Failed (e : exn)
| Stopped
| Rerun.
Arguments Done {A} a.
Arguments Failed {A} e.
Arguments Stopped {A}.
Arguments Rerun {A}.

(** What [init_groq_client] and [main] render themselves. *)
Inductive message : Type :=
| api_key_not_found            (* "GROQ_API_KEY not found in .env file" *)
| client_failed (e : exn)      (* "Failed to initialize Groq client: ..." *)
| from_extraction (e : element)
| failed_to_generate           (* "Failed to generate valid nutrition plan.
                                   Please try again." *)
| error_generating (e : exn)   (* "Error generating plan: ..." *)
| please_try_again.            (* "Please try again or check your Groq API
                                   key" *)

Section Truth.

(** [float(text) == 0.0] *)
Variable float_is_zero : str -> bool.

(** [bool(v)] *)
Definition truthy (v : json) : bool :=
  match v with
  | JNull => false
  | JBool b => b
  | JInt z => negb (Z.eqb z 0)
  | JFloat t => negb (float_is_zero t)
  | JConst _ => true
  | JStr s => match s with [] => false | _ :: _ => true end
  | JArr items => match items with [] => false | _ :: _ => true end
  | JObj d => match d with [] => false | _ :: _ => true end
  end.

(** [bool(parsed)] for what [extract_and_parse_json] returned. *)
Definition truthy_result (parsed : option json) : bool :=
  match parsed with
  | Some v => truthy v
  | None => false
  end.

End Truth.

Section Main.

Variable float_is_zero : str -> bool.

(** The environment and the model client: [os.getenv("GROQ_API_KEY")],
    the constructor [ChatGroq] on the key, and [client.invoke] on the
    prompt, which gives the content of the response. *)
Variable getenv_api_key : option str.
Variable client : Type.
Variable ChatGroq : str -> outcome client.
Variable invoke : client -> str -> outcome str.

(** [datetime.now().isoformat()] when the template is created. *)
Variable timestamp : str.

(** Streamlit as [extract_and_parse_json] calls it, and the limits of the
    interpreter where [main] calls [extract_and_parse_json]. *)
Variable st : streamlit.
Variable lim : limits.

(** [display_plan], and what the button [Generate New Plan] returns. *)
Variable display : json -> action unit.
Variable new_plan_button : bool.

(** [init_groq_client] *)
Definition init_groq_client : ending client * list message :=
  match getenv_api_key with
  | None | Some [] => (Stopped, [api_key_not_found])
  | Some api_key =>
      match ChatGroq api_key with
      | Return c => (Done c, [])
      | Raise e => (Stopped, [client_failed e])
      end
  end.

(** The five defaults at the top of [main]. *)
Definition init_session (s : session) : session :=
  setdefault (ustr "show_calendar") (JBool false)
    (setdefault (ustr "show_share") (JBool false)
       (setdefault (ustr "water_count") (JInt 0)
          (setdefault (ustr "selected_day") JNull
             (setdefault (ustr "nutrition_plan") JNull s)))).

(** The handler of [main]: [except Exception as e]. *)
Definition on_generation_error (e : exn) : list message :=
  [error_generating e; please_try_again].

(** The body of the [try] of [main], after the client is there. *)
(** [if parsed: ... else: st.error(...)] *)
Definition store_plan (parsed : option json) (s : session)
    : session * list message :=
  if truthy_result float_is_zero parsed then
    (dict_set (ustr "nutrition_plan")
       (match parsed with Some v => v | None => JNull end) s, [])
  else (s, [failed_to_generate]).

(** The [try] of [main] from the call of the model on: the answer is
    extracted and stored; an exception is handled by [except Exception]. *)
Definition answer (c : client) (prompt : str) (s : session)
    : session * list message :=
  match invoke c prompt with
  | Raise e => (s, on_generation_error e)
  | Return content =>
      let result := extract_and_parse_json st lim content [] in
      let ui := map from_extraction (snd result) in
      match fst result with
      | Raise e => (s, ui ++ on_generation_error e)
      | Return parsed =>
          let stored := store_plan parsed s in
          (fst stored, ui ++ snd stored)
      end
  end.

(** The body of the [try] of [main], after the client is there. *)
Definition generate (c : client) (user_data : UserProfile) (s : session)
    : session * list message :=
  match format_prompt user_data timestamp
    return session * list message with
  | None => (s, on_generation_error KeyError)
  | Some prompt => answer c prompt s
  end.

(** The first [if] of [main]. *)
Definition generation_step (user_data : option UserProfile) (s : session)
    : ending unit * session * list message :=
  match user_data with
  | Some data =>
      match dict_find (ustr "nutrition_plan") s with
      | None => (Failed AttributeError, s, [])
      | Some plan =>
          if truthy float_is_zero plan then (Done tt, s, [])
          else
            match fst init_groq_client with
            | Done c =>
                let generated := generate c data s in
                (Done tt, fst generated,
                 snd init_groq_client ++ snd generated)
            | Failed e =>
                (Done tt, s, snd init_groq_client ++ on_generation_error e)
            | Stopped => (Stopped, s, snd init_groq_client)
            | Rerun => (Rerun, s, snd init_groq_client)
            end
      end
  | None => (Done tt, s, [])
  end.

(** The second [if] of [main]. *)
Definition display_step (s : session) : ending unit * session :=
  match dict_find (ustr "nutrition_plan") s with
  | None => (Failed AttributeError, s)
  | Some plan =>
      if truthy float_is_zero plan then
        match fst (display plan s) with
        | Raise e => (Failed e, snd (display plan s))
        | Return _ =>
            if new_plan_button
            then (Rerun, dict_set (ustr "nutrition_plan") JNull
                           (snd (display plan s)))
            else (Done tt, snd (display plan s))
        end
      else (Done tt, s)
  end.

(** [main]: one run of the script on the session of the browser tab, with
    what the form holds and whether it was submitted. *)
Definition main (s : session) (form : FormValues) (submitted : bool)
    : ending unit * session * list message :=
  let s := init_session s in
  let generated := generation_step (get_user_input form submitted) s in
  match fst (fst generated) with
  | Done _ =>
      let displayed := display_step (snd (fst generated)) in
      (fst displayed, snd displayed, snd generated)
  | _ => generated
  end.

End Main.

(** A line feed or a character from space to tilde. *)
Definition printable (c : char) : bool :=
  (N.eqb c 10 || (32 <=? c) && (c <=? 126))%N.

(* ===================================================================== *)
(** ** The shopping list of [display_plan]                                 *)
(* ===================================================================== *)

Section Shopping.

Variable float_is_zero : str -> bool.
Variable py_str : json -> str.

(** [f"shop_{category}_{item}"], the key of the checkbox of an item. *)
Definition shop_key (category : str) (item : json) : str :=
  ustr "shop_" ++ category ++ ustr "_" ++ format_value py_str item.

(** The keys of the checkboxes of one category: none when [items] is
    false for Python. *)
Definition category_keys (category : str) (items : json)
    : outcome (list str) :=
  if truthy float_is_zero items then
    match iterate items with
    | Return l => Return (map (shop_key category) l)
    | Raise e => Raise e
    end
  else Return [].

(** The loop over [plan['shopping_list'].items()]: the keys given to
    [st.checkbox], in order. *)
Fixpoint shopping_keys_of (categories : list (str * json))
    : outcome (list str) :=
  match categories with
  | [] => Return []
  | (category, items) :: rest =>
      match category_keys category items with
      | Return keys =>
          match shopping_keys_of rest with
          | Return keys' => Return (keys ++ keys')
          | Raise e => Raise e
          end
      | Raise e => Raise e
      end
  end.

Definition shopping_keys (plan : json) : outcome (list str) :=
  match getitem plan (JStr (ustr "shopping_list")) with
  | Return shopping_list =>
      match items_method shopping_list with
      | Return categories => shopping_keys_of categories
      | Raise e => Raise e
      end
  | Raise e => Raise e
  end.

End Shopping.

(** A category of the shopping list as the prompt asks for it: a name
    without an underscore, and a list of different strings. *)
Definition plain_category (kv : str * json) : Prop :=
  ~ In (ch "_") (fst kv)
  /\ exists names, snd kv = JArr (map JStr names) /\ NoDup names.

(** What the dashboard reads: the plan is an object with an object
    [user_profile] that has [daily_calories], and an object [metadata] that
    has [plan_duration]. *)
Definition has_dashboard_fields (plan : json) : Prop :=
  exists d user_profile metadata,
    plan = JObj d
    /\ dict_find (ustr "user_profile") d = Some (JObj user_profile)
    /\ In (ustr "daily_calories") (map fst user_profile)
    /\ dict_find (ustr "metadata") d = Some (JObj metadata)
    /\ In (ustr "plan_duration") (map fst metadata).

(* ===================================================================== *)
(** ** The meal timeline of [display_plan]                                 *)
(* ===================================================================== *)

(** [needle in v] for a string [needle]: a key of a [dict], an item of a
    list, a part of a string. *)
Definition contains_str (needle : str) (v : json) : outcome bool :=
  match v with
  | JObj d =>
      Return (match dict_find needle d with Some _ => true | None => false end)
  | JArr items => Return (existsb (str_equals needle) items)
  | JStr s => Return (contains needle s)
  | JNull | JBool _ | JInt _ | JFloat _ | JConst _ => Raise TypeError
  end.

(** [a < b] for two strings: the order of the code points. *)
Fixpoint str_ltb (a b : str) : bool :=
  match a, b with
  | _, [] => false
  | [], _ :: _ => true
  | x :: a', y :: b' =>
      if (x <? y)%N then true
      else if (y <? x)%N then false
      else str_ltb a' b'
  end.

(** An item of [meal_times]: [(time, meal_type, name, meal_kind)]. *)
Definition timeline_item : Type := json * str * json * str.

(** [x[0]], the key of the sort. *)
Definition item_time (x : timeline_item) : json := fst (fst (fst x)).

Definition string_time (x : timeline_item) : bool :=
  match item_time x with
  | JStr _ => true
  | _ => false
  end.

(** [x[0] < y[0]] where both are strings. *)
Definition time_ltb (x y : timeline_item) : bool :=
  match item_time x, item_time y with
  | JStr a, JStr b => str_ltb a b
  | _, _ => false
  end.

(** [list.sort] is stable: an item goes before the first one whose key is
    not less than its own. *)
Fixpoint insert_item (x : timeline_item) (l : list timeline_item)
    : list timeline_item :=
  match l with
  | [] => [x]
  | y :: l' => if time_ltb y x then y :: insert_item x l' else x :: y :: l'
  end.

Fixpoint sort_items (l : list timeline_item) : list timeline_item :=
  match l with
  | [] => []
  | x :: l' => insert_item x (sort_items l')
  end.

(** The time of a snack, from the name of its key. *)
Definition snack_time (snack_type : str) : str :=
  if str_eqb snack_type (ustr "morning_snack") then ustr "10:30"
  else if str_eqb snack_type (ustr "afternoon_snack") then ustr "15:30"
  else if str_eqb snack_type (ustr "evening_snack") then ustr "20:00"
  else ustr "12:00".

Section Timeline.

Variable float_is_zero : str -> bool.

(** [str.capitalize] and [str.title], which follow the case tables of
    Unicode. *)
Variable capitalize : str -> str.
Variable title : str -> str.

(** [list.sort] on two items or more whose keys are not all strings: it
    compares numbers, and raises on a string and a number. *)
Variable sort_other : list timeline_item -> outcome (list timeline_item).

(** The loop over [day_plan['meals'].items()]: a meal without a time, or
    with a time that is false for Python, is left out. *)
Fixpoint meal_items (meals : list (str * json))
    : outcome (list timeline_item) :=
  match meals with
  | [] => Return []
  | (meal_type, meal) :: rest =>
      match get_method meal (ustr "time") (JStr []) with
      | Return time =>
          if truthy float_is_zero time then
            match getitem meal (JStr (ustr "name")) with
            | Return name =>
                match meal_items rest with
                | Return items =>
                    Return ((time, capitalize meal_type, name, ustr "meal")
                              :: items)
                | Raise e => Raise e
                end
            | Raise e => Raise e
            end
          else meal_items rest
      | Raise e => Raise e
      end
  end.

Definition snack_label (snack_type : str) : str :=
  title (replace (ustr "_") (ustr " ") snack_type).

(** The loop over [day_plan['snacks'].items()]. *)
Fixpoint snack_items (snacks : list (str * json))
    : outcome (list timeline_item) :=
  match snacks with
  | [] => Return []
  | (snack_type, snack) :: rest =>
      match getitem snack (JStr (ustr "name")) with
      | Return name =>
          match snack_items rest with
          | Return items =>
              Return ((JStr (snack_time snack_type), snack_label snack_type,
                       name, ustr "snack") :: items)
          | Raise e => Raise e
          end
      | Raise e => Raise e
      end
  end.

(** [meal_times.sort(key=lambda x: x[0])]: nothing is compared in a list
    of less than two items. *)
Definition sort_by_time (l : list timeline_item)
    : outcome (list timeline_item) :=
  match l with
  | [] | [_] => Return l
  | _ =>
      if forallb string_time l then Return (sort_items l) else sort_other l
  end.

(** [if 'meals' in day_plan: for ... in day_plan['meals'].items(): ...] *)
Definition timed_meals (day_plan : json) : outcome (list timeline_item) :=
  match contains_str (ustr "meals") day_plan with
  | Return true =>
      match getitem day_plan (JStr (ustr "meals")) with
      | Return meals =>
          match items_method meals with
          | Return items => meal_items items
          | Raise e => Raise e
          end
      | Raise e => Raise e
      end
  | Return false => Return []
  | Raise e => Raise e
  end.

(** [if 'snacks' in day_plan and day_plan['snacks']: for ... in
    day_plan['snacks'].items(): ...] *)
Definition timed_snacks (day_plan : json) : outcome (list timeline_item) :=
  match contains_str (ustr "snacks") day_plan with
  | Return true =>
      match getitem day_plan (JStr (ustr "snacks")) with
      | Return snacks =>
          if truthy float_is_zero snacks then
            match getitem day_plan (JStr (ustr "snacks")) with
            | Return snacks =>
                match items_method snacks with
                | Return items => snack_items items
                | Raise e => Raise e
                end
            | Raise e => Raise e
            end
          else Return []
      | Raise e => Raise e
      end
  | Return false => Return []
  | Raise e => Raise e
  end.

(** The list [meal_times] that the timeline shows, item after item. *)
Definition meal_times (day_plan : json) : outcome (list timeline_item) :=
  match timed_meals day_plan with
  | Return meals =>
      match timed_snacks day_plan with
      | Return snacks => sort_by_time (meals ++ snacks)
      | Raise e => Raise e
      end
  | Raise e => Raise e
  end.

End Timeline.

(** A time of day on two digits and two digits, as ["08:00"]. *)
Definition clock_time (s : str) : bool :=
  match s with
  | [h1; h2; c; m1; m2] =>
      (is_digit h1 && is_digit h2 && (c =? 58) && is_digit m1 && (m1 <=? 53)
       && is_digit m2)%N
  | _ => false
  end.

(** The minutes since midnight of such a time. *)
Definition minutes_of (s : str) : N :=
  match s with
  | [h1; h2; _; m1; m2] =>
      (((h1 - 48) * 10 + (h2 - 48)) * 60 + (m1 - 48) * 10 + (m2 - 48))%N
  | _ => 0%N
  end.

Definition item_minutes (x : timeline_item) : N :=
  match item_time x with
  | JStr s => minutes_of s
  | _ => 0%N
  end.

Definition clock_item (x : timeline_item) : Prop :=
  exists s, item_time x = JStr s /\ clock_time s = true.

(** A list of items in the order of the day. *)
Definition chronological (l : list timeline_item) : Prop :=
  StronglySorted (fun x y => (item_minutes x <= item_minutes y)%N) l.

(** A meal as far as the timeline reads it: an object with no [time],
    with an empty [time], or with a [time] that is an [accepted] string
    and a [name]. *)
Definition timed_meal (accepted : str -> bool) (kv : str * json) : Prop :=
  exists d,
    snd kv = JObj d
    /\ match dict_find (ustr "time") d with
       | None => True
       | Some (JStr []) => True
       | Some (JStr t) =>
           accepted t = true
           /\ exists name, dict_find (ustr "name") d = Some name
       | Some _ => False
       end.

(** A snack as far as the timeline reads it: an object with a [name]. *)
Definition named_snack (kv : str * json) : Prop :=
  exists d name, snd kv = JObj d /\ dict_find (ustr "name") d = Some name.

(** What a day holds under a key: the items of an object, or none when
    the day has no such key. *)
Definition entries_of (key : str) (d : list (str * json))
    (entries : list (str * json)) : Prop :=
  dict_find key d = Some (JObj entries)
  \/ (dict_find key d = None /\ entries = []).

(** A day of the plan with its meals and its snacks. *)
Definition scheduled_day (accepted : str -> bool) (day_plan : json)
    (meals snacks : list (str * json)) : Prop :=
  exists d,
    day_plan = JObj d
    /\ entries_of (ustr "meals") d meals
    /\ entries_of (ustr "snacks") d snacks
    /\ Forall (timed_meal accepted) meals
    /\ Forall named_snack snacks.

(** A meal with a time that is a string and not empty. *)
Definition has_time (kv : str * json) : bool :=
  match snd kv with
  | JObj d =>
      match dict_find (ustr "time") d with
      | Some (JStr (_ :: _)) => true
      | _ => false
      end
  | _ => false
  end.

(** The item of the timeline for a meal, and for a snack. *)
Definition meal_on_timeline (capitalize : str -> str)
    (meals : list (str * json)) (x : timeline_item) : Prop :=
  exists meal_type d t name,
    In (meal_type, JObj d) meals
    /\ dict_find (ustr "time") d = Some (JStr t) /\ t <> []
    /\ dict_find (ustr "name") d = Some name
    /\ x = (JStr t, capitalize meal_type, name, ustr "meal").

Definition snack_on_timeline (title : str -> str)
    (snacks : list (str * json)) (x : timeline_item) : Prop :=
  exists snack_type d name,
    In (snack_type, JObj d) snacks
    /\ dict_find (ustr "name") d = Some name
    /\ x = (JStr (snack_time snack_type), snack_label title snack_type,
            name, ustr "snack").

(* ===================================================================== *)
(** ** Examples                                                            *)
(* ===================================================================== *)

(** A form as it is first shown, with two preferences chosen and a plan of
    seven days. *)
Definition sample_form : FormValues :=
  mkForm (ustr "Alex Johnson") 30 (ustr "70.0") (ustr "170.0")
    (ustr "Sedentary (little to no exercise)")
    [ustr "Vegetarian"; ustr "None"] [] (ustr "nuts {or} shellfish")
    (ustr "Weight Loss") (ustr "North America") [ustr "Indian"]
    (ustr "Low") (ustr "3 meals") 7.

Definition sample_timestamp : str := ustr "2024-05-01T10:30:00".

(** The text of a plan, an answer of the model around it, and the plan. *)
Definition sample_plan_text : str :=
  py "{'metadata': {'plan_duration': 7}, 'user_profile': {'daily_calories': 2200}, 'daily_plans': {'day_1': {'meals': {}}, 'day_2': {'snacks': {}}}, 'shopping_list': {'proteins': ['chicken', 'tofu'], 'carbs': ['quinoa']}}".

Definition sample_answer : str :=
  ustr "Here is your plan: " ++ sample_plan_text ++ ustr " Enjoy!".

Definition sample_plan : json :=
  JObj [(ustr "metadata", JObj [(ustr "plan_duration", JInt 7)]);
        (ustr "user_profile", JObj [(ustr "daily_calories", JInt 2200)]);
        (ustr "daily_plans",
         JObj [(ustr "day_1", JObj [(ustr "meals", JObj [])]);
               (ustr "day_2", JObj [(ustr "snacks", JObj [])])]);
        (ustr "shopping_list",
         JObj [(ustr "proteins",
                JArr [JStr (ustr "chicken"); JStr (ustr "tofu")]);
               (ustr "carbs", JArr [JStr (ustr "quinoa")])])].

(** Streamlit in a run where every rendering call returns and no button
    is pressed, and in a run where the button with a given key is. *)
Definition calls_return : ui_call -> outcome unit := fun _ => Return tt.

Definition no_button : str -> str -> bool -> outcome bool :=
  fun _ _ _ => Return false.

Definition button_with_key (pressed_key : str)
    : str -> str -> bool -> outcome bool :=
  fun _ key _ => Return (str_eqb key pressed_key).

(** Stand-ins for [str] on values that are not strings, for the rest of
    [display_plan], for the test of a float against zero and for the
    client. *)
Definition no_text : json -> str := fun _ => [].

Definition nothing_more : json -> json -> json -> action unit :=
  fun _ _ _ => ret tt.

Definition never_zero : str -> bool := fun _ => false.

Definition sample_client : str -> outcome unit := fun _ => Return tt.

Definition answers (content : str) : unit -> str -> outcome str :=
  fun _ _ => Return content.

(** The session after the defaults of [main], and with the sample plan
    stored. *)
Definition fresh_session : session := init_session [].

Definition session_with_plan : session :=
  dict_set (ustr "nutrition_plan") sample_plan fresh_session.

(** A day with three meals, one of them without a time, and two snacks;
    stand-ins for [str.capitalize] and [str.title], and for the sort of
    keys that are not strings. *)
Definition sample_meals : list (str * json) :=
  [(ustr "lunch", JObj [(ustr "name", JStr (ustr "Dal"));
                        (ustr "time", JStr (ustr "12:30"))]);
   (ustr "breakfast", JObj [(ustr "name", JStr (ustr "Oats"));
                            (ustr "time", JStr (ustr "08:00"))]);
   (ustr "dinner", JObj [(ustr "name", JStr (ustr "Soup"))])].

Definition sample_snacks : list (str * json) :=
  [(ustr "evening_snack", JObj [(ustr "name", JStr (ustr "Nuts"));
                                (ustr "time", JStr (ustr "16:00"))]);
   (ustr "morning_snack", JObj [(ustr "name", JStr (ustr "Apple"))])].

Definition sample_day : json :=
  JObj [(ustr "meals", JObj sample_meals);
        (ustr "snacks", JObj sample_snacks)].

Definition same_text : str -> str := fun s => s.

Definition no_other_sort
    : list timeline_item -> outcome (list timeline_item) :=
  fun _ => Raise TypeError.

(* ===================================================================== *)
(** * Properties                                                           *)
(* ===================================================================== *)

(** ** The matcher *)

Lemma prepend_some (a : str) (m : rmatch) :
  prepend a (Some m) = Some (mkMatch (a ++ m_text m) (m_group1 m) (m_rest m)).
Proof.
  unfold prepend. induction a as [|c a IH]; cbn [fold_right app].
  - now destruct m.
  - now rewrite IH.
Qed.

Lemma prepend_none (a : str) : prepend a None = None.
Proof.
  unfold prepend. induction a as [|c a IH]; cbn [fold_right];
    [reflexivity|now rewrite IH].
Qed.

Lemma prepend_app (a b : str) (r : option rmatch) :
  prepend (a ++ b) r = prepend a (prepend b r).
Proof. unfold prepend. now rewrite fold_right_app. Qed.

Lemma firstn_prefix (a b : str) :
  firstn (length (a ++ b) - length b) (a ++ b) = a.
Proof.
  rewrite length_app.
  replace (length a + length b - length b) with (length a + 0) by lia.
  rewrite firstn_app_2. simpl. now rewrite app_nil_r.
Qed.

(** A literal matches exactly its own text. *)
Lemma exec_Lit_app (l t : str) (k : str -> option rmatch) :
  exec (Lit l) (l ++ t) k = prepend l (k t).
Proof.
  induction l as [|c l IH]; simpl; [reflexivity|].
  rewrite N.eqb_refl. now rewrite IH.
Qed.

Lemma consume_some (c : char) (r : option rmatch) (m : rmatch) :
  consume c r = Some m -> exists m', r = Some m'.
Proof. destruct r; simpl; [eauto|discriminate]. Qed.

Lemma exec_Lit_some (l s : str) (k : str -> option rmatch) (m : rmatch) :
  exec (Lit l) s k = Some m -> exists t m', s = l ++ t /\ k t = Some m'.
Proof.
  revert s m. induction l as [|c l IH]; simpl; intros s m H.
  - exists s, m. auto.
  - destruct s as [|x s]; [discriminate|].
    destruct (N.eqb_spec x c) as [->|]; [|discriminate].
    apply consume_some in H. destruct H as [m1 H].
    apply IH in H. destruct H as (t & m' & -> & Hk).
    exists t, m'. auto.
Qed.

(** Greedy repetition stops somewhere after a run of class characters. *)
Lemma star_greedy_some (p : char -> bool) (s : str)
    (k : str -> option rmatch) (m : rmatch) :
  star_greedy p s k = Some m ->
  exists w s' m', s = w ++ s' /\ forallb p w = true /\ k s' = Some m'.
Proof.
  revert m. induction s as [|c s IH]; simpl; intros m H.
  - exists [], [], m. auto.
  - destruct (p c) eqn:Hp.
    + destruct (consume c (star_greedy p s k)) eqn:Hc.
      * apply consume_some in Hc. destruct Hc as [m1 Hc].
        apply IH in Hc. destruct Hc as (w & s' & m' & -> & Hw & Hk).
        exists (c :: w), s', m'. simpl. rewrite Hp, Hw. auto.
      * exists [], (c :: s), m. auto.
    + exists [], (c :: s), m. auto.
Qed.

(** When the continuation accepts right after the whole run, the greedy
    repetition takes the whole run. *)
Lemma star_greedy_run (p : char -> bool) (w x : str)
    (k : str -> option rmatch) (m : rmatch) :
  forallb p w = true -> k x = Some m ->
  match x with c :: _ => p c = false | [] => True end ->
  star_greedy p (w ++ x) k = prepend w (k x).
Proof.
  intros Hw Hk Hx. induction w as [|c w IH]; simpl in *.
  - destruct x as [|c x]; [reflexivity|]. simpl. now rewrite Hx.
  - apply andb_true_iff in Hw. destruct Hw as [Hc Hw].
    rewrite Hc, (IH Hw). fold (prepend w (k x)).
    rewrite Hk, prepend_some. reflexivity.
Qed.

(** *** [json_pattern]: from a [{] to the last [}] *)

Lemma star_any_no_close (t : str) (k : str -> option rmatch) :
  ~ In c_rbrace t -> star_greedy any_char t (after_brace k) = None.
Proof.
  induction t as [|c t IH]; simpl; intros Hn.
  - reflexivity.
  - rewrite IH by tauto. cbn [consume]. unfold after_brace. cbn [exec].
    destruct (N.eqb_spec c c_rbrace) as [->|]; [tauto|reflexivity].
Qed.

Lemma star_any_last_close (body p2 : str) (k : str -> option rmatch)
    (m : rmatch) :
  ~ In c_rbrace p2 -> k p2 = Some m ->
  star_greedy any_char (body ++ c_rbrace :: p2) (after_brace k)
  = prepend (body ++ [c_rbrace]) (k p2).
Proof.
  intros Hn Hk. induction body as [|c body IH]; simpl.
  - rewrite star_any_no_close by assumption. cbn [consume].
    unfold after_brace. cbn [exec]. now rewrite N.eqb_refl.
  - rewrite IH. rewrite Hk, prepend_some. reflexivity.
Qed.

Lemma re_match_json_unfold (s : str) :
  re_match json_pattern s =
  match s with
  | c :: t =>
      if N.eqb c c_lbrace
      then consume c (star_greedy any_char t (after_brace (json_group s)))
      else None
  | [] => None
  end.
Proof. destruct s; reflexivity. Qed.

Lemma re_match_json_pattern (body p2 : str) :
  ~ In c_rbrace p2 ->
  re_match json_pattern (c_lbrace :: body ++ c_rbrace :: p2)
  = Some (mkMatch (c_lbrace :: body ++ [c_rbrace])
                  (Some (c_lbrace :: body ++ [c_rbrace])) p2).
Proof.
  intros Hn. rewrite re_match_json_unfold, N.eqb_refl.
  assert (Hg : json_group (c_lbrace :: body ++ c_rbrace :: p2) p2
               = Some (mkMatch [] (Some (c_lbrace :: body ++ [c_rbrace])) p2)).
  { unfold json_group.
    replace (c_lbrace :: body ++ c_rbrace :: p2)
      with ((c_lbrace :: body ++ [c_rbrace]) ++ p2)
      by (simpl; now rewrite <- app_assoc).
    now rewrite firstn_prefix. }
  rewrite (star_any_last_close body p2 _ _ Hn Hg), Hg, prepend_some.
  simpl. now rewrite app_nil_r.
Qed.

Lemma re_match_json_pattern_head (s : str) :
  match s with c :: _ => c <> c_lbrace | [] => True end ->
  re_match json_pattern s = None.
Proof.
  rewrite re_match_json_unfold. destruct s as [|c s]; intros H.
  - reflexivity.
  - destruct (N.eqb_spec c c_lbrace); [contradiction|reflexivity].
Qed.

Lemma re_match_json_pattern_open (t : str) :
  ~ In c_rbrace t -> re_match json_pattern (c_lbrace :: t) = None.
Proof.
  intros Hn. rewrite re_match_json_unfold, N.eqb_refl.
  now rewrite star_any_no_close.
Qed.

Lemma re_search_cons (r : regex) (c : char) (s : str) :
  re_search r (c :: s) =
  match re_match r (c :: s) with
  | Some m => Some m
  | None => re_search r s
  end.
Proof. reflexivity. Qed.

(** [re.search] finds the text from the first [{] to the last [}]. *)
Lemma re_search_json_pattern (p1 body p2 : str) :
  ~ In c_lbrace p1 -> ~ In c_rbrace p2 ->
  re_search json_pattern (p1 ++ c_lbrace :: body ++ c_rbrace :: p2)
  = Some (mkMatch (c_lbrace :: body ++ [c_rbrace])
                  (Some (c_lbrace :: body ++ [c_rbrace])) p2).
Proof.
  intros H1 H2. induction p1 as [|c p1 IH].
  - cbn [app]. now rewrite re_search_cons, re_match_json_pattern.
  - cbn [app]. rewrite re_search_cons.
    rewrite re_match_json_pattern_head by (simpl in H1; intros ->; tauto).
    apply IH. simpl in H1. tauto.
Qed.

Lemma re_search_json_pattern_none (s : str) :
  ~ brace_pair s -> re_search json_pattern s = None.
Proof.
  induction s as [|c s IH]; intros Hn.
  - reflexivity.
  - rewrite re_search_cons.
    assert (Hm : re_match json_pattern (c :: s) = None).
    { destruct (N.eq_dec c c_lbrace) as [->|Hc].
      - apply re_match_json_pattern_open. intros Hin.
        apply in_split in Hin. destruct Hin as (b & c' & ->).
        apply Hn. now exists [], b, c'.
      - now apply re_match_json_pattern_head. }
    rewrite Hm. apply IH. intros (a & b & c' & ->).
    apply Hn. now exists (c :: a), b, c'.
Qed.

Lemma no_lbrace_no_pair (s : str) : ~ In c_lbrace s -> ~ brace_pair s.
Proof.
  intros Hn (a & b & c & ->). apply Hn.
  apply in_or_app. right. now left.
Qed.

Lemma exec_Seq (a b : regex) (s : str) (k : str -> option rmatch) :
  exec (Seq a b) s k = exec a s (fun s' => exec b s' k).
Proof. reflexivity. Qed.

Lemma exec_Alt (a b : regex) (s : str) (k : str -> option rmatch) :
  exec (Alt a b) s k =
  match exec a s k with Some m => Some m | None => exec b s k end.
Proof. reflexivity. Qed.

Lemma exec_Star (p : char -> bool) (s : str) (k : str -> option rmatch) :
  exec (Star p) s k = star_greedy p s k.
Proof. reflexivity. Qed.

(** *** [re.sub] where nothing matches *)

Lemma re_sub_from_no_match (n : nat) (r : regex) (repl : list repl_item)
    (s : str) :
  (forall a b, s = a ++ b -> re_match r b = None) ->
  re_sub_from n r repl s = s.
Proof.
  revert s. induction n as [|n IH]; intros s H; [reflexivity|].
  cbn [re_sub_from]. rewrite (H [] s eq_refl).
  destruct s as [|c s]; [reflexivity|].
  f_equal. apply IH. intros a b ->. now apply (H (c :: a) b).
Qed.

(** *** [fence_pattern] *)

Lemma re_match_fence_some (s : str) (m : rmatch) :
  re_match fence_pattern s = Some m -> has_fence s.
Proof.
  unfold re_match, fence_pattern. rewrite exec_Alt.
  destruct (exec (Seq (Lit fence) _) s _) eqn:HA.
  - intros _. rewrite exec_Seq in HA. apply exec_Lit_some in HA.
    destruct HA as (t & _ & -> & _). now exists [], t.
  - rewrite exec_Seq, exec_Star. intros HB.
    apply star_greedy_some in HB. destruct HB as (w & s' & m' & -> & _ & HB).
    apply exec_Lit_some in HB. destruct HB as (t & _ & -> & _).
    now exists w, t.
Qed.

Lemma has_fence_suffix (a b : str) : has_fence b -> has_fence (a ++ b).
Proof.
  intros (x & y & ->). exists (a ++ x), y. now rewrite app_assoc.
Qed.

Lemma re_sub_fence_none (s : str) :
  ~ has_fence s -> re_sub fence_pattern [] s = s.
Proof.
  intros Hn. apply re_sub_from_no_match. intros a b -> .
  destruct (re_match fence_pattern b) eqn:Hm; [|reflexivity].
  exfalso. apply Hn, has_fence_suffix. eapply re_match_fence_some; eauto.
Qed.

(** *** [comma_pattern] *)

Lemma re_match_comma_unfold (s : str) :
  re_match comma_pattern s =
  match s with
  | x :: t =>
      if N.eqb x c_comma
      then consume x (star_greedy is_space t
                        (fun s2 => exec (Cls is_closer) s2 (comma_group t)))
      else None
  | [] => None
  end.
Proof. destruct s; reflexivity. Qed.

Lemma re_match_comma_some (s : str) (m : rmatch) :
  re_match comma_pattern s = Some m -> trailing_comma_at s.
Proof.
  rewrite re_match_comma_unfold. destruct s as [|x t]; [discriminate|].
  destruct (N.eqb_spec x c_comma) as [->|]; [|discriminate].
  intros H. apply consume_some in H. destruct H as [m1 H].
  apply star_greedy_some in H. destruct H as (w & s' & m' & -> & Hw & H).
  cbn [exec] in H. destruct s' as [|c r]; [discriminate|].
  destruct (is_closer c) eqn:Hc; [|discriminate].
  now exists w, c, r.
Qed.

Lemma closer_not_space (c : char) : is_closer c = true -> is_space c = false.
Proof.
  unfold is_closer. intros H. apply orb_true_iff in H.
  destruct H as [H|H]; apply N.eqb_eq in H; subst; reflexivity.
Qed.

Lemma re_match_comma (w : str) (c : char) (r : str) :
  forallb is_space w = true -> is_closer c = true ->
  re_match comma_pattern (c_comma :: w ++ c :: r)
  = Some (mkMatch (c_comma :: w ++ [c]) (Some (w ++ [c])) r).
Proof.
  intros Hw Hc. rewrite re_match_comma_unfold, N.eqb_refl.
  assert (Hk : exec (Cls is_closer) (c :: r) (comma_group (w ++ c :: r))
               = Some (mkMatch [c] (Some (w ++ [c])) r)).
  { cbn [exec]. rewrite Hc. unfold comma_group.
    replace (w ++ c :: r) with ((w ++ [c]) ++ r)
      by now rewrite <- app_assoc.
    now rewrite firstn_prefix. }
  rewrite (star_greedy_run is_space w (c :: r) _ _ Hw Hk
             (closer_not_space c Hc)).
  rewrite Hk, prepend_some. reflexivity.
Qed.

Lemma has_trailing_comma_suffix (a b : str) :
  has_trailing_comma b -> has_trailing_comma (a ++ b).
Proof.
  intros (x & y & -> & H). exists (a ++ x), y. now rewrite app_assoc.
Qed.

Lemma re_sub_from_comma_none (n : nat) (s : str) :
  ~ has_trailing_comma s -> re_sub_from n comma_pattern [RGroup1] s = s.
Proof.
  intros Hn. apply re_sub_from_no_match. intros a b ->.
  destruct (re_match comma_pattern b) eqn:Hm; [|reflexivity].
  exfalso. apply Hn. exists a, b. split; [reflexivity|].
  eapply re_match_comma_some; eauto.
Qed.

Lemma re_sub_comma_none (s : str) :
  ~ has_trailing_comma s -> re_sub comma_pattern [RGroup1] s = s.
Proof. apply re_sub_from_comma_none. Qed.

(** Two ways to cut the same text line up. *)
Lemma app_cons_align (t1 : str) (y : char) (rest w : str) (c : char)
    (r : str) :
  t1 ++ y :: rest = w ++ c :: r ->
  (exists t, t1 = w ++ c :: t /\ r = t ++ y :: rest)
  \/ (t1 = w /\ y = c /\ rest = r)
  \/ (exists w', w = t1 ++ y :: w' /\ rest = w' ++ c :: r).
Proof.
  revert w. induction t1 as [|x t1 IH]; intros w H.
  - destruct w as [|z w]; simpl in H; inversion H; subst.
    + right. left. auto.
    + right. right. now exists w.
  - destruct w as [|z w]; simpl in H; inversion H as [[Hx Ht]]; subst.
    + left. now exists t1.
    + apply IH in Ht.
      destruct Ht as [(t & -> & ->)|[(-> & -> & ->)|(w' & -> & ->)]].
      * left. now exists t.
      * right. left. auto.
      * right. right. now exists w'.
Qed.

(** One trailing comma in an otherwise clean text is removed, and nothing
    else changes. *)
Lemma re_sub_from_comma_repair (n : nat) (t1 w : str) (c : char) (t2 : str) :
  length (t1 ++ c_comma :: w ++ c :: t2) < n ->
  forallb is_space w = true -> is_closer c = true ->
  ~ has_trailing_comma (t1 ++ w ++ c :: t2) ->
  re_sub_from n comma_pattern [RGroup1] (t1 ++ c_comma :: w ++ c :: t2)
  = t1 ++ w ++ c :: t2.
Proof.
  intros Hlen Hw Hc. revert n Hlen.
  induction t1 as [|x t1 IH]; intros n Hlen Hclean.
  - destruct n as [|n]; [simpl in Hlen; lia|].
    cbn [app re_sub_from]. rewrite (re_match_comma w c t2 Hw Hc).
    cbn [m_text m_rest expand flat_map expand_item m_group1].
    rewrite re_sub_from_comma_none.
    + now rewrite app_nil_r, <- app_assoc.
    + intros H. apply Hclean. cbn [app].
      replace (w ++ c :: t2) with ((w ++ [c]) ++ t2)
        by now rewrite <- app_assoc.
      now apply has_trailing_comma_suffix.
  - destruct n as [|n]; [simpl in Hlen; lia|].
    cbn [app re_sub_from].
    assert (Hm : re_match comma_pattern
                   (x :: t1 ++ c_comma :: w ++ c :: t2) = None).
    { destruct (re_match comma_pattern _) as [m0|] eqn:Hm; [|reflexivity].
      exfalso. apply re_match_comma_some in Hm.
      destruct Hm as (w' & c' & r & Heq & Hw' & Hc').
      injection Heq as -> Heq.
      apply app_cons_align in Heq.
      destruct Heq as [(t & Ht1 & _)|[(_ & Hy & _)|(w'' & Hw'' & _)]].
      - subst t1. apply Hclean.
        exists [], (c_comma :: (w' ++ c' :: t) ++ w ++ c :: t2).
        split; [reflexivity|].
        exists w', c', (t ++ w ++ c :: t2). rewrite <- app_assoc. auto.
      - subst c'. discriminate Hc'.
      - subst w'. rewrite forallb_app in Hw'. apply andb_true_iff in Hw'.
        destruct Hw' as [_ Hw']. discriminate Hw'. }
    rewrite Hm. f_equal. apply IH.
    + simpl in Hlen. lia.
    + intros H. apply Hclean. now apply (has_trailing_comma_suffix [x]).
Qed.

(** *** [strip] *)

Lemma lstrip_spaces (w s : str) :
  forallb is_space w = true -> lstrip (w ++ s) = lstrip s.
Proof.
  induction w as [|c w IH]; simpl; intros H; [reflexivity|].
  apply andb_true_iff in H. destruct H as [Hc Hw]. rewrite Hc. auto.
Qed.

Lemma lstrip_head (c : char) (s : str) :
  is_space c = false -> lstrip (c :: s) = c :: s.
Proof. intros H. simpl. now rewrite H. Qed.

Lemma forallb_rev (p : char -> bool) (w : str) :
  forallb p (rev w) = forallb p w.
Proof.
  induction w as [|c w IH]; simpl; [reflexivity|].
  rewrite forallb_app, IH. simpl. rewrite andb_true_r. apply andb_comm.
Qed.

Lemma strip_core (w1 core w2 : str) :
  forallb is_space w1 = true -> forallb is_space w2 = true ->
  head_not_space core -> last_not_space core ->
  strip (w1 ++ core ++ w2) = core.
Proof.
  intros H1 H2 Ha Hz. unfold strip, rstrip.
  rewrite (lstrip_spaces w1 _ H1).
  destruct core as [|a mid]; [contradiction|].
  cbn [app]. rewrite lstrip_head by exact Ha.
  change (a :: mid ++ w2) with ((a :: mid) ++ w2).
  rewrite rev_app_distr.
  rewrite lstrip_spaces by now rewrite forallb_rev.
  unfold last_not_space in Hz.
  destruct (rev (a :: mid)) as [|z t] eqn:E; [contradiction|].
  rewrite lstrip_head by exact Hz.
  rewrite <- E. apply rev_involutive.
Qed.

Lemma strip_id (core : str) :
  head_not_space core -> last_not_space core -> strip core = core.
Proof.
  intros Ha Hz. rewrite <- (strip_core [] core []) at 2; auto.
  now rewrite app_nil_r.
Qed.

(** ** Decidable forms of the side conditions *)

Lemma starts_with_app (p t : str) : starts_with p (p ++ t) = true.
Proof.
  induction p as [|c p IH]; simpl; [reflexivity|].
  now rewrite N.eqb_refl.
Qed.

Lemma contains_app (p a b : str) : contains p (a ++ p ++ b) = true.
Proof.
  induction a as [|c a IH]; cbn [app].
  - destruct (p ++ b) eqn:E; cbn [contains]; rewrite <- E;
      now rewrite starts_with_app.
  - cbn [contains]. rewrite IH. apply orb_true_r.
Qed.

Lemma no_fence (s : str) : contains fence s = false -> ~ has_fence s.
Proof.
  intros H (a & b & ->). now rewrite contains_app in H.
Qed.

Lemma trailing_comma_here_at (s : str) :
  trailing_comma_at s -> trailing_comma_here s = true.
Proof.
  intros (w & c & r & -> & Hw & Hc). cbn [trailing_comma_here].
  rewrite N.eqb_refl, (lstrip_spaces w _ Hw).
  rewrite lstrip_head by now apply closer_not_space.
  now rewrite Hc.
Qed.

Lemma no_trailing_comma (s : str) :
  trailing_comma s = false -> ~ has_trailing_comma s.
Proof.
  intros H (a & b & -> & Hb). apply trailing_comma_here_at in Hb.
  induction a as [|c a IH]; cbn [app] in H.
  - destruct b; cbn [trailing_comma] in H; rewrite Hb in H; discriminate.
  - cbn [trailing_comma] in H. apply orb_false_iff in H. tauto.
Qed.

Lemma braced_head (s : str) : braced s -> head_not_space s.
Proof. intros (body & ->). reflexivity. Qed.

Lemma braced_last (s : str) : braced s -> last_not_space s.
Proof.
  intros (body & ->). unfold last_not_space.
  cbn [rev]. rewrite rev_app_distr. reflexivity.
Qed.

(** ** The candidate text *)

(** Around a braced, clean text, the three steps leave exactly that text. *)
Lemma candidate_json_core (p1 core p2 : str) :
  braced core -> ~ In c_lbrace p1 -> ~ In c_rbrace p2 ->
  ~ has_fence core -> ~ has_trailing_comma core ->
  candidate_json (p1 ++ core ++ p2) = core.
Proof.
  intros Hb H1 H2 Hf Hc. pose proof Hb as (body & ->).
  unfold candidate_json.
  replace ((c_lbrace :: body ++ [c_rbrace]) ++ p2)
    with (c_lbrace :: body ++ c_rbrace :: p2)
    by (simpl; now rewrite <- app_assoc).
  rewrite (re_search_json_pattern p1 body p2 H1 H2).
  cbn [m_group1 opt_text].
  rewrite re_sub_fence_none by assumption.
  rewrite strip_id by first [now apply braced_head | now apply braced_last].
  now apply re_sub_comma_none.
Qed.

(** With one trailing comma in the braced text, the candidate is the text
    without that comma. *)
Lemma candidate_json_repair (p1 t1 w : str) (c : char) (t2 p2 : str) :
  braced (t1 ++ c_comma :: w ++ c :: t2) ->
  ~ In c_lbrace p1 -> ~ In c_rbrace p2 ->
  forallb is_space w = true -> is_closer c = true ->
  ~ has_fence (t1 ++ c_comma :: w ++ c :: t2) ->
  ~ has_trailing_comma (t1 ++ w ++ c :: t2) ->
  candidate_json (p1 ++ (t1 ++ c_comma :: w ++ c :: t2) ++ p2)
  = t1 ++ w ++ c :: t2.
Proof.
  intros Hb H1 H2 Hw Hc Hf Hclean. pose proof Hb as (body & Hbody).
  unfold candidate_json. rewrite Hbody.
  replace ((c_lbrace :: body ++ [c_rbrace]) ++ p2)
    with (c_lbrace :: body ++ c_rbrace :: p2)
    by (simpl; now rewrite <- app_assoc).
  rewrite (re_search_json_pattern p1 body p2 H1 H2).
  cbn [m_group1 opt_text]. rewrite <- Hbody.
  rewrite re_sub_fence_none by assumption.
  rewrite strip_id by first [now apply braced_head | now apply braced_last].
  apply re_sub_from_comma_repair; auto.
Qed.

(** Without a [{] that is followed by a [}], the candidate is the whole
    text, cleaned. *)
Lemma candidate_json_whole (raw : str) :
  ~ brace_pair raw ->
  candidate_json raw
  = re_sub comma_pattern [RGroup1] (strip (re_sub fence_pattern [] raw)).
Proof.
  intros H. unfold candidate_json.
  now rewrite re_search_json_pattern_none.
Qed.

(** ** What the caller sees *)

Lemma extract_with_return (st : streamlit) (loads : str -> outcome json)
    (raw : str) (v : json) (ui : page) :
  loads (candidate_json raw) = Return v ->
  extract_with st loads raw ui = (Return (Some v), ui).
Proof. intros H. unfold extract_with. now rewrite H. Qed.



(* ===================================================================== *)
(** ** The decoder reads a prefix                                          *)
(* ===================================================================== *)

(** A successful scan consumes a prefix [pre] of its input and returns the
    rest; the same prefix in front of any other rest scans to the same
    value. *)

Lemma skip_ws_split (s : str) :
  exists w, s = w ++ skip_ws s /\ forallb is_json_ws w = true.
Proof.
  induction s as [|c s (w & Hs & Hw)]; [now exists []|].
  simpl. destruct (is_json_ws c) eqn:Hc.
  - exists (c :: w). simpl. rewrite Hc, Hw. now rewrite <- Hs.
  - now exists [].
Qed.

Lemma skip_ws_head (s : str) (c : char) (t : str) :
  skip_ws s = c :: t -> is_json_ws c = false.
Proof.
  induction s as [|x s IH]; simpl; [discriminate|].
  destruct (is_json_ws x) eqn:Hx; [exact IH|].
  now intros [= <- _].
Qed.

Lemma skip_ws_spaces (w s : str) :
  forallb is_json_ws w = true -> skip_ws (w ++ s) = skip_ws s.
Proof.
  induction w as [|c w IH]; simpl; intros H; [reflexivity|].
  apply andb_true_iff in H. destruct H as [Hc Hw]. rewrite Hc. auto.
Qed.

Lemma skip_ws_id (c : char) (s : str) :
  is_json_ws c = false -> skip_ws (c :: s) = c :: s.
Proof. intros H. simpl. now rewrite H. Qed.

Lemma json_ws_is_space (c : char) : is_json_ws c = true -> is_space c = true.
Proof.
  unfold is_json_ws. intros H.
  repeat (apply orb_true_iff in H; destruct H as [H|H]);
    apply N.eqb_eq in H; subst; reflexivity.
Qed.

Lemma json_ws_are_spaces (w : str) :
  forallb is_json_ws w = true -> forallb is_space w = true.
Proof.
  induction w as [|c w IH]; simpl; intros H; [reflexivity|].
  apply andb_true_iff in H. destruct H as [Hc Hw].
  now rewrite (json_ws_is_space c Hc), IH.
Qed.

(** *** Strings *)

Lemma hex_val_not_quote (c : char) (x : N) :
  hex_val c = Some x -> c <> c_quote.
Proof. intros H ->. discriminate H. Qed.

Lemma decode_uXXXX_no_quote (a b c d : char) (u : N) :
  decode_uXXXX a b c d = Some u -> ~ In c_quote [a; b; c; d].
Proof.
  unfold decode_uXXXX.
  destruct (hex_val a) eqn:Ha; [|discriminate].
  destruct (hex_val b) eqn:Hb; [|discriminate].
  destruct (hex_val c) eqn:Hc; [|discriminate].
  destruct (hex_val d) eqn:Hd; [|discriminate].
  intros _ [H|[H|[H|[H|[]]]]]; subst;
    match goal with
    | E : hex_val c_quote = Some _ |- _ => discriminate E
    end.
Qed.

(** A text without the quote character, found at the head of a scanned
    string, lies inside the consumed part. *)
Lemma prefix_in_consumed (pre r p t : str) :
  (pre ++ [c_quote]) ++ r = p ++ t -> ~ In c_quote p ->
  exists pre', pre = p ++ pre'.
Proof.
  revert pre. induction p as [|x p IH]; intros pre H Hn.
  - now exists pre.
  - destruct pre as [|y pre]; simpl in H; inversion H; subst.
    + exfalso. apply Hn. now left.
    + destruct (IH pre) as [pre' ->]; auto.
      * intros Hin. apply Hn. now right.
      * now exists pre'.
Qed.

Lemma push_some (c : char) (o : option (str * str)) (x r : str) :
  push c o = Some (x, r) -> exists x', o = Some (x', r) /\ x = c :: x'.
Proof.
  destruct o as [[x' r']|]; simpl; [|discriminate].
  intros [= <- <-]. eauto.
Qed.

Ltac string_step IH H p :=
  apply push_some in H; destruct H as (?x & H & ->);
  apply IH in H; [|simpl in *; lia];
  destruct H as (?pre & -> & ?Hst);
  exists (p ++ pre); split; [reflexivity|].

(** One round of the scanning loop. *)
Lemma scanstring_cons (c : char) (t : str) :
  scanstring (c :: t) =
  if N.eqb c c_quote then Some ([], t)
  else if N.eqb c c_backslash then
    match t with
    | [] => None
    | esc :: t1 =>
        if N.eqb esc (ch "u") then
          match t1 with
          | h1 :: h2 :: h3 :: h4 :: t2 =>
              match decode_uXXXX h1 h2 h3 h4 with
              | None => None
              | Some uni =>
                  if is_high_surrogate uni then
                    match t2 with
                    | b :: u :: t3 =>
                        if (N.eqb b c_backslash && N.eqb u (ch "u"))%bool
                        then
                          match t3 with
                          | g1 :: g2 :: g3 :: g4 :: t4 =>
                              match decode_uXXXX g1 g2 g3 g4 with
                              | None => None
                              | Some uni2 =>
                                  if is_low_surrogate uni2
                                  then push (join_surrogates uni uni2)
                                            (scanstring t4)
                                  else push uni (scanstring t2)
                              end
                          | _ => None
                          end
                        else push uni (scanstring t2)
                    | _ => push uni (scanstring t2)
                    end
                  else push uni (scanstring t2)
              end
          | _ => None
          end
        else
          match backslash_table esc with
          | Some x => push x (scanstring t1)
          | None => None
          end
    end
  else if (c <=? 31)%N then None
  else push c (scanstring t).
Proof. reflexivity. Qed.

Ltac scan_round := cbn [app]; rewrite scanstring_cons; cbn beta iota.

Lemma scanstring_stable_bounded (n : nat) :
  forall s x r, length s < n -> scanstring s = Some (x, r) ->
                string_stable s x r.
Proof.
  induction n as [|n IH]; intros s x r Hlen H; [lia|].
  destruct s as [|c t]; [discriminate|]. rewrite scanstring_cons in H.
  destruct (N.eqb c c_quote) eqn:Hq.
  { apply N.eqb_eq in Hq. subst c. injection H as <- <-.
    exists []. split; [reflexivity|]. intros r'. reflexivity. }
  destruct (N.eqb c c_backslash) eqn:Hb.
  2:{ destruct (c <=? 31)%N eqn:Hctl; [discriminate|].
      string_step IH H [c]. intros r'. scan_round.
      now rewrite Hq, Hb, Hctl, Hst. }
  destruct t as [|esc t1]; [discriminate|].
  destruct (N.eqb esc (ch "u")) eqn:Hu.
  2:{ destruct (backslash_table esc) as [y|] eqn:Hesc; [|discriminate].
      string_step IH H [c; esc]. intros r'. scan_round.
      now rewrite Hq, Hb, Hu, Hesc, Hst. }
  destruct t1 as [|h1 [|h2 [|h3 [|h4 t2]]]]; try discriminate.
  destruct (decode_uXXXX h1 h2 h3 h4) as [uni|] eqn:Hd; [|discriminate].
  destruct (is_high_surrogate uni) eqn:Hhi.
  2:{ string_step IH H [c; esc; h1; h2; h3; h4]. intros r'.
      scan_round. now rewrite Hq, Hb, Hu, Hd, Hhi, Hst. }
  destruct t2 as [|b [|u t3]].
  { apply push_some in H. destruct H as (? & H & _). discriminate H. }
  { (* a single character follows: it is the closing quote *)
    apply push_some in H. destruct H as (x' & H & ->).
    apply IH in H; [|simpl in *; lia]. destruct H as (pre & Hs & Hst).
    destruct pre as [|? [|? ?]]; simpl in Hs; inversion Hs; subst.
    exists [c; esc; h1; h2; h3; h4]. split; [reflexivity|]. intros r'.
    scan_round. rewrite Hq, Hb, Hu, Hd, Hhi.
    specialize (Hst r'). cbn [app] in Hst.
    destruct r' as [|? ?]; [now rewrite Hst|].
    change (N.eqb c_quote c_backslash) with false. cbn [andb].
    now rewrite Hst. }
  destruct (N.eqb b c_backslash && N.eqb u (ch "u"))%bool eqn:Hbu.
  2:{ apply push_some in H. destruct H as (x' & H & ->).
      apply IH in H; [|simpl in *; lia]. destruct H as (pre & Hs & Hst).
      exists ([c; esc; h1; h2; h3; h4] ++ pre).
      split; [cbn [app]; now rewrite Hs|]. intros r'.
      scan_round. rewrite Hq, Hb, Hu, Hd, Hhi.
      specialize (Hst r').
      destruct pre as [|b' [|u' pre]]; simpl in Hs; inversion Hs; subst.
      - cbn [app] in *. destruct r' as [|? ?]; [now rewrite Hst|].
        change (N.eqb c_quote c_backslash) with false. cbn [andb].
        now rewrite Hst.
      - cbn [app] in *. rewrite Hbu. now rewrite Hst.
      - cbn [app] in *. rewrite Hbu. now rewrite Hst. }
  destruct t3 as [|g1 [|g2 [|g3 [|g4 t4]]]]; try discriminate.
  destruct (decode_uXXXX g1 g2 g3 g4) as [uni2|] eqn:Hd2; [|discriminate].
  destruct (is_low_surrogate uni2) eqn:Hlo.
  { string_step IH H [c; esc; h1; h2; h3; h4; b; u; g1; g2; g3; g4].
    intros r'. scan_round.
    now rewrite Hq, Hb, Hu, Hd, Hhi, Hbu, Hd2, Hlo, Hst. }
  (* a second escape that is no low surrogate is scanned on its own *)
  apply push_some in H. destruct H as (x' & H & ->).
  apply IH in H; [|simpl in *; lia]. destruct H as (pre & Hs & Hst).
  apply andb_true_iff in Hbu. destruct Hbu as [Hb1 Hu1].
  apply N.eqb_eq in Hb1, Hu1. subst b u.
  destruct (prefix_in_consumed pre r
              [c_backslash; ch "u"; g1; g2; g3; g4] t4) as [pre' ->].
  { now rewrite <- Hs. }
  { pose proof (decode_uXXXX_no_quote _ _ _ _ _ Hd2) as Hnq.
    simpl in *. intros [Hx|[Hx|Hx]]; try discriminate. tauto. }
  exists ([c; esc; h1; h2; h3; h4]
            ++ [c_backslash; ch "u"; g1; g2; g3; g4] ++ pre').
  split; [cbn [app] in *; now rewrite Hs|]. intros r'.
  specialize (Hst r'). scan_round.
  rewrite Hq, Hb, Hu, Hd, Hhi.
  change (N.eqb c_backslash c_backslash && N.eqb (ch "u") (ch "u"))%bool
    with true.
  cbn iota. rewrite Hd2, Hlo. cbn [app] in Hst. now rewrite Hst.
Qed.

Lemma scanstring_stable (s x r : str) :
  scanstring s = Some (x, r) -> string_stable s x r.
Proof. apply (scanstring_stable_bounded (S (length s))). lia. Qed.

(** *** Numbers *)

Lemma sep_inv (c : char) (r : str) :
  sep (c :: r) ->
  is_digit c = false /\ N.eqb c (ch ".") = false
  /\ N.eqb c (ch "e") = false /\ N.eqb c (ch "E") = false.
Proof.
  unfold sep, numcont. intros H.
  repeat (apply orb_false_iff in H; destruct H as [H ?]). auto.
Qed.

Lemma digits_split (s ds r : str) :
  digits s = (ds, r) -> s = ds ++ r /\ forallb is_digit ds = true.
Proof.
  revert ds r. induction s as [|c s IH]; simpl; intros ds r H.
  - injection H as <- <-. auto.
  - destruct (is_digit c) eqn:Hc.
    + destruct (digits s) as [ds' r'] eqn:Hd. injection H as <- <-.
      destruct (IH _ _ eq_refl) as [-> Hds]. simpl. now rewrite Hc.
    + injection H as <- <-. auto.
Qed.

Lemma digits_app (ds r' : str) :
  forallb is_digit ds = true ->
  match r' with c :: _ => is_digit c = false | [] => True end ->
  digits (ds ++ r') = (ds, r').
Proof.
  intros Hds Hr. induction ds as [|c ds IH]; simpl in *.
  - destruct r' as [|c r']; [reflexivity|]. simpl. now rewrite Hr.
  - apply andb_true_iff in Hds. destruct Hds as [Hc Hds].
    now rewrite Hc, IH.
Qed.

Lemma ends_digit_nonempty (d : char) (ds : str) :
  forallb is_digit (d :: ds) = true -> ends_digit (d :: ds).
Proof.
  intros H. destruct (exists_last (l := d :: ds)) as (l0 & z & E);
    [discriminate|].
  exists l0, z. split; [exact E|]. rewrite E, forallb_app in H.
  apply andb_true_iff in H. destruct H as [_ H]. simpl in H.
  now rewrite andb_true_r in H.
Qed.

Lemma ends_digit_app (a b : str) : ends_digit b -> ends_digit (a ++ b).
Proof.
  intros (l0 & z & -> & Hz). exists (a ++ l0), z.
  now rewrite app_assoc.
Qed.

Lemma digit_not_space (z : char) : is_digit z = true -> is_space z = false.
Proof.
  unfold is_digit. intros H. apply andb_true_iff in H. destruct H as [H1 H2].
  apply N.leb_le in H1, H2.
  assert (Hz : (z = 48 \/ z = 49 \/ z = 50 \/ z = 51 \/ z = 52 \/ z = 53
                \/ z = 54 \/ z = 55 \/ z = 56 \/ z = 57)%N) by lia.
  repeat (destruct Hz as [->|Hz]; [reflexivity|]). now subst.
Qed.

Lemma match_integer_stable (s i r : str) :
  match_integer s = Some (i, r) -> s = i ++ r /\ int_stable i r.
Proof.
  unfold int_stable, match_integer. destruct s as [|c t]; [discriminate|].
  destruct (N.eqb c (ch "-")) eqn:Hm.
  - destruct t as [|d t]; [discriminate|].
    destruct (N.eqb d (ch "0")) eqn:H0.
    + intros [= <- <-]. split; [reflexivity|]. split.
      * exists [c], d. split; [reflexivity|].
        apply N.eqb_eq in H0. now subst.
      * intros r' _. cbn [app]; cbn beta iota. now rewrite Hm, H0.
    + destruct (is_digit d) eqn:Hd; [|discriminate].
      destruct (digits t) as [ds r0] eqn:Hds. intros [= <- <-].
      apply digits_split in Hds. destruct Hds as [-> Hds].
      split; [reflexivity|]. split.
      * apply (ends_digit_app [c]), ends_digit_nonempty.
        simpl. now rewrite Hd.
      * intros r' Hr. cbn [app]; cbn beta iota. rewrite Hm, H0, Hd.
        now rewrite digits_app.
  - destruct (N.eqb c (ch "0")) eqn:H0.
    + intros [= <- <-]. split; [reflexivity|]. split.
      * exists [], c. split; [reflexivity|].
        apply N.eqb_eq in H0. now subst.
      * intros r' _. cbn [app]; cbn beta iota. now rewrite Hm, H0.
    + destruct (is_digit c) eqn:Hd; [|discriminate].
      destruct (digits t) as [ds r0] eqn:Hds. intros [= <- <-].
      apply digits_split in Hds. destruct Hds as [-> Hds].
      split; [reflexivity|]. split.
      * apply ends_digit_nonempty. simpl. now rewrite Hd.
      * intros r' Hr. cbn [app]; cbn beta iota. rewrite Hm, H0, Hd.
        now rewrite digits_app.
Qed.

Lemma match_frac_none (s : str) :
  match s with c :: _ => N.eqb c (ch ".") = false | [] => True end ->
  match_frac s = (None, s).
Proof. destruct s as [|c s]; simpl; [reflexivity|]. now intros ->. Qed.

Lemma match_frac_stable (s : str) (f : option str) (r : str) :
  match_frac s = (f, r) ->
  (f = None /\ r = s)
  \/ (exists ft, f = Some ft /\ s = ft ++ r /\ ends_digit ft
        /\ N.eqb (hd 0%N ft) (ch ".") = true
        /\ forall r',
             match r' with c :: _ => is_digit c = false | [] => True end ->
             match_frac (ft ++ r') = (Some ft, r')).
Proof.
  unfold match_frac. destruct s as [|c t]; [intros [= <- <-]; auto|].
  destruct (N.eqb c (ch ".")) eqn:Hc; [|intros [= <- <-]; auto].
  destruct (digits t) as [[|d ds] r0] eqn:Hds; intros [= <- <-]; [auto|].
  apply digits_split in Hds. destruct Hds as [-> Hds].
  right. exists (c :: d :: ds). repeat split; auto.
  - apply (ends_digit_app [c]), ends_digit_nonempty. exact Hds.
  - intros r' Hr. cbn [app]; cbn beta iota. rewrite Hc.
    change (d :: ds ++ r') with ((d :: ds) ++ r').
    now rewrite digits_app.
Qed.

Lemma match_exp_none (s : str) :
  match s with
  | c :: _ => (N.eqb c (ch "e") || N.eqb c (ch "E"))%bool = false
  | [] => True
  end ->
  match_exp s = (None, s).
Proof. destruct s as [|c s]; simpl; [reflexivity|]. now intros ->. Qed.

Lemma match_exp_stable (s : str) (e : option str) (r : str) :
  match_exp s = (e, r) ->
  (e = None /\ r = s)
  \/ (exists et, e = Some et /\ s = et ++ r /\ ends_digit et
        /\ (N.eqb (hd 0%N et) (ch "e") || N.eqb (hd 0%N et) (ch "E"))%bool
           = true
        /\ forall r',
             match r' with c :: _ => is_digit c = false | [] => True end ->
             match_exp (et ++ r') = (Some et, r')).
Proof.
  unfold match_exp. destruct s as [|c t]; [intros [= <- <-]; auto|].
  destruct (N.eqb c (ch "e") || N.eqb c (ch "E"))%bool eqn:Hc;
    [|intros [= <- <-]; auto].
  destruct t as [|x t'].
  - simpl. intros [= <- <-]. auto.
  - destruct (N.eqb x (ch "-") || N.eqb x (ch "+"))%bool eqn:Hx.
    + destruct (digits t') as [[|d ds] r0] eqn:Hds; intros [= <- <-]; [auto|].
      apply digits_split in Hds. destruct Hds as [-> Hds].
      right. exists (c :: [x] ++ d :: ds). repeat split; auto.
      * apply (ends_digit_app [c; x]), ends_digit_nonempty. exact Hds.
      * intros r' Hr. cbn [app]; cbn beta iota. rewrite Hc, Hx.
        change (d :: ds ++ r') with ((d :: ds) ++ r').
        now rewrite digits_app.
    + destruct (digits (x :: t')) as [[|d ds] r0] eqn:Hds;
        intros [= <- <-]; [auto|].
      apply digits_split in Hds. destruct Hds as [Hs Hds].
      cbn [app] in Hs. injection Hs as -> ->.
      right. exists (c :: [] ++ d :: ds). repeat split; auto.
      * apply (ends_digit_app [c]), ends_digit_nonempty. exact Hds.
      * intros r' Hr. cbn [app]; cbn beta iota. rewrite Hc, Hx.
        change (d :: ds ++ r') with ((d :: ds) ++ r').
        now rewrite digits_app.
Qed.

Lemma sep_nodigit (r' : str) :
  sep r' -> match r' with c :: _ => is_digit c = false | [] => True end.
Proof. destruct r'; [auto|]. intros H. now apply sep_inv in H. Qed.

Lemma head_nodigit (c : char) (r' : str) :
  (N.eqb c (ch ".") || N.eqb c (ch "e") || N.eqb c (ch "E"))%bool = true ->
  is_digit c = false.
Proof.
  intros H. repeat (apply orb_true_iff in H; destruct H as [H|H]);
    apply N.eqb_eq in H; subst; reflexivity.
Qed.

Lemma match_number_stable (s : str) (m : number_match) :
  match_number s = Some m -> number_stable s m.
Proof.
  unfold number_stable, match_number.
  destruct (match_integer s) as [[i r]|] eqn:Hi; [|discriminate].
  destruct (match_frac r) as [f r1] eqn:Hf.
  destruct (match_exp r1) as [e r2] eqn:He.
  intros [= <-]. cbn [n_end n_integer n_frac n_exp].
  apply match_integer_stable in Hi. destruct Hi as (-> & Hie & Hi).
  apply match_frac_stable in Hf. apply match_exp_stable in He.
  destruct Hf as [(-> & ->)|(ft & -> & -> & Hfe & Hfh & Hf)];
    destruct He as [(-> & ->)|(et & -> & -> & Hee & Heh & He)].
  - exists i. repeat split; auto. intros r' Hr.
    rewrite Hi by now apply sep_nodigit.
    destruct r' as [|c r']; [reflexivity|]. apply sep_inv in Hr.
    destruct Hr as (_ & Hd & H1 & H2).
    rewrite match_frac_none by exact Hd.
    rewrite match_exp_none by (now rewrite H1, H2). reflexivity.
  - exists (i ++ et). rewrite <- app_assoc. repeat split; auto.
    + now apply ends_digit_app.
    + intros r' Hr. rewrite <- app_assoc.
      destruct et as [|c et]; [destruct Hee as ([|? ?] & ? & ? & _);
                                 discriminate|].
      cbn [hd] in Heh.
      rewrite Hi by (cbn [app]; apply (head_nodigit c r');
                     rewrite <- orb_assoc, Heh; apply orb_true_r).
      rewrite match_frac_none
        by (cbn [app]; apply orb_true_iff in Heh;
            destruct Heh as [H|H]; apply N.eqb_eq in H; now subst).
      now rewrite He by now apply sep_nodigit.
  - exists (i ++ ft). rewrite <- app_assoc. repeat split; auto.
    + now apply ends_digit_app.
    + intros r' Hr. rewrite <- app_assoc.
      destruct ft as [|c ft]; [destruct Hfe as ([|? ?] & ? & ? & _);
                                 discriminate|].
      cbn [hd] in Hfh.
      rewrite Hi by (cbn [app]; apply (head_nodigit c r');
                     now rewrite Hfh).
      rewrite Hf by now apply sep_nodigit.
      destruct r' as [|c' r']; [reflexivity|]. apply sep_inv in Hr.
      destruct Hr as (_ & _ & H1 & H2).
      rewrite match_exp_none by (now rewrite H1, H2). reflexivity.
  - exists (i ++ ft ++ et). rewrite <- !app_assoc. repeat split; auto.
    + now apply ends_digit_app, ends_digit_app.
    + intros r' Hr. rewrite <- !app_assoc.
      destruct ft as [|c ft]; [destruct Hfe as ([|? ?] & ? & ? & _);
                                 discriminate|].
      destruct et as [|c' et]; [destruct Hee as ([|? ?] & ? & ? & _);
                                  discriminate|].
      cbn [hd] in Hfh, Heh.
      rewrite Hi by (cbn [app]; apply (head_nodigit c r');
                     now rewrite Hfh).
      rewrite Hf by (cbn [app]; apply (head_nodigit c' r');
                     rewrite <- orb_assoc, Heh; apply orb_true_r).
      now rewrite He by now apply sep_nodigit.
Qed.

(** *** Arrays and objects *)

Lemma token_end_nonempty (pre : str) : token_end pre -> pre <> [].
Proof. intros ([|? ?] & z & -> & _); discriminate. Qed.

Lemma token_end_last (pre : str) : token_end pre -> last_not_space pre.
Proof.
  intros (pre0 & z & -> & Hz). unfold last_not_space.
  rewrite rev_app_distr. exact Hz.
Qed.

Lemma json_ws_not_numcont (c : char) :
  is_json_ws c = true -> numcont c = false.
Proof.
  unfold is_json_ws. intros H.
  repeat (apply orb_true_iff in H; destruct H as [H|H]);
    apply N.eqb_eq in H; subst; reflexivity.
Qed.

Lemma sep_after_ws (w : str) (c : char) (x : str) :
  forallb is_json_ws w = true -> numcont c = false -> sep (w ++ c :: x).
Proof.
  destruct w as [|y w]; simpl; intros Hw Hc; [exact Hc|].
  apply andb_true_iff in Hw. destruct Hw as [Hy _].
  now apply json_ws_not_numcont.
Qed.

Lemma skip_ws_prefix (s p y w x : str) :
  skip_ws s = p ++ y -> p <> [] -> forallb is_json_ws w = true ->
  skip_ws (w ++ p ++ x) = p ++ x.
Proof.
  intros Hs Hp Hw. destruct p as [|c p]; [contradiction|].
  rewrite skip_ws_spaces by assumption. cbn [app] in *.
  apply skip_ws_id. eapply skip_ws_head; eauto.
Qed.

Lemma skip_ws_to (w : str) (c : char) (x : str) :
  forallb is_json_ws w = true -> is_json_ws c = false ->
  skip_ws (w ++ c :: x) = c :: x.
Proof.
  intros Hw Hc. rewrite skip_ws_spaces by assumption. now apply skip_ws_id.
Qed.

(** Reading the whitespace before a delimiter. *)
Lemma skip_ws_delim (r : str) (c : char) (r1 : str) :
  skip_ws r = c :: r1 ->
  exists w, r = w ++ c :: r1 /\ forallb is_json_ws w = true
            /\ is_json_ws c = false.
Proof.
  intros H. destruct (skip_ws_split r) as (w & Hr & Hw).
  rewrite H in Hr. exists w. repeat split; auto.
  eapply skip_ws_head; eauto.
Qed.

Ltac len :=
  do 4 (rewrite ?length_app in *; cbn [length] in *); lia.

Ltac assoc :=
  repeat first [rewrite <- app_assoc | progress cbn [app]]; reflexivity.

(** The equation of [scan_once], whatever room is left. *)
Lemma scan_once_eq (L : N) (room : nat) (s : str) :
  scan_once L room s
  = match s with
    | [] => Fail
    | c :: t =>
        if N.eqb c c_quote then
          match scanstring t with
          | Some (x, r) => Ok (JStr x) r
          | None => Fail
          end
        else if N.eqb c c_lbrace then
          match room with
          | 0 => Raises RecursionError
          | S room' => JSONObject (scan_once L room') t
          end
        else if N.eqb c c_lbracket then
          match room with
          | 0 => Raises RecursionError
          | S room' => JSONArray (scan_once L room') t
          end
        else if starts_with (ustr "null") s then Ok JNull (skipn 4 s)
        else if starts_with (ustr "true") s then Ok (JBool true) (skipn 4 s)
        else if starts_with (ustr "false") s
             then Ok (JBool false) (skipn 5 s)
        else
          match match_number s with
          | Some m =>
              if int_raises L m then Raises ValueError
              else Ok (number_value m) (n_end m)
          | None =>
              if starts_with (ustr "NaN") s then Ok (JConst NaN) (skipn 3 s)
              else if starts_with (ustr "Infinity") s
                   then Ok (JConst PosInf) (skipn 8 s)
              else if starts_with (ustr "-Infinity") s
                   then Ok (JConst NegInf) (skipn 9 s)
              else Fail
          end
    end.
Proof. destruct room; reflexivity. Qed.

Section LoopsStable.

Variable scan : str -> presult.
(** The scanner of another interpreter, [scan' i], where [good i] says
    that it allows what the first allows. *)
Variable I : Type.
Variable good : I -> Prop.
Variable scan' : I -> str -> presult.

Hypothesis scan_stable : forall s v r, scan s = Ok v r ->
  exists pre, s = pre ++ r /\ pre <> [] /\
    forall i r', sep r' -> good i -> scan' i (pre ++ r') = Ok v r'.

Lemma array_items_stable (f : nat) :
  forall vals s v r, array_items scan f vals s = Ok v r ->
  exists pre, s = (pre ++ [c_rbracket]) ++ r /\
    forall i f' r', good i ->
      length ((pre ++ [c_rbracket]) ++ r') < f' ->
      array_items (scan' i) f' vals ((pre ++ [c_rbracket]) ++ r') = Ok v r'.
Proof.
  induction f as [|f IH]; intros vals s v r H; [discriminate|].
  cbn [array_items] in H.
  destruct (scan s) as [v1 r0| |e0] eqn:Hs; try discriminate.
  destruct (scan_stable _ _ _ Hs) as (p1 & -> & Hp1 & Hst1).
  destruct (skip_ws r0) as [|c r1] eqn:Hws; [discriminate|].
  apply skip_ws_delim in Hws. destruct Hws as (w & -> & Hw & Hc).
  destruct (N.eqb c c_rbracket) eqn:Hcb.
  - injection H as <- <-. apply N.eqb_eq in Hcb. subst c.
    exists (p1 ++ w). split; [now rewrite <- !app_assoc|].
    intros i f' r' Hi Hf. destruct f' as [|f']; [lia|].
    cbn [array_items]. rewrite <- !app_assoc in *. cbn [app] in *.
    rewrite Hst1; [|now apply sep_after_ws|exact Hi].
    rewrite skip_ws_to by assumption. reflexivity.
  - destruct (N.eqb c c_comma) eqn:Hcc; [|discriminate].
    apply N.eqb_eq in Hcc. subst c.
    apply IH in H. destruct H as (p2 & Hr1 & Hst2).
    destruct (skip_ws_split r1) as (w2 & Hr1' & Hw2).
    exists (p1 ++ w ++ c_comma :: w2 ++ p2). split.
    { rewrite Hr1'. rewrite Hr1. assoc. }
    intros i f' r' Hi Hf. destruct f' as [|f']; [lia|].
    cbn [array_items].
    replace (((p1 ++ w ++ c_comma :: w2 ++ p2) ++ [c_rbracket]) ++ r')
      with (p1 ++ w ++ c_comma :: w2 ++ (p2 ++ [c_rbracket]) ++ r')
      in * by assoc.
    rewrite Hst1; [|now apply sep_after_ws|exact Hi].
    rewrite skip_ws_to by assumption.
    change (N.eqb c_comma c_rbracket) with false.
    rewrite N.eqb_refl. cbn iota.
    rewrite (skip_ws_prefix r1 (p2 ++ [c_rbracket]) r w2 _ Hr1)
      by (assumption || now destruct p2).
    apply Hst2; [exact Hi|len].
Qed.

Lemma JSONArray_stable (t : str) (v : json) (r : str) :
  JSONArray scan t = Ok v r ->
  exists pre, t = (pre ++ [c_rbracket]) ++ r /\
    forall i r', good i ->
      JSONArray (scan' i) ((pre ++ [c_rbracket]) ++ r') = Ok v r'.
Proof.
  unfold JSONArray. intros H.
  destruct (skip_ws t) as [|c r0] eqn:Hws; [discriminate|].
  pose proof Hws as Hd. apply skip_ws_delim in Hd.
  destruct Hd as (w & -> & Hw & Hc).
  destruct (N.eqb c c_rbracket) eqn:Hcb.
  - injection H as <- <-. apply N.eqb_eq in Hcb. subst c.
    exists w. split; [now rewrite <- app_assoc|].
    intros i r' Hi. rewrite <- app_assoc. cbn [app].
    rewrite skip_ws_to by assumption. now rewrite N.eqb_refl.
  - apply array_items_stable in H. destruct H as (p & Hp & Hst).
    destruct p as [|y p]; cbn [app] in Hp; injection Hp as -> Hp.
    { discriminate Hcb. }
    exists (w ++ y :: p). split.
    { rewrite Hp. assoc. }
    intros i r' Hi.
    replace (((w ++ y :: p) ++ [c_rbracket]) ++ r')
      with (w ++ y :: (p ++ [c_rbracket]) ++ r') in *
      by assoc.
    rewrite skip_ws_to by assumption. rewrite Hcb.
    apply (Hst i _ r'); [exact Hi|len].
Qed.

Lemma object_items_stable (f : nat) :
  forall pairs s v r, object_items scan f pairs s = Ok v r ->
  exists pre, s = (pre ++ [c_rbrace]) ++ r /\
    forall i f' r', good i ->
      length ((pre ++ [c_rbrace]) ++ r') < f' ->
      object_items (scan' i) f' pairs ((pre ++ [c_rbrace]) ++ r') = Ok v r'.
Proof.
  induction f as [|f IH]; intros pairs s v r H; [discriminate|].
  cbn [object_items] in H.
  destruct (scanstring s) as [[key r0]|] eqn:Hkey; [|discriminate].
  apply scanstring_stable in Hkey. destruct Hkey as (kp & -> & Hkst).
  destruct (skip_ws r0) as [|c r1] eqn:Hws; [discriminate|].
  apply skip_ws_delim in Hws. destruct Hws as (w1 & -> & Hw1 & Hc1).
  destruct (N.eqb c c_colon) eqn:Hcolon; [|discriminate].
  apply N.eqb_eq in Hcolon. subst c.
  destruct (scan (skip_ws r1)) as [v1 r2| |e0] eqn:Hs; try discriminate.
  destruct (scan_stable _ _ _ Hs) as (p1 & Hr1 & Hp1 & Hst1).
  destruct (skip_ws_split r1) as (w2 & Hr1' & Hw2).
  destruct (skip_ws r2) as [|d r3] eqn:Hws2; [discriminate|].
  apply skip_ws_delim in Hws2. destruct Hws2 as (w3 & -> & Hw3 & Hd).
  destruct (N.eqb d c_rbrace) eqn:Hdb.
  - injection H as <- <-. apply N.eqb_eq in Hdb. subst d.
    exists ((kp ++ [c_quote]) ++ w1 ++ c_colon :: w2 ++ p1 ++ w3). split.
    { rewrite Hr1', Hr1. assoc. }
    intros i f' r' Hi Hf. destruct f' as [|f']; [lia|].
    cbn [object_items].
    replace ((((kp ++ [c_quote]) ++ w1 ++ c_colon :: w2 ++ p1 ++ w3)
                ++ [c_rbrace]) ++ r')
      with ((kp ++ [c_quote])
              ++ w1 ++ c_colon :: w2 ++ p1 ++ w3 ++ c_rbrace :: r') in *
      by assoc.
    rewrite Hkst. rewrite skip_ws_to by assumption.
    rewrite N.eqb_refl.
    rewrite (skip_ws_prefix r1 p1 _ w2 _ Hr1) by assumption.
    rewrite Hst1; [|now apply sep_after_ws|exact Hi].
    rewrite skip_ws_to by assumption. now rewrite N.eqb_refl.
  - destruct (N.eqb d c_comma) eqn:Hdc; [|discriminate].
    apply N.eqb_eq in Hdc. subst d.
    destruct (skip_ws r3) as [|q r4] eqn:Hws3; [discriminate|].
    apply skip_ws_delim in Hws3. destruct Hws3 as (w4 & -> & Hw4 & Hq).
    destruct (N.eqb q c_quote) eqn:Hqq; [|discriminate].
    apply N.eqb_eq in Hqq. subst q.
    apply IH in H. destruct H as (p2 & -> & Hst2).
    exists ((kp ++ [c_quote]) ++ w1 ++ c_colon :: w2 ++ p1 ++ w3
              ++ c_comma :: w4 ++ c_quote :: p2). split.
    { rewrite Hr1', Hr1. assoc. }
    intros i f' r' Hi Hf. destruct f' as [|f']; [lia|].
    cbn [object_items].
    replace ((((kp ++ [c_quote]) ++ w1 ++ c_colon :: w2 ++ p1 ++ w3
                 ++ c_comma :: w4 ++ c_quote :: p2) ++ [c_rbrace]) ++ r')
      with ((kp ++ [c_quote])
              ++ w1 ++ c_colon :: w2 ++ p1 ++ w3
              ++ c_comma :: w4 ++ c_quote :: (p2 ++ [c_rbrace]) ++ r') in *
      by assoc.
    rewrite Hkst. rewrite skip_ws_to by assumption.
    rewrite N.eqb_refl.
    rewrite (skip_ws_prefix r1 p1 _ w2 _ Hr1) by assumption.
    rewrite Hst1; [|now apply sep_after_ws|exact Hi].
    rewrite skip_ws_to by assumption.
    change (N.eqb c_comma c_rbrace) with false.
    rewrite N.eqb_refl. cbn iota.
    rewrite skip_ws_to by assumption. rewrite N.eqb_refl.
    apply Hst2; [exact Hi|len].
Qed.

Lemma JSONObject_stable (t : str) (v : json) (r : str) :
  JSONObject scan t = Ok v r ->
  exists pre, t = (pre ++ [c_rbrace]) ++ r /\
    forall i r', good i ->
      JSONObject (scan' i) ((pre ++ [c_rbrace]) ++ r') = Ok v r'.
Proof.
  unfold JSONObject. intros H.
  destruct (skip_ws t) as [|c r0] eqn:Hws; [discriminate|].
  apply skip_ws_delim in Hws. destruct Hws as (w & -> & Hw & Hc).
  destruct (N.eqb c c_rbrace) eqn:Hcb.
  - injection H as <- <-. apply N.eqb_eq in Hcb. subst c.
    exists w. split; [now rewrite <- app_assoc|].
    intros i r' Hi. rewrite <- app_assoc. cbn [app].
    rewrite skip_ws_to by assumption. now rewrite N.eqb_refl.
  - destruct (N.eqb c c_quote) eqn:Hcq; [|discriminate].
    apply N.eqb_eq in Hcq. subst c.
    apply object_items_stable in H. destruct H as (p & -> & Hst).
    exists (w ++ c_quote :: p). split.
    { assoc. }
    intros i r' Hi.
    replace (((w ++ c_quote :: p) ++ [c_rbrace]) ++ r')
      with (w ++ c_quote :: (p ++ [c_rbrace]) ++ r') in *
      by assoc.
    rewrite skip_ws_to by assumption.
    change (N.eqb c_quote c_rbrace) with false.
    rewrite N.eqb_refl. cbn iota.
    apply (Hst i _ r'); [exact Hi|len].
Qed.

End LoopsStable.

(** *** Values *)

Lemma starts_with_split (p s : str) :
  starts_with p s = true -> s = p ++ skipn (length p) s.
Proof.
  revert s. induction p as [|x p IH]; intros s H; [reflexivity|].
  destruct s as [|y s]; [discriminate|]. simpl in H.
  apply andb_true_iff in H. destruct H as [Hxy Hp].
  apply N.eqb_eq in Hxy. subst y. cbn [length skipn app].
  f_equal. now apply IH.
Qed.

Lemma match_number_head (c : char) (t : str) (m : number_match) :
  match_number (c :: t) = Some m ->
  N.eqb c (ch "-") = true \/ is_digit c = true.
Proof.
  unfold match_number, match_integer.
  destruct (N.eqb c (ch "-")) eqn:Hm; [auto|].
  destruct (N.eqb c (ch "0")) eqn:H0.
  - apply N.eqb_eq in H0. subst c. auto.
  - destruct (is_digit c); [auto|discriminate].
Qed.

Lemma number_head_no_literal (c : char) (x : str) :
  N.eqb c (ch "-") = true \/ is_digit c = true ->
  starts_with (ustr "null") (c :: x) = false
  /\ starts_with (ustr "true") (c :: x) = false
  /\ starts_with (ustr "false") (c :: x) = false.
Proof.
  intros [H|H].
  - apply N.eqb_eq in H. subst c. auto.
  - unfold is_digit in H. apply andb_true_iff in H. destruct H as [_ H].
    apply N.leb_le in H. cbn [ustr list_ascii_of_string map starts_with].
    repeat split; apply andb_false_iff; left; apply N.eqb_neq;
      intros E; rewrite <- E in H; vm_compute in H; now apply H.
Qed.

Ltac literal_case H Hlit lit :=
  injection H as <- <-; apply starts_with_split in Hlit;
  exists lit; split; [exact Hlit|]; split;
  [ exists (removelast lit), (last lit 0%N); split; reflexivity
  | intros ? ? ? _ _ _; rewrite scan_once_eq; reflexivity ].

Lemma exceeds_digits_allow (L L' : N) (text : str) :
  digits_allow L L' -> exceeds_digits L text = false ->
  exceeds_digits L' text = false.
Proof.
  unfold exceeds_digits, digits_allow.
  set (n := N.of_nat (length (int_digits text))). intros Ha H.
  destruct (N.ltb_spec 640 n); cbn [andb] in *; [|reflexivity].
  destruct (N.ltb_spec 0 L'); cbn [andb]; [|reflexivity].
  destruct (N.ltb_spec 0 L); cbn [andb] in H; [|lia].
  apply N.ltb_ge in H. apply N.ltb_ge. lia.
Qed.

Lemma int_raises_allow (L L' : N) (m m' : number_match) :
  digits_allow L L' -> int_raises L m = false ->
  n_integer m' = n_integer m -> n_frac m' = n_frac m ->
  n_exp m' = n_exp m ->
  int_raises L' m' = false.
Proof.
  unfold int_raises. intros Ha H -> -> ->.
  destruct (n_frac m), (n_exp m); auto.
  now apply (exceeds_digits_allow L).
Qed.

(** A scanned value is a prefix of the input that ends in a character
    other than whitespace; the scan of that prefix does not depend on
    what follows, as long as what follows cannot continue a number, and
    it gives the same value in an interpreter that allows as much. *)
Lemma scan_once_stable (L : N) (n : nat) :
  forall s v r, scan_once L n s = Ok v r ->
  exists pre, s = pre ++ r /\ token_end pre /\
    forall L' k r', sep r' -> digits_allow L L' -> n <= k ->
                    scan_once L' k (pre ++ r') = Ok v r'.
Proof.
  induction n as [n IH] using lt_wf_ind. intros s v r H.
  assert (IH' : forall n', n' < n ->
            forall s v r, scan_once L n' s = Ok v r ->
            exists pre, s = pre ++ r /\ pre <> [] /\
              forall (i : N * nat) r', sep r' ->
                digits_allow L (fst i) /\ n' <= snd i ->
                scan_once (fst i) (snd i) (pre ++ r') = Ok v r').
  { intros n' Hn' s0 v0 r0 H0. apply (IH n' Hn') in H0.
    destruct H0 as (pre & Hs0 & Hte & Hst). exists pre.
    split; [assumption|]. split; [now apply token_end_nonempty|].
    intros [L' k] r' Hs (Ha & Hk). now apply Hst. }
  destruct s as [|c t]; rewrite scan_once_eq in H; [discriminate|].
  destruct (N.eqb c c_quote) eqn:Hq.
  { destruct (scanstring t) as [[x r0]|] eqn:Hs; [|discriminate].
    injection H as <- <-. apply scanstring_stable in Hs.
    destruct Hs as (p & -> & Hst).
    exists (c :: p ++ [c_quote]). split; [reflexivity|]. split.
    { exists (c :: p), c_quote. split; reflexivity. }
    intros L' k r' _ _ _. rewrite scan_once_eq.
    cbn [app]. now rewrite Hq, Hst. }
  destruct (N.eqb c c_lbrace) eqn:Hob.
  { destruct n as [|n]; [discriminate|].
    apply (JSONObject_stable (scan_once L n) (N * nat)
             (fun i => digits_allow L (fst i) /\ n <= snd i)
             (fun i => scan_once (fst i) (snd i))
             (IH' n (Nat.lt_succ_diag_r n))) in H.
    destruct H as (p & -> & Hst).
    exists (c :: p ++ [c_rbrace]). split; [reflexivity|]. split.
    { exists (c :: p), c_rbrace. split; reflexivity. }
    intros L' k r' _ Ha Hk. destruct k as [|k]; [lia|].
    rewrite scan_once_eq. cbn [app]. rewrite Hq, Hob.
    apply (Hst (L', k)). cbn [fst snd]. split; [exact Ha|lia]. }
  destruct (N.eqb c c_lbracket) eqn:Har.
  { destruct n as [|n]; [discriminate|].
    apply (JSONArray_stable (scan_once L n) (N * nat)
             (fun i => digits_allow L (fst i) /\ n <= snd i)
             (fun i => scan_once (fst i) (snd i))
             (IH' n (Nat.lt_succ_diag_r n))) in H.
    destruct H as (p & -> & Hst).
    exists (c :: p ++ [c_rbracket]). split; [reflexivity|]. split.
    { exists (c :: p), c_rbracket. split; reflexivity. }
    intros L' k r' _ Ha Hk. destruct k as [|k]; [lia|].
    rewrite scan_once_eq. cbn [app]. rewrite Hq, Hob, Har.
    apply (Hst (L', k)). cbn [fst snd]. split; [exact Ha|lia]. }
  destruct (starts_with (ustr "null") (c :: t)) eqn:Hnull.
  { literal_case H Hnull (ustr "null"). }
  destruct (starts_with (ustr "true") (c :: t)) eqn:Htrue.
  { literal_case H Htrue (ustr "true"). }
  destruct (starts_with (ustr "false") (c :: t)) eqn:Hfalse.
  { literal_case H Hfalse (ustr "false"). }
  destruct (match_number (c :: t)) as [m|] eqn:Hm.
  { destruct (int_raises L m) eqn:Hraise; [discriminate|].
    injection H as <- <-.
    pose proof (match_number_head _ _ _ Hm) as Hhead.
    apply match_number_stable in Hm. destruct Hm as (pre & Hs & Hed & Hst).
    exists pre. split; [exact Hs|]. split.
    { destruct Hed as (l0 & z & -> & Hz). exists l0, z.
      split; [reflexivity|now apply digit_not_space]. }
    intros L' k r' Hsep Ha _.
    destruct pre as [|c' pre].
    { destruct Hed as ([|? ?] & ? & ? & _); discriminate. }
    cbn [app] in Hs. injection Hs as <- Ht.
    rewrite scan_once_eq. cbn [app]. rewrite Hq, Hob, Har.
    destruct (number_head_no_literal c (pre ++ r') Hhead) as (-> & -> & ->).
    change (c :: pre ++ r') with ((c :: pre) ++ r').
    rewrite (Hst r' Hsep).
    now rewrite (int_raises_allow L L' m _ Ha Hraise). }
  destruct (starts_with (ustr "NaN") (c :: t)) eqn:Hnan.
  { literal_case H Hnan (ustr "NaN"). }
  destruct (starts_with (ustr "Infinity") (c :: t)) eqn:Hinf.
  { literal_case H Hinf (ustr "Infinity"). }
  destruct (starts_with (ustr "-Infinity") (c :: t)) eqn:Hninf.
  { literal_case H Hninf (ustr "-Infinity"). }
  discriminate.
Qed.

(** *** What the first character decides *)

Lemma array_items_kind (scan : str -> presult) (f : nat) :
  forall vals s v r, array_items scan f vals s = Ok v r -> ~ is_object v.
Proof.
  induction f as [|f IH]; intros vals s v r H; [discriminate|].
  cbn [array_items] in H.
  destruct (scan s) as [v1 r0| |]; try discriminate.
  destruct (skip_ws r0) as [|c r1]; [discriminate|].
  destruct (N.eqb c c_rbracket).
  - injection H as <- <-. intros (d & Hd). discriminate.
  - destruct (N.eqb c c_comma); [|discriminate]. eapply IH; eauto.
Qed.

Lemma object_items_kind (scan : str -> presult) (f : nat) :
  forall pairs s v r, object_items scan f pairs s = Ok v r -> is_object v.
Proof.
  induction f as [|f IH]; intros pairs s v r H; [discriminate|].
  cbn [object_items] in H.
  destruct (scanstring s) as [[key r0]|]; [|discriminate].
  destruct (skip_ws r0) as [|c r1]; [discriminate|].
  destruct (N.eqb c c_colon); [|discriminate].
  destruct (scan (skip_ws r1)) as [v1 r2| |]; try discriminate.
  destruct (skip_ws r2) as [|d r3]; [discriminate|].
  destruct (N.eqb d c_rbrace).
  - injection H as <- <-. now eexists.
  - destruct (N.eqb d c_comma); [|discriminate].
    destruct (skip_ws r3) as [|q r4]; [discriminate|].
    destruct (N.eqb q c_quote); [|discriminate]. eapply IH; eauto.
Qed.

Lemma starts_with_head (x : char) (p : str) (c : char) (t : str) :
  starts_with (x :: p) (c :: t) = true -> c = x.
Proof.
  simpl. intros H. apply andb_true_iff in H. destruct H as [H _].
  apply N.eqb_eq in H. now subst.
Qed.

(** The value is an object exactly when the text starts with [{]; the
    first character of a value is never whitespace. *)
Lemma scan_once_head (L : N) (n : nat) (c : char) (t : str) (v : json) (r : str) :
  scan_once L n (c :: t) = Ok v r ->
  is_space c = false /\ c <> c_bom /\ (c = c_lbrace <-> is_object v).
Proof.
  rewrite scan_once_eq.
  destruct (N.eqb_spec c c_quote) as [->|Hq].
  { destruct (scanstring t) as [[x r0]|]; [|discriminate].
    intros [= <- <-]. repeat split; try discriminate.
    intros (d & Hd). discriminate. }
  destruct (N.eqb_spec c c_lbrace) as [->|Hob].
  { destruct n as [|n]; [discriminate|].
    unfold JSONObject. intros H. repeat split; try discriminate.
    intros _. destruct (skip_ws t) as [|x r0]; [discriminate|].
    destruct (N.eqb x c_rbrace); [injection H as <- <-; now eexists|].
    destruct (N.eqb x c_quote); [|discriminate].
    eapply object_items_kind; eauto. }
  destruct (N.eqb_spec c c_lbracket) as [->|Har].
  { destruct n as [|n]; [discriminate|].
    unfold JSONArray. intros H. repeat split; try discriminate.
    intros Ho. exfalso. destruct (skip_ws t) as [|x r0]; [discriminate|].
    destruct (N.eqb x c_rbracket).
    - injection H as <- <-. destruct Ho as (d & Hd). discriminate.
    - eapply array_items_kind; eauto. }
  assert (Hlit : forall x p, starts_with (x :: p) (c :: t) = true ->
                 is_space x = false -> x <> c_bom ->
                 is_space c = false /\ c <> c_bom).
  { intros x p Hs Hx Hb. apply starts_with_head in Hs. now subst. }
  destruct (starts_with (ustr "null") (c :: t)) eqn:Hnull.
  { intros [= <- <-]. apply Hlit in Hnull; try easy.
    destruct Hnull. repeat split; auto; try tauto.
    intros (d & Hd). discriminate. }
  destruct (starts_with (ustr "true") (c :: t)) eqn:Htrue.
  { intros [= <- <-]. apply Hlit in Htrue; try easy.
    destruct Htrue. repeat split; auto; try tauto.
    intros (d & Hd). discriminate. }
  destruct (starts_with (ustr "false") (c :: t)) eqn:Hfalse.
  { intros [= <- <-]. apply Hlit in Hfalse; try easy.
    destruct Hfalse. repeat split; auto; try tauto.
    intros (d & Hd). discriminate. }
  destruct (match_number (c :: t)) as [m|] eqn:Hm.
  { destruct (int_raises L m); [discriminate|].
    intros [= <- <-]. apply match_number_head in Hm.
    assert (Hc : is_space c = false /\ c <> c_bom).
    { destruct Hm as [Hm|Hm].
      - apply N.eqb_eq in Hm. subst c. split; [reflexivity|discriminate].
      - split; [now apply digit_not_space|]. intros ->. discriminate Hm. }
    destruct Hc. repeat split; auto; try tauto.
    intros (d & Hd). unfold number_value in Hd.
    destruct (n_frac m), (n_exp m); discriminate. }
  destruct (starts_with (ustr "NaN") (c :: t)) eqn:Hnan.
  { intros [= <- <-]. apply Hlit in Hnan; try easy.
    destruct Hnan. repeat split; auto; try tauto.
    intros (d & Hd). discriminate. }
  destruct (starts_with (ustr "Infinity") (c :: t)) eqn:Hinf.
  { intros [= <- <-]. apply Hlit in Hinf; try easy.
    destruct Hinf. repeat split; auto; try tauto.
    intros (d & Hd). discriminate. }
  destruct (starts_with (ustr "-Infinity") (c :: t)) eqn:Hninf.
  { intros [= <- <-]. apply Hlit in Hninf; try easy.
    destruct Hninf. repeat split; auto; try tauto.
    intros (d & Hd). discriminate. }
  discriminate.
Qed.

Lemma scan_once_nonempty (L : N) (n : nat) (s : str) (v : json) (r : str) :
  scan_once L n s = Ok v r ->
  exists pre, s = pre ++ r /\ pre <> [] /\
    forall L' k r', sep r' -> digits_allow L L' -> n <= k ->
                    scan_once L' k (pre ++ r') = Ok v r'.
Proof.
  intros H. apply scan_once_stable in H.
  destruct H as (pre & Hs & Hte & Hst). exists pre.
  split; [assumption|]. split; [now apply token_end_nonempty|exact Hst].
Qed.

Lemma digits_allow_refl (L : N) : digits_allow L L.
Proof. unfold digits_allow. destruct L; [now left|right; lia]. Qed.

(** The text of an object ends with its closing brace. *)
Lemma scan_once_object_braced (L : N) (n : nat) (t : str) (v : json)
    (r : str) :
  scan_once L n (c_lbrace :: t) = Ok v r ->
  exists p, t = (p ++ [c_rbrace]) ++ r.
Proof.
  rewrite scan_once_eq.
  change (N.eqb c_lbrace c_quote) with false.
  change (N.eqb c_lbrace c_lbrace) with true. cbn iota. intros H.
  destruct n as [|n]; [discriminate|].
  apply (JSONObject_stable (scan_once L n) nat (fun k => n <= k)
           (scan_once L)) in H.
  - destruct H as (p & Hp & _). now exists p.
  - intros s0 v0 r0 H0. apply scan_once_nonempty in H0.
    destruct H0 as (pre & Hs & Hne & Hst). exists pre.
    split; [assumption|]. split; [assumption|].
    intros k r' Hsep Hk. apply Hst; auto using digits_allow_refl.
Qed.

Lemma skip_ws_nil (r : str) :
  skip_ws r = [] -> forallb is_json_ws r = true.
Proof.
  intros H. destruct (skip_ws_split r) as (w & Hr & Hw).
  rewrite H, app_nil_r in Hr. now subst.
Qed.

Lemma json_loads_decode (lim : limits) (s : str) (v : json) :
  json_loads lim s = Return v -> decode lim s = Return v.
Proof.
  unfold json_loads. destruct s as [|c s]; [auto|].
  destruct (N.eqb c c_bom); [discriminate|auto].
Qed.

Lemma json_ws_sep (r : str) : forallb is_json_ws r = true -> sep r.
Proof.
  destruct r as [|c r]; [easy|]. cbn [forallb sep]. intros H.
  apply andb_true_iff in H. destruct H as [H _].
  unfold is_json_ws in H. unfold numcont, is_digit.
  repeat (apply orb_true_iff in H; destruct H as [H|H]);
    apply N.eqb_eq in H; subst c; reflexivity.
Qed.

Lemma allows_refl (lim : limits) : allows lim lim.
Proof. split; [apply digits_allow_refl|apply Nat.le_refl]. Qed.

(** A valid document is a core text between JSON whitespace; the core alone
    decodes to the same value, also in an interpreter that allows as
    much. *)
Lemma json_loads_core (lim : limits) (s : str) (v : json) :
  json_loads lim s = Return v ->
  exists w1 core w2,
    s = w1 ++ core ++ w2
    /\ forallb is_json_ws w1 = true /\ forallb is_json_ws w2 = true
    /\ head_not_space core /\ last_not_space core
    /\ (forall lim', allows lim lim' -> json_loads lim' core = Return v)
    /\ (is_object v -> braced core)
    /\ (hd_error core = Some c_lbrace -> is_object v).
Proof.
  intros H. apply json_loads_decode in H. unfold decode in H.
  destruct (scan_once (int_max_str_digits lim) (recursion_room lim)
              (skip_ws s)) as [v0 r| |e0] eqn:Hs;
    try discriminate.
  destruct (skip_ws r) as [|? ?] eqn:Hr; [|discriminate].
  injection H as ->. apply skip_ws_nil in Hr.
  destruct (skip_ws_split s) as (w1 & Hs1 & Hw1).
  pose proof Hs as Hst. apply scan_once_stable in Hst.
  destruct Hst as (pre & Hpre & Hte & Hst).
  destruct pre as [|c pre]; [now apply token_end_nonempty in Hte|].
  rewrite Hpre in Hs. cbn [app] in Hs. pose proof Hs as Hs0.
  apply scan_once_head in Hs. destruct Hs as (Hsp & Hbom & Hobj).
  assert (Hc : is_json_ws c = false).
  { destruct (is_json_ws c) eqn:E; [|reflexivity].
    apply json_ws_is_space in E. congruence. }
  exists w1, (c :: pre), r. repeat split; auto.
  - rewrite Hs1 at 1. now rewrite Hpre.
  - now apply token_end_last.
  - intros lim' (Ha & Hk).
    unfold json_loads. apply N.eqb_neq in Hbom. rewrite Hbom.
    unfold decode. rewrite skip_ws_id by assumption.
    specialize (Hst (int_max_str_digits lim') (recursion_room lim') [] I
                  Ha Hk).
    rewrite app_nil_r in Hst. rewrite Hst. reflexivity.
  - intros Ho. apply Hobj in Ho. subst c.
    apply scan_once_object_braced in Hs0. destruct Hs0 as (p & Hp).
    apply app_inv_tail in Hp. subst pre. now exists p.
  - cbn [hd_error]. intros [= ->]. now apply Hobj.
Qed.

(** What [json.loads] returns does not depend on the interpreter: where
    two interpreters both return a value, it is the same value, and an
    interpreter that allows more returns what the other returns. *)
Lemma json_loads_allows (lim lim' : limits) (s : str) (v : json) :
  json_loads lim s = Return v -> allows lim lim' ->
  json_loads lim' s = Return v.
Proof.
  intros H (Ha & Hk). pose proof H as Hd. apply json_loads_decode in Hd.
  assert (Hb : json_loads lim' s = decode lim' s).
  { unfold json_loads in *. destruct s as [|c s]; [reflexivity|].
    destruct (N.eqb c c_bom); [discriminate|reflexivity]. }
  rewrite Hb. unfold decode in *.
  destruct (scan_once (int_max_str_digits lim) (recursion_room lim)
              (skip_ws s)) as [v0 r| |e0] eqn:Hs;
    try discriminate.
  destruct (skip_ws r) as [|? ?] eqn:Hr; [|discriminate].
  injection Hd as ->. pose proof Hr as Hw. apply skip_ws_nil in Hw.
  apply scan_once_stable in Hs. destruct Hs as (pre & Hpre & _ & Hst).
  rewrite Hpre.
  rewrite (Hst _ _ r (json_ws_sep r Hw) Ha Hk). now rewrite Hr.
Qed.

Lemma allows_most (lim lim' : limits) :
  allows lim (most lim lim') /\ allows lim' (most lim lim').
Proof.
  unfold allows, most, digits_allow. cbn. repeat split; auto; lia.
Qed.

Lemma json_loads_agree (lim lim' : limits) (s : str) (v v' : json) :
  json_loads lim s = Return v -> json_loads lim' s = Return v' -> v = v'.
Proof.
  intros H H'. destruct (allows_most lim lim') as (Ha & Ha').
  apply (json_loads_allows _ _ _ _ H) in Ha.
  apply (json_loads_allows _ _ _ _ H') in Ha'. congruence.
Qed.

(* ===================================================================== *)
(** ** Room for the whole text                                             *)
(* ===================================================================== *)

Lemma skip_ws_length (s : str) : length (skip_ws s) <= length s.
Proof.
  destruct (skip_ws_split s) as (w & Hs & _).
  rewrite Hs at 2. rewrite length_app. lia.
Qed.

Lemma skip_ws_delim_length (r : str) (c : char) (r1 : str) :
  skip_ws r = c :: r1 -> length r1 < length r.
Proof.
  intros H. apply skip_ws_delim in H. destruct H as (w & -> & _).
  rewrite length_app. simpl. lia.
Qed.

Lemma scanstring_length (s x r : str) :
  scanstring s = Some (x, r) -> length r < length s.
Proof.
  intros H. apply scanstring_stable in H. destruct H as (p & -> & _).
  rewrite !length_app. simpl. lia.
Qed.

Section LoopsFuel.

Variable scan : str -> presult.
Variable bound : nat.

Hypothesis scan_total :
  forall x, length x < bound -> scan x <> Raises RecursionError.
Hypothesis scan_consumes :
  forall x v r, scan x = Ok v r -> length r < length x.

Lemma array_items_enough (f : nat) :
  forall vals s, length s < f -> length s < bound ->
                 array_items scan f vals s <> Raises RecursionError.
Proof.
  induction f as [|f IH]; intros vals s Hf Hb; [lia|].
  cbn [array_items]. destruct (scan s) as [v r0| |e0] eqn:Hs.
  - apply scan_consumes in Hs.
    destruct (skip_ws r0) as [|c r1] eqn:Hws; [discriminate|].
    apply skip_ws_delim_length in Hws.
    destruct (N.eqb c c_rbracket); [discriminate|].
    destruct (N.eqb c c_comma); [|discriminate].
    pose proof (skip_ws_length r1). apply IH; lia.
  - discriminate.
  - intros [= ->]. now apply scan_total in Hb.
Qed.

Lemma JSONArray_enough (t : str) :
  length t < bound -> JSONArray scan t <> Raises RecursionError.
Proof.
  intros Hb. unfold JSONArray.
  destruct (skip_ws t) as [|c r] eqn:Hws; [discriminate|].
  destruct (N.eqb c c_rbracket); [discriminate|].
  pose proof (skip_ws_length t). rewrite Hws in H.
  apply array_items_enough; lia.
Qed.

Lemma object_items_enough (f : nat) :
  forall pairs s, length s < f -> length s < bound ->
                  object_items scan f pairs s <> Raises RecursionError.
Proof.
  induction f as [|f IH]; intros pairs s Hf Hb; [lia|].
  cbn [object_items].
  destruct (scanstring s) as [[key r0]|] eqn:Hkey; [|discriminate].
  apply scanstring_length in Hkey.
  destruct (skip_ws r0) as [|c r1] eqn:Hws; [discriminate|].
  apply skip_ws_delim_length in Hws.
  destruct (N.eqb c c_colon); [|discriminate].
  pose proof (skip_ws_length r1) as Hl1.
  destruct (scan (skip_ws r1)) as [v r2| |e0] eqn:Hs.
  - apply scan_consumes in Hs.
    destruct (skip_ws r2) as [|d r3] eqn:Hws2; [discriminate|].
    apply skip_ws_delim_length in Hws2.
    destruct (N.eqb d c_rbrace); [discriminate|].
    destruct (N.eqb d c_comma); [|discriminate].
    destruct (skip_ws r3) as [|q r4] eqn:Hws3; [discriminate|].
    apply skip_ws_delim_length in Hws3.
    destruct (N.eqb q c_quote); [|discriminate].
    apply IH; lia.
  - discriminate.
  - intros [= ->]. apply scan_total in Hs; [contradiction|lia].
Qed.

Lemma JSONObject_enough (t : str) :
  length t < bound -> JSONObject scan t <> Raises RecursionError.
Proof.
  intros Hb. unfold JSONObject.
  destruct (skip_ws t) as [|c r] eqn:Hws; [discriminate|].
  destruct (N.eqb c c_rbrace); [discriminate|].
  destruct (N.eqb c c_quote); [|discriminate].
  apply skip_ws_delim_length in Hws.
  apply object_items_enough; lia.
Qed.

End LoopsFuel.

Lemma scan_once_consumes (L : N) (n : nat) (s : str) (v : json) (r : str) :
  scan_once L n s = Ok v r -> length r < length s.
Proof.
  intros H. apply scan_once_nonempty in H.
  destruct H as ([|c pre] & -> & Hne & _); [contradiction|].
  rewrite length_app. simpl. lia.
Qed.

(** With room for as many nested values as the text has characters, the
    scanner does not raise [RecursionError]: the loops do not run out of
    fuel, and the recursion limit is not reached. *)
Lemma scan_once_enough (L : N) (n : nat) :
  forall s, length s <= n -> scan_once L n s <> Raises RecursionError.
Proof.
  induction n as [|n IH]; intros s Hn;
    (destruct s as [|c t]; [discriminate|]); cbn [length] in Hn; [lia|].
  assert (IH' : forall x, length x < S n ->
                  scan_once L n x <> Raises RecursionError).
  { intros x Hx. apply IH. lia. }
  rewrite scan_once_eq.
  destruct (N.eqb c c_quote).
  { destruct (scanstring t) as [[x r]|]; discriminate. }
  destruct (N.eqb c c_lbrace).
  { apply (JSONObject_enough (scan_once L n) (S n) IH'
             (scan_once_consumes L n)). lia. }
  destruct (N.eqb c c_lbracket).
  { apply (JSONArray_enough (scan_once L n) (S n) IH'
             (scan_once_consumes L n)). lia. }
  repeat match goal with
         | |- (if ?b then _ else _) <> _ => destruct b; [discriminate|]
         end.
  destruct (match_number (c :: t)).
  { destruct (int_raises L n0); discriminate. }
  repeat match goal with
         | |- (if ?b then _ else _) <> _ => destruct b; [discriminate|]
         end.
  discriminate.
Qed.

Section LoopsAnyFuel.

(** The fuel of the two loops does not matter: each round consumes a
    character, so that more fuel than the text has characters is never
    used up. *)
Variable scan : str -> presult.

Hypothesis scan_consumes :
  forall x v r, scan x = Ok v r -> length r < length x.

Lemma array_items_any_fuel (f : nat) :
  forall f' vals s, length s < f -> length s < f' ->
    array_items scan f vals s = array_items scan f' vals s.
Proof.
  induction f as [|f IH]; intros f' vals s Hf Hf'; [lia|].
  destruct f' as [|f']; [lia|]. cbn [array_items].
  destruct (scan s) as [v r0| |e0] eqn:Hs; try reflexivity.
  apply scan_consumes in Hs.
  destruct (skip_ws r0) as [|c r1] eqn:Hws; [reflexivity|].
  apply skip_ws_delim_length in Hws.
  destruct (N.eqb c c_rbracket); [reflexivity|].
  destruct (N.eqb c c_comma); [|reflexivity].
  pose proof (skip_ws_length r1). apply IH; lia.
Qed.

Lemma object_items_any_fuel (f : nat) :
  forall f' pairs s, length s < f -> length s < f' ->
    object_items scan f pairs s = object_items scan f' pairs s.
Proof.
  induction f as [|f IH]; intros f' pairs s Hf Hf'; [lia|].
  destruct f' as [|f']; [lia|]. cbn [object_items].
  destruct (scanstring s) as [[key r0]|] eqn:Hkey; [|reflexivity].
  apply scanstring_length in Hkey.
  destruct (skip_ws r0) as [|c r1] eqn:Hws; [reflexivity|].
  apply skip_ws_delim_length in Hws.
  destruct (N.eqb c c_colon); [|reflexivity].
  pose proof (skip_ws_length r1) as Hl1.
  destruct (scan (skip_ws r1)) as [v r2| |e0] eqn:Hs; try reflexivity.
  apply scan_consumes in Hs.
  destruct (skip_ws r2) as [|d r3] eqn:Hws2; [reflexivity|].
  apply skip_ws_delim_length in Hws2.
  destruct (N.eqb d c_rbrace); [reflexivity|].
  destruct (N.eqb d c_comma); [|reflexivity].
  destruct (skip_ws r3) as [|q r4] eqn:Hws3; [reflexivity|].
  apply skip_ws_delim_length in Hws3.
  destruct (N.eqb q c_quote); [|reflexivity].
  apply IH; lia.
Qed.

End LoopsAnyFuel.




(** [json.loads] raises [RecursionError] only on a text longer than the
    room the interpreter has left. *)
Lemma json_loads_enough_room (lim : limits) (s : str) :
  length s <= recursion_room lim -> json_loads lim s <> Raise RecursionError.
Proof.
  intros Hl.
  assert (Hd : decode lim s <> Raise RecursionError).
  { unfold decode.
    pose proof (scan_once_enough (int_max_str_digits lim)
                  (recursion_room lim) (skip_ws s)) as He.
    pose proof (skip_ws_length s) as Hl'.
    destruct (scan_once _ _ (skip_ws s)) as [v r| |e].
    - destruct (skip_ws r); discriminate.
    - discriminate.
    - intros [= ->]. apply He; [lia|reflexivity]. }
  unfold json_loads. destruct s as [|c s]; [exact Hd|].
  destruct (N.eqb c c_bom); [discriminate|exact Hd].
Qed.

(* ===================================================================== *)
(** ** Extraction                                                          *)
(* ===================================================================== *)

Lemma has_fence_inside (a b c : str) : has_fence b -> has_fence (a ++ b ++ c).
Proof.
  intros (x & y & ->). exists (a ++ x), (y ++ c).
  now rewrite <- !app_assoc.
Qed.

Lemma has_trailing_comma_inside (a b c : str) :
  has_trailing_comma b -> has_trailing_comma (a ++ b ++ c).
Proof.
  intros (x & y & -> & (w & d & r & -> & Hw & Hd)).
  exists (a ++ x), ((c_comma :: w ++ d :: r) ++ c). split.
  - now rewrite <- !app_assoc.
  - exists w, d, (r ++ c). repeat split; auto.
    cbn [app]. now rewrite <- app_assoc.
Qed.

Lemma spaces_no_char (c : char) (w : str) :
  is_space c = false -> forallb is_space w = true -> ~ In c w.
Proof.
  intros Hc Hw Hin. rewrite forallb_forall in Hw.
  apply Hw in Hin. congruence.
Qed.

Lemma not_in_app (c : char) (a b : str) :
  ~ In c a -> ~ In c b -> ~ In c (a ++ b).
Proof. intros Ha Hb H. apply in_app_or in H. tauto. Qed.

Lemma braced_has_lbrace (s : str) : braced s -> In c_lbrace s.
Proof. intros (body & ->). now left. Qed.

(** A valid, clean document that is an object, or that has no brace pair,
    is returned as [json.loads] reads it. *)
Lemma valid_json_candidate (lim : limits) (s : str) (v : json) :
  json_loads lim s = Return v ->
  ~ has_fence s -> ~ has_trailing_comma s ->
  is_object v \/ ~ brace_pair s ->
  json_loads lim (candidate_json s) = Return v.
Proof.
  intros Hv Hf Hc Hcase. apply json_loads_core in Hv.
  destruct Hv as (w1 & core & w2 & -> & Hw1 & Hw2 & Hh & Hl & Hcore & Hob & _).
  assert (Hfc : ~ has_fence core)
    by (intros H; now apply Hf, has_fence_inside).
  assert (Hcc : ~ has_trailing_comma core)
    by (intros H; now apply Hc, has_trailing_comma_inside).
  specialize (Hcore lim (allows_refl lim)).
  destruct Hcase as [Ho|Hnp].
  - rewrite candidate_json_core; auto.
    + apply spaces_no_char; [reflexivity|now apply json_ws_are_spaces].
    + apply spaces_no_char; [reflexivity|now apply json_ws_are_spaces].
  - rewrite candidate_json_whole by assumption.
    rewrite re_sub_fence_none by assumption.
    rewrite strip_core; auto using json_ws_are_spaces.
    now rewrite re_sub_comma_none.
Qed.

(** *** Valid JSON without wrapping *)

(** C1, as stated, fails: an array of objects is valid JSON, but the
    candidate runs from the first [{] to the last [}] and is rejected. *)
Lemma valid_json_array_not_extracted :
  json_loads default_limits (py "[{'a':1},{'b':2}]")
  = Return (JArr [JObj [(ustr "a", JInt 1)]; JObj [(ustr "b", JInt 2)]])
  /\ extract_and_parse_json st_returns default_limits
       (py "[{'a':1},{'b':2}]") []
     = (Return None, decode_failure (py "[{'a':1},{'b':2}]")).
Proof. split; vm_compute; reflexivity. Qed.

(** C1 (amended): for every input that is a valid JSON document, contains
    no code-fence marker and no comma followed (after optional whitespace)
    by a closing brace or bracket, and is an object or has no opening brace
    with a closing brace after it, extraction returns the value that
    [json.loads] gives for that very text, and renders nothing; this
    holds whatever the calls of Streamlit do and whatever the interpreter
    allows, as long as [json.loads] returns. *)
Theorem valid_json_extracted (st : streamlit) (lim : limits) (s : str)
    (v : json) (ui : page) :
  json_loads lim s = Return v ->
  contains fence s = false -> trailing_comma s = false ->
  is_object v \/ ~ brace_pair s ->
  extract_and_parse_json st lim s ui = (Return (Some v), ui).
Proof.
  intros Hv Hf Hc Hcase. apply extract_with_return.
  apply valid_json_candidate; auto using no_fence, no_trailing_comma.
Qed.

Lemma valid_json_extracted_witness :
  json_loads default_limits (py " {'a': [1, 2]} ")
  = Return (JObj [(ustr "a", JArr [JInt 1; JInt 2])])
  /\ extract_and_parse_json st_returns default_limits
       (py " {'a': [1, 2]} ") []
     = (Return (Some (JObj [(ustr "a", JArr [JInt 1; JInt 2])])), []).
Proof.
  split; [vm_compute; reflexivity|].
  apply valid_json_extracted.
  - vm_compute; reflexivity.
  - vm_compute; reflexivity.
  - vm_compute; reflexivity.
  - left. eexists. reflexivity.
Defined.

(** *** An object inside a fence, with prose around it *)

(** C2, as stated, fails: prose after the fence that has braces of its own
    is taken into the candidate. *)
Lemma fenced_object_with_braces_in_prose :
  json_loads default_limits (py "{'a':1}")
  = Return (JObj [(ustr "a", JInt 1)])
  /\ extract_and_parse_json st_returns default_limits
       (ustr "Here is your plan:" ++ newline ++ fence ++ ustr "json"
        ++ newline ++ py "{'a':1}" ++ newline ++ fence ++ newline
        ++ ustr "Use {} wisely") []
     = (Return None,
        decode_failure
          (ustr "Here is your plan:" ++ newline ++ fence ++ ustr "json"
           ++ newline ++ py "{'a':1}" ++ newline ++ fence ++ newline
           ++ ustr "Use {} wisely")).
Proof. split; vm_compute; reflexivity. Qed.

(** C2 (amended): for every valid JSON object text [obj] (from its [{] to
    its [}]) that contains no code-fence marker and no comma followed by a
    closer, wrapped in a fence with or without the [json] tag, with leading
    prose that has no [{] and trailing prose that has no [}], extraction
    returns what [json.loads] gives for [obj], whatever the calls of
    Streamlit do and whatever the interpreter allows. *)
Theorem fenced_object_extracted (st : streamlit) (lim : limits)
    (prose1 tag ws1 obj ws2 prose2 : str) (v : json) (ui : page) :
  tag = [] \/ tag = ustr "json" ->
  forallb is_space ws1 = true -> forallb is_space ws2 = true ->
  braced obj -> json_loads lim obj = Return v ->
  ~ In c_lbrace prose1 -> ~ In c_rbrace prose2 ->
  contains fence obj = false -> trailing_comma obj = false ->
  extract_and_parse_json st lim
    (prose1 ++ fence ++ tag ++ ws1 ++ obj ++ ws2 ++ fence ++ prose2) ui
  = (Return (Some v), ui).
Proof.
  intros Htag Hw1 Hw2 Hb Hv Hp1 Hp2 Hf Hc. apply extract_with_return.
  replace (prose1 ++ fence ++ tag ++ ws1 ++ obj ++ ws2 ++ fence ++ prose2)
    with ((prose1 ++ fence ++ tag ++ ws1) ++ obj ++ (ws2 ++ fence ++ prose2))
    by (now rewrite <- !app_assoc).
  rewrite candidate_json_core; auto using no_fence, no_trailing_comma.
  - repeat apply not_in_app; auto.
    + intros [H|[H|[H|[]]]]; discriminate.
    + destruct Htag as [->| ->]; [intros []|].
      intros [H|[H|[H|[H|[]]]]]; discriminate.
    + now apply spaces_no_char.
  - repeat apply not_in_app; auto.
    + now apply spaces_no_char.
    + intros [H|[H|[H|[]]]]; discriminate.
Qed.

Lemma fenced_object_extracted_witness :
  json_loads default_limits (py "{'a':1}")
  = Return (JObj [(ustr "a", JInt 1)])
  /\ extract_and_parse_json st_returns default_limits
       (ustr "Here is your plan:" ++ fence ++ ustr "json" ++ newline
        ++ py "{'a':1}" ++ newline ++ fence ++ ustr "Enjoy!") []
     = (Return (Some (JObj [(ustr "a", JInt 1)])), []).
Proof.
  split; [vm_compute; reflexivity|].
  apply fenced_object_extracted.
  - right. reflexivity.
  - reflexivity.
  - reflexivity.
  - exists (py "'a':1"). reflexivity.
  - vm_compute; reflexivity.
  - vm_compute. intros H.
    repeat (destruct H as [H|H]; [discriminate H|]). exact H.
  - vm_compute. intros H.
    repeat (destruct H as [H|H]; [discriminate H|]). exact H.
  - vm_compute; reflexivity.
  - vm_compute; reflexivity.
Defined.

(** *** One trailing comma *)

(** C3, as stated, fails: the repair also deletes a comma that stands
    before a closer inside a string value. *)
Lemma trailing_comma_inside_string :
  json_loads default_limits (py "{'a':',}'}")
  = Return (JObj [(ustr "a", JStr (ustr ",}"))])
  /\ extract_and_parse_json st_returns default_limits (py "{'a':',}',}") []
     = (Return (Some (JObj [(ustr "a", JStr (ustr "}"))])), []).
Proof. split; vm_compute; reflexivity. Qed.

(** C3 (amended): for any input whose candidate (the text from the first
    [{] to the last [}]) is a JSON object that is valid except for a single
    comma before a closing brace or bracket, possibly with whitespace in
    between, and that has no code-fence marker and, that comma apart, no
    comma followed by optional whitespace and a closer anywhere in its
    text (in a key as well as in a string value), extraction returns what
    [json.loads] gives for the candidate with that comma deleted, whatever
    the calls of Streamlit do and whatever the interpreter allows. *)
Theorem trailing_comma_repaired (st : streamlit) (lim : limits)
    (p1 t1 w : str) (c : char) (t2 p2 : str) (v : json) (ui : page) :
  braced (t1 ++ c_comma :: w ++ c :: t2) ->
  ~ In c_lbrace p1 -> ~ In c_rbrace p2 ->
  forallb is_space w = true -> is_closer c = true ->
  contains fence (t1 ++ c_comma :: w ++ c :: t2) = false ->
  trailing_comma (t1 ++ w ++ c :: t2) = false ->
  json_loads lim (t1 ++ w ++ c :: t2) = Return v ->
  extract_and_parse_json st lim
    (p1 ++ (t1 ++ c_comma :: w ++ c :: t2) ++ p2) ui
  = (Return (Some v), ui).
Proof.
  intros Hb Hp1 Hp2 Hw Hc Hf Hclean Hv. apply extract_with_return.
  rewrite candidate_json_repair; auto using no_fence, no_trailing_comma.
Qed.

Lemma trailing_comma_repaired_witness :
  json_loads default_limits (py "{'a':1,'b':[1,2]" ++ [] ++ c_rbrace :: [])
  = Return scenario_plan
  /\ extract_and_parse_json st_returns default_limits
       (ustr "Plan: "
        ++ (py "{'a':1,'b':[1,2]" ++ c_comma :: [] ++ c_rbrace :: [])
        ++ ustr " Enjoy!") []
     = (Return (Some scenario_plan), []).
Proof.
  split; [vm_compute; reflexivity|].
  apply trailing_comma_repaired.
  - exists (py "'a':1,'b':[1,2],"). reflexivity.
  - vm_compute. intros H.
    repeat (destruct H as [H|H]; [discriminate H|]). exact H.
  - vm_compute. intros H.
    repeat (destruct H as [H|H]; [discriminate H|]). exact H.
  - reflexivity.
  - reflexivity.
  - vm_compute; reflexivity.
  - vm_compute; reflexivity.
  - vm_compute; reflexivity.
Defined.

(** *** The scenario *)

(** C4: on the scenario input, extraction returns the object with [a] = 1
    and [b] = [1, 2], and renders nothing, whatever the calls of Streamlit
    do and whatever the limit on digits is, in an interpreter with room
    for the two nested values of the object. *)
Theorem scenario_extracted (st : streamlit) (lim : limits) (ui : page) :
  2 <= recursion_room lim ->
  extract_and_parse_json st lim scenario_input ui
  = (Return (Some scenario_plan), ui).
Proof.
  intros Hroom. apply extract_with_return.
  apply (json_loads_allows (mkLimits 1 2)).
  - vm_compute. reflexivity.
  - split; [|exact Hroom]. cbn [int_max_str_digits]. unfold digits_allow.
    destruct (int_max_str_digits lim); [now left|right; lia].
Qed.

Lemma scenario_extracted_witness :
  2 <= recursion_room default_limits
  /\ extract_and_parse_json st_returns default_limits scenario_input []
     = (Return (Some scenario_plan), []).
Proof.
  assert (H : 2 <= recursion_room default_limits) by (cbn; lia).
  split; [exact H|].
  exact (scenario_extracted st_returns default_limits [] H).
Defined.

(** *** Inputs without an opening brace *)


(** Nor is the raw input always shown with a failure: an integer of 4301
    digits is refused by [int] under the default limit, which is not a
    [JSONDecodeError]. *)
Lemma long_integer_not_shown :
  extract_and_parse_json st_returns default_limits (repeat (ch "9") 4301) []
  = (Return None, processing_failure ValueError).
Proof. vm_compute. reflexivity. Qed.





(** *** Determinism *)

(** C6, as stated, fails: the result depends on the interpreter besides
    the text. Where four nested values can be entered the text below is
    extracted; where the call stack leaves room for three only, the same
    text gives [None]. *)
Lemma extraction_depends_on_interpreter :
  extracted st_returns (mkLimits 4300 4) (py "{'a': [[[1]]]}")
  = Return (Some (JObj [(ustr "a", JArr [JArr [JArr [JInt 1]]])]))
  /\ extracted st_returns (mkLimits 4300 3) (py "{'a': [[[1]]]}")
     = Return None.
Proof. split; vm_compute; reflexivity. Qed.

Lemma extract_with_value (st : streamlit) (loads : str -> outcome json)
    (raw : str) (ui ui' : page) (v : json) :
  extract_with st loads raw ui = (Return (Some v), ui') ->
  loads (candidate_json raw) = Return v /\ ui' = ui.
Proof.
  unfold extract_with. destruct (loads (candidate_json raw)) as [v0|e].
  - intros [= -> ->]. auto.
  - cbn [try_except]. destruct (isinstance e cls_JSONDecodeError).
    + unfold on_decode_error.
      destruct (render st _ ui) as [[[]|e1] ui1]; [|discriminate].
      destruct (render st _ ui1) as [[[]|e2] ui2]; discriminate.
    + cbn [isinstance]. unfold on_exception.
      destruct (render st _ ui) as [[[]|e1] ui1]; discriminate.
Qed.

(** C6 (amended): extraction keeps no state of its own, but its result
    depends on the interpreter besides the text: on the room the call
    stack leaves for nested values and on the limit on the digits of an
    integer. In one interpreter, with calls of Streamlit that return, two
    runs on the same text return the same value and append the same
    elements, on whatever pages. Across interpreters and whatever
    Streamlit does, two runs that both return a value return the same
    value and render nothing, and what one interpreter extracts, every
    interpreter that allows as much extracts too. *)
Theorem extraction_deterministic :
  (forall (st : streamlit) (lim : limits) (raw : str) (ui1 ui2 : page),
     renders st ->
     fst (extract_and_parse_json st lim raw ui1)
     = fst (extract_and_parse_json st lim raw ui2)
     /\ exists rendered,
          snd (extract_and_parse_json st lim raw ui1) = ui1 ++ rendered
          /\ snd (extract_and_parse_json st lim raw ui2) = ui2 ++ rendered)
  /\ (forall (st1 st2 : streamlit) (lim1 lim2 : limits) (raw : str)
        (ui1 ui2 ui1' ui2' : page) (v1 v2 : json),
        extract_and_parse_json st1 lim1 raw ui1 = (Return (Some v1), ui1') ->
        extract_and_parse_json st2 lim2 raw ui2 = (Return (Some v2), ui2') ->
        v1 = v2 /\ ui1' = ui1 /\ ui2' = ui2)
  /\ (forall (st1 st2 : streamlit) (lim1 lim2 : limits) (raw : str)
        (ui1 ui1' ui2 : page) (v : json),
        allows lim1 lim2 ->
        extract_and_parse_json st1 lim1 raw ui1 = (Return (Some v), ui1') ->
        extract_and_parse_json st2 lim2 raw ui2 = (Return (Some v), ui2)).
Proof.
  split; [|split].
  - intros st lim raw ui1 ui2 Hst.
    unfold extract_and_parse_json, extract_with.
    destruct (json_loads lim (candidate_json raw)) as [v|e].
    + split; [reflexivity|]. exists []. now rewrite !app_nil_r.
    + destruct e; cbn [try_except isinstance];
        unfold on_decode_error, on_exception, render; rewrite ?Hst;
        cbn [fst snd]; (split; [reflexivity|]);
        eexists; rewrite <- ?app_assoc; split; reflexivity.
  - intros st1 st2 lim1 lim2 raw ui1 ui2 ui1' ui2' v1 v2 H1 H2.
    apply extract_with_value in H1, H2.
    destruct H1 as (H1 & ->), H2 as (H2 & ->).
    split; [|auto]. exact (json_loads_agree _ _ _ _ _ H1 H2).
  - intros st1 st2 lim1 lim2 raw ui1 ui1' ui2 v Ha H1.
    apply extract_with_value in H1. destruct H1 as (H1 & _).
    apply extract_with_return. now apply (json_loads_allows lim1).
Qed.

Lemma extraction_deterministic_witness :
  renders st_returns
  /\ fst (extract_and_parse_json st_returns default_limits (ustr "oops") [])
     = fst (extract_and_parse_json st_returns default_limits (ustr "oops")
              (decode_failure []))
  /\ allows (mkLimits 4300 4) default_limits
  /\ extract_and_parse_json st_returns default_limits (py "{'a': [[[1]]]}")
       []
     = (Return (Some (JObj [(ustr "a", JArr [JArr [JArr [JInt 1]]])])), []).
Proof.
  assert (Hst : renders st_returns) by (intros ui el; reflexivity).
  assert (Ha : allows (mkLimits 4300 4) default_limits).
  { split; cbn; [right|]; lia. }
  split; [exact Hst|]. split; [|split; [exact Ha|]].
  - exact (proj1 (proj1 extraction_deterministic st_returns default_limits
                    (ustr "oops") [] (decode_failure []) Hst)).
  - apply (proj2 (proj2 extraction_deterministic) st_returns st_returns
             (mkLimits 4300 4) default_limits _ [] [] [] _ Ha).
    vm_compute. reflexivity.
Defined.

(** *** No exception leaves the function *)




(** *** A success need not be an object *)

Lemma allows_least (lim : limits) (n : nat) :
  n <= recursion_room lim -> allows (mkLimits 1 n) lim.
Proof.
  intros Hn. split; [|exact Hn]. cbn [int_max_str_digits].
  unfold digits_allow.
  destruct (int_max_str_digits lim); [now left|right; lia].
Qed.

(** C10, as stated, fails on a scalar whose text has a comma before a
    closer: the value returned is not the value of the text. *)
Lemma scalar_with_comma_before_closer :
  ~ In c_lbrace (py "',]'")
  /\ json_loads default_limits (py "',]'") = Return (JStr (ustr ",]"))
  /\ extract_and_parse_json st_returns default_limits (py "',]'") []
     = (Return (Some (JStr (ustr "]"))), []).
Proof.
  split; [|split; vm_compute; reflexivity].
  vm_compute. intros H. repeat (destruct H as [H|H]; [discriminate H|]).
  exact H.
Qed.

(** C10 (amended): a successful extraction need not yield an object: for
    every input with no [{] whose entire text parses as JSON and has no
    code-fence marker and no comma followed by a closer, extraction returns
    that value as a success, and the value is not an object, whatever the
    calls of Streamlit do and whatever the interpreter allows; [42] and,
    where the interpreter has room for one nested value, [[1,2]] are such
    inputs. *)
Theorem non_object_success :
  (forall (st : streamlit) (lim : limits) (raw : str) (v : json)
     (ui : page),
     ~ In c_lbrace raw -> json_loads lim raw = Return v ->
     contains fence raw = false -> trailing_comma raw = false ->
     extract_and_parse_json st lim raw ui = (Return (Some v), ui)
     /\ ~ is_object v)
  /\ (forall st lim ui,
        extract_and_parse_json st lim (ustr "42") ui
        = (Return (Some (JInt 42)), ui))
  /\ (forall st lim ui, 1 <= recursion_room lim ->
        extract_and_parse_json st lim (ustr "[1,2]") ui
        = (Return (Some (JArr [JInt 1; JInt 2])), ui)).
Proof.
  split; [|split].
  - intros st lim raw v ui Hn Hv Hf Hc. split.
    + apply extract_with_return.
      apply valid_json_candidate; auto using no_fence, no_trailing_comma.
      right. now apply no_lbrace_no_pair.
    + intros Ho. apply json_loads_core in Hv.
      destruct Hv as (w1 & core & w2 & -> & _ & _ & _ & _ & _ & Hob & _).
      apply Hn. apply in_or_app. right. apply in_or_app. left.
      now apply braced_has_lbrace, Hob.
  - intros st lim ui. apply extract_with_return.
    apply (json_loads_allows (mkLimits 1 0));
      [vm_compute; reflexivity|apply allows_least; cbn; lia].
  - intros st lim ui Hroom. apply extract_with_return.
    apply (json_loads_allows (mkLimits 1 1));
      [vm_compute; reflexivity|now apply allows_least].
Qed.

Lemma non_object_success_witness :
  ~ In c_lbrace (ustr " [1, 2] ")
  /\ json_loads default_limits (ustr " [1, 2] ")
     = Return (JArr [JInt 1; JInt 2])
  /\ extract_and_parse_json st_returns default_limits (ustr " [1, 2] ") []
     = (Return (Some (JArr [JInt 1; JInt 2])), [])
  /\ ~ is_object (JArr [JInt 1; JInt 2]).
Proof.
  assert (H : ~ In c_lbrace (ustr " [1, 2] ")).
  { vm_compute. intros H. repeat (destruct H as [H|H]; [discriminate H|]).
    exact H. }
  assert (Hv : json_loads default_limits (ustr " [1, 2] ")
               = Return (JArr [JInt 1; JInt 2]))
    by (vm_compute; reflexivity).
  split; [exact H|]. split; [exact Hv|].
  apply (proj1 non_object_success st_returns default_limits
           (ustr " [1, 2] ") _ [] H Hv);
    vm_compute; reflexivity.
Defined.

(* ===================================================================== *)
(** ** The prompt builder                                                  *)
(* ===================================================================== *)

Lemma emit_text_some (v : str) (r : option str) (x : str) :
  emit_text v r = Some x -> exists t, r = Some t /\ x = v ++ t.
Proof. destruct r; simpl; [intros [= <-]; eauto|discriminate]. Qed.

Lemma emit_some (c : char) (r : option str) (x : str) :
  emit c r = Some x -> exists t, r = Some t /\ x = c :: t.
Proof. destruct r; simpl; [intros [= <-]; eauto|discriminate]. Qed.

Lemma emit_text_app (v t : str) (r : option str) :
  emit_text (v ++ t) r = emit_text v (emit_text t r).
Proof. destruct r; simpl; [now rewrite app_assoc|reflexivity]. Qed.

Lemma emit_text_cons (c : char) (t : str) (r : option str) :
  emit_text (c :: t) r = emit c (emit_text t r).
Proof. destruct r; reflexivity. Qed.

Lemma emit_text_nil (r : option str) : emit_text [] r = r.
Proof. destruct r; reflexivity. Qed.

(** Formatting is compositional: a template part that formats on its own
    formats the same way in front of any other part. *)
Lemma format_from_app_bounded (env : list (str * str)) (n : nat) :
  forall a field x b, length a < n ->
    format_from env field a = Some x ->
    format_from env field (a ++ b) = emit_text x (format_from env None b).
Proof.
  induction n as [|n IH]; intros a field x b Hlen H; [lia|].
  destruct a as [|c t].
  { destruct field; [discriminate|]. injection H as <-.
    cbn [app]. now rewrite emit_text_nil. }
  cbn [app format_from] in *. destruct field as [key|].
  - destruct (N.eqb c c_rbrace).
    + destruct (lookup (rev key) env) as [v|]; [|discriminate].
      apply emit_text_some in H. destruct H as (x' & H & ->).
      rewrite (IH t None x' b) by (simpl in Hlen; lia || exact H).
      now rewrite emit_text_app.
    + apply IH; [simpl in Hlen; lia|exact H].
  - destruct (N.eqb c c_lbrace).
    { destruct t as [|c2 t2]; [discriminate|]. cbn [app].
      destruct (N.eqb c2 c_lbrace).
      - apply emit_some in H. destruct H as (x' & H & ->).
        rewrite (IH t2 None x' b) by (simpl in Hlen; lia || exact H).
        now rewrite emit_text_cons.
      - apply (IH (c2 :: t2)); [simpl in *; lia|exact H]. }
    destruct (N.eqb c c_rbrace).
    { destruct t as [|c2 t2]; [discriminate|]. cbn [app].
      destruct (N.eqb c2 c_rbrace); [|discriminate].
      apply emit_some in H. destruct H as (x' & H & ->).
      rewrite (IH t2 None x' b) by (simpl in Hlen; lia || exact H).
      now rewrite emit_text_cons. }
    apply emit_some in H. destruct H as (x' & H & ->).
    rewrite (IH t None x' b) by (simpl in Hlen; lia || exact H).
    now rewrite emit_text_cons.
Qed.

Lemma format_from_app (env : list (str * str)) (a x b : str) :
  format_from env None a = Some x ->
  format_from env None (a ++ b) = emit_text x (format_from env None b).
Proof. apply (format_from_app_bounded env (S (length a))). lia. Qed.

(** The template, cut at the two occurrences of the duration field. *)
Lemma prompt_template_parts :
  prompt_template
  = prompt_head ++ ustr "{duration}" ++ day_phrase ++ template_middle
    ++ plan_duration_label ++ ustr "{duration}" ++ template_tail.
Proof. vm_compute. reflexivity. Qed.

Lemma format_duration_field (p : UserProfile) (timestamp : str) :
  format_from (template_variables p timestamp) None (ustr "{duration}")
  = Some (decimal (duration p)).
Proof.
  cbn [ustr list_ascii_of_string map format_from].
  vm_compute (ch _). cbn [N.eqb Pos.eqb c_lbrace c_rbrace format_from].
  cbn -[decimal]. now rewrite app_nil_r.
Qed.

Lemma format_fixed_parts (env : list (str * str)) :
  format_from env None prompt_head = Some prompt_head
  /\ format_from env None day_phrase = Some day_phrase
  /\ format_from env None plan_duration_label = Some plan_duration_label.
Proof. repeat split; vm_compute; reflexivity. Qed.

Lemma format_middle (p : UserProfile) (timestamp : str) (d : N) :
  format_from (template_variables (with_duration p d) timestamp) None
    template_middle
  = Some (prompt_middle p timestamp).
Proof. destruct p. vm_compute. reflexivity. Qed.

Lemma format_tail (p : UserProfile) (timestamp : str) (d : N) :
  format_from (template_variables (with_duration p d) timestamp) None
    template_tail
  = Some (prompt_tail p timestamp).
Proof. destruct p. vm_compute. reflexivity. Qed.

Lemma format_from_parts (env : list (str * str))
    (a1 a2 a3 a4 a5 a6 a7 x1 x2 x3 x4 x5 x6 x7 : str) :
  format_from env None a1 = Some x1 -> format_from env None a2 = Some x2 ->
  format_from env None a3 = Some x3 -> format_from env None a4 = Some x4 ->
  format_from env None a5 = Some x5 -> format_from env None a6 = Some x6 ->
  format_from env None a7 = Some x7 ->
  format_from env None (a1 ++ a2 ++ a3 ++ a4 ++ a5 ++ a6 ++ a7)
  = Some (x1 ++ x2 ++ x3 ++ x4 ++ x5 ++ x6 ++ x7).
Proof.
  intros H1 H2 H3 H4 H5 H6 H7.
  rewrite (format_from_app env _ _ _ H1), (format_from_app env _ _ _ H2),
    (format_from_app env _ _ _ H3), (format_from_app env _ _ _ H4),
    (format_from_app env _ _ _ H5), (format_from_app env _ _ _ H6), H7.
  reflexivity.
Qed.

(** The prompt for any duration: the duration stands right after the head
    and right after the metadata key, and nowhere else does the text depend
    on it. *)
Lemma format_prompt_with_duration (p : UserProfile) (timestamp : str) (d : N) :
  format_prompt (with_duration p d) timestamp
  = Some (prompt_head ++ decimal d ++ day_phrase
          ++ prompt_middle p timestamp
          ++ plan_duration_label ++ decimal d ++ prompt_tail p timestamp).
Proof.
  unfold format_prompt. rewrite prompt_template_parts.
  destruct (format_fixed_parts
              (template_variables (with_duration p d) timestamp))
    as (Hh & Hd & Hl).
  pose proof (format_duration_field (with_duration p d) timestamp) as Hf.
  cbn [duration with_duration] in Hf.
  exact (format_from_parts _ _ _ _ _ _ _ _ _ _ _ _ _ _ _
           Hh Hf Hd (format_middle p timestamp d) Hl Hf
           (format_tail p timestamp d)).
Qed.

Lemma with_duration_same (p : UserProfile) :
  with_duration p (duration p) = p.
Proof. now destruct p. Qed.

(** C8: for a profile whose plan duration is 14, the prompt has the text
    [14] right before [-day diet plan] and right after the metadata key
    [plan_duration]; these two places hold the duration whatever it is,
    and the text between and after them does not depend on it, so they are
    not the places of age, weight or height. *)
Theorem prompt_duration_labelled (p : UserProfile) (timestamp : str) :
  duration p = 14%N ->
  exists mid tail,
    format_prompt p timestamp
    = Some (prompt_head ++ ustr "14" ++ day_phrase ++ mid
            ++ plan_duration_label ++ ustr "14" ++ tail)
    /\ forall d,
         format_prompt (with_duration p d) timestamp
         = Some (prompt_head ++ decimal d ++ day_phrase ++ mid
                 ++ plan_duration_label ++ decimal d ++ tail).
Proof.
  intros Hd. exists (prompt_middle p timestamp), (prompt_tail p timestamp).
  split; [|intros d; apply format_prompt_with_duration].
  rewrite <- (with_duration_same p) at 1. rewrite Hd.
  apply (format_prompt_with_duration p timestamp 14).
Qed.

Lemma prompt_duration_labelled_witness :
  duration sample_profile = 14%N
  /\ exists mid tail,
       format_prompt sample_profile (ustr "2024-05-01T10:30:00")
       = Some (prompt_head ++ ustr "14" ++ day_phrase ++ mid
               ++ plan_duration_label ++ ustr "14" ++ tail)
       /\ forall d,
            format_prompt (with_duration sample_profile d)
              (ustr "2024-05-01T10:30:00")
            = Some (prompt_head ++ decimal d ++ day_phrase ++ mid
                    ++ plan_duration_label ++ decimal d ++ tail).
Proof.
  split; [reflexivity|].
  apply (prompt_duration_labelled sample_profile). reflexivity.
Defined.

(* ===================================================================== *)
(** ** Export                                                              *)
(* ===================================================================== *)

(** *** Escapes *)




(** Bits: a multiple of [2^k] and a number below [2^k] do not overlap. *)
Lemma lor_high_low (a b k : N) :
  (b < 2 ^ k)%N -> N.lor (a * 2 ^ k) b = (a * 2 ^ k + b)%N.
Proof.
  intros Hb.
  assert (Hl : N.land (a * 2 ^ k) b = 0%N).
  { apply N.bits_inj. intros i. rewrite N.land_spec, N.bits_0.
    destruct (N.lt_ge_cases i k) as [Hi|Hi].
    - rewrite <- N.shiftl_mul_pow2, N.shiftl_spec_low by assumption.
      reflexivity.
    - replace b with (b mod 2 ^ k)%N by now apply N.mod_small.
      rewrite N.mod_pow2_bits_high by assumption. apply andb_false_r. }
  rewrite <- N.lxor_lor by assumption.
  symmetry. now apply N.add_nocarry_lxor.
Qed.

(** The surrogate pair of a character above the basic plane. *)
Lemma astral_pair (c : char) :
  (65536 <= c)%N -> (c <= 1114111)%N ->
  N.lor 55296 (N.land (N.shiftr (c - 65536) 10) 1023)
  = (55296 + (c - 65536) / 1024)%N
  /\ N.lor 56320 (N.land (c - 65536) 1023)
     = (56320 + (c - 65536) mod 1024)%N
  /\ ((c - 65536) / 1024 < 1024)%N
  /\ ((c - 65536) mod 1024 < 1024)%N.
Proof.
  intros H1 H2. set (n := (c - 65536)%N).
  assert (Hn : (n < 1024 * 1024)%N) by (unfold n; lia).
  assert (Hq : (n / 1024 < 1024)%N)
    by (apply N.Div0.div_lt_upper_bound; exact Hn).
  assert (Hr : (n mod 1024 < 1024)%N) by (apply N.mod_lt; discriminate).
  change 1023%N with (N.ones 10). rewrite !N.land_ones, N.shiftr_div_pow2.
  change (2 ^ 10)%N with 1024%N.
  rewrite (N.mod_small (n / 1024) 1024 Hq).
  repeat split; auto.
  - apply (lor_high_low 54 (n / 1024) 10). exact Hq.
  - apply (lor_high_low 55 (n mod 1024) 10). exact Hr.
Qed.


Lemma is_high_range (u : N) :
  is_high_surrogate u = true <-> (55296 <= u <= 56319)%N.
Proof.
  unfold is_high_surrogate. rewrite andb_true_iff, !N.leb_le. tauto.
Qed.

Lemma is_low_range (u : N) :
  is_low_surrogate u = true <-> (56320 <= u <= 57343)%N.
Proof.
  unfold is_low_surrogate. rewrite andb_true_iff, !N.leb_le. tauto.
Qed.




(** *** Strings come back *)



(** *** Integers come back *)

Lemma string_of_uint_chars (d : Decimal.uint) :
  ustr (NilEmpty.string_of_uint d) = uint_chars d.
Proof.
  induction d; cbn [NilEmpty.string_of_uint uint_chars]; [reflexivity|..];
    unfold ustr in *; cbn [list_ascii_of_string map]; now rewrite IHd.
Qed.

Lemma decimal_chars (n : N) :
  decimal n = match n with
              | N0 => [48%N]
              | Npos p => uint_chars (Pos.to_uint p)
              end.
Proof.
  destruct n as [|p]; [reflexivity|]. unfold decimal. cbn [N.to_uint].
  pose proof (DecimalPos.Unsigned.to_uint_nonnil p) as Hn.
  rewrite <- string_of_uint_chars. unfold NilZero.string_of_uint.
  now destruct (Pos.to_uint p).
Qed.

Lemma uint_chars_digits (d : Decimal.uint) :
  forallb is_digit (uint_chars d) = true.
Proof. induction d; cbn; auto. Qed.











(** *** Dictionaries *)

Lemma str_eqb_eq (a b : str) : str_eqb a b = true <-> a = b.
Proof.
  revert b. induction a as [|x a IH]; intros [|y b]; simpl;
    try (split; [discriminate|discriminate]); [tauto|].
  rewrite andb_true_iff, N.eqb_eq, IH. split.
  - intros [-> ->]. reflexivity.
  - intros [= -> ->]. auto.
Qed.




(** *** Induction on values *)

Lemma json_induction (P : json -> Prop) :
  P JNull -> (forall b, P (JBool b)) -> (forall z, P (JInt z)) ->
  (forall t, P (JFloat t)) -> (forall c, P (JConst c)) ->
  (forall s, P (JStr s)) ->
  (forall l, Forall P l -> P (JArr l)) ->
  (forall d, Forall (fun kv => P (snd kv)) d -> P (JObj d)) ->
  forall v, P v.
Proof.
  intros Hn Hb Hi Hf Hc Hs Ha Ho. fix IH 1.
  intros v. destruct v as [|b|z|t|c|s|l|d].
  - exact Hn.
  - apply Hb.
  - apply Hi.
  - apply Hf.
  - apply Hc.
  - apply Hs.
  - apply Ha. induction l as [|x l IHl]; constructor; [apply IH|exact IHl].
  - apply Ho.
    induction d as [|[k x] d IHd]; constructor; [apply IH|exact IHd].
Qed.

(** *** Whitespace and heads *)


Lemma sep_newline_indent (level : nat) (t : str) :
  sep (newline_indent level ++ t).
Proof. reflexivity. Qed.


(** *** Floats *)

(** The text a number was matched on is the text of its three groups. *)
Lemma number_text (s : str) (m : number_match) :
  match_number s = Some m ->
  s = n_integer m ++ opt_text (n_frac m) ++ opt_text (n_exp m) ++ n_end m.
Proof.
  unfold match_number.
  destruct (match_integer s) as [[i r]|] eqn:Hi; [|discriminate].
  destruct (match_frac r) as [f r1] eqn:Hf.
  destruct (match_exp r1) as [e r2] eqn:He.
  intros [= <-]. cbn [n_end n_integer n_frac n_exp].
  apply match_integer_stable in Hi. destruct Hi as (-> & _).
  apply match_frac_stable in Hf. apply match_exp_stable in He.
  destruct Hf as [(-> & ->)|(ft & -> & -> & _)];
    destruct He as [(-> & ->)|(et & -> & -> & _)];
    cbn [opt_text app]; rewrite <- ?app_assoc; reflexivity.
Qed.

Section RoundTrip.

Variable F : Type.
Variable float : str -> F.
Variable floatstr : F -> str.

Hypothesis floatstr_text : forall f, float_text (floatstr f).
Hypothesis floatstr_float : forall f, float (floatstr f) = f.

(** The limit on the digits of an integer where the export is read. *)
Variable L : N.


(** *** Values come back *)

Lemma iterencode_arr (level : nat) (x : json) (xs : list json) :
  iterencode F float floatstr level (JArr (x :: xs))
  = c_lbracket :: newline_indent (S level)
    ++ iterencode F float floatstr (S level) x
    ++ more_items F float floatstr level xs.
Proof.
  cbn [iterencode]. do 3 f_equal.
  induction xs as [|y xs IH]; [reflexivity|].
  cbn [more_items]. now rewrite IH.
Qed.

Lemma iterencode_obj (level : nat) (k : str) (x : json)
    (d : list (str * json)) :
  iterencode F float floatstr level (JObj ((k, x) :: d))
  = c_lbrace :: newline_indent (S level) ++ encode_basestring_ascii k
    ++ ustr ": " ++ iterencode F float floatstr (S level) x
    ++ more_pairs F float floatstr level d.
Proof.
  cbn [iterencode]. do 5 f_equal.
  induction d as [|[k' y] d IH]; [reflexivity|].
  cbn [more_pairs]. now rewrite IH.
Qed.












End RoundTrip.

(** *** What the decoder builds *)

Lemma valid_app (a b : str) : valid (a ++ b) <-> valid a /\ valid b.
Proof. unfold valid. rewrite forallb_app. apply andb_true_iff. Qed.

Lemma valid_cons (c : char) (s : str) :
  valid (c :: s) <-> (c <= 1114111)%N /\ valid s.
Proof.
  unfold valid, valid_char. cbn [forallb].
  now rewrite andb_true_iff, N.leb_le.
Qed.

Lemma valid_suffix (pre r : str) : valid (pre ++ r) -> valid r.
Proof. intros H. now apply valid_app in H. Qed.

Lemma valid_skip_ws (s : str) : valid s -> valid (skip_ws s).
Proof.
  destruct (skip_ws_split s) as (w & Hs & _). intros H.
  rewrite Hs in H. now apply valid_suffix in H.
Qed.

Lemma valid_skipn (k : nat) (s : str) : valid s -> valid (skipn k s).
Proof.
  intros H. rewrite <- (firstn_skipn k s) in H. now apply valid_suffix in H.
Qed.

Lemma hex_val_lt (c : char) (n : N) : hex_val c = Some n -> (n < 16)%N.
Proof.
  unfold hex_val.
  destruct ((48 <=? c) && (c <=? 57))%N eqn:H1.
  { apply andb_true_iff in H1. rewrite !N.leb_le in H1. intros [= <-]. lia. }
  destruct ((65 <=? c) && (c <=? 70))%N eqn:H2.
  { apply andb_true_iff in H2. rewrite !N.leb_le in H2. intros [= <-]. lia. }
  destruct ((97 <=? c) && (c <=? 102))%N eqn:H3; [|discriminate].
  apply andb_true_iff in H3. rewrite !N.leb_le in H3. intros [= <-]. lia.
Qed.

Lemma decode_uXXXX_lt (a b c d : char) (n : N) :
  decode_uXXXX a b c d = Some n -> (n < 65536)%N.
Proof.
  unfold decode_uXXXX.
  destruct (hex_val a) as [x|] eqn:Ha; [|discriminate].
  destruct (hex_val b) as [y|] eqn:Hb; [|discriminate].
  destruct (hex_val c) as [z|] eqn:Hc; [|discriminate].
  destruct (hex_val d) as [w|] eqn:Hd; [|discriminate].
  apply hex_val_lt in Ha, Hb, Hc, Hd. intros [= <-]. lia.
Qed.

Lemma backslash_table_lt (esc x : char) :
  backslash_table esc = Some x -> (x < 128)%N.
Proof.
  unfold backslash_table.
  repeat match goal with
         | |- context [if ?b then _ else _] => destruct b
         end; intros [= <-]; reflexivity.
Qed.

Lemma join_surrogates_le (hi lo : N) :
  is_high_surrogate hi = true -> is_low_surrogate lo = true ->
  (join_surrogates hi lo <= 1114111)%N.
Proof.
  intros Hh Hl. apply is_high_range in Hh. apply is_low_range in Hl.
  unfold join_surrogates.
  rewrite N.shiftl_mul_pow2, lor_high_low
    by (change (2 ^ 10)%N with 1024%N; lia).
  change (2 ^ 10)%N with 1024%N. lia.
Qed.

Ltac valid_step IH H Hv :=
  apply push_some in H; destruct H as (?x & H & ->);
  apply IH in H;
  [ apply valid_cons; split; [|exact H]
  | simpl in *; lia
  | repeat first [ exact Hv
                 | apply valid_cons in Hv; destruct Hv as [_ Hv] ] ].

(** The characters of a decoded string are code points. *)
Lemma scanstring_valid_bounded (n : nat) :
  forall s x r, length s < n -> scanstring s = Some (x, r) ->
                valid s -> valid x.
Proof.
  induction n as [|n IH]; intros s x r Hlen H Hv; [lia|].
  destruct s as [|c t]; [discriminate|]. rewrite scanstring_cons in H.
  destruct (N.eqb c c_quote).
  { injection H as <- <-. reflexivity. }
  destruct (N.eqb c c_backslash).
  2:{ destruct (c <=? 31)%N; [discriminate|].
      pose proof Hv as Hc. apply valid_cons in Hc. destruct Hc as [Hc _].
      valid_step IH H Hv. exact Hc. }
  destruct t as [|esc t1]; [discriminate|].
  destruct (N.eqb esc (ch "u")).
  2:{ destruct (backslash_table esc) as [y|] eqn:Hesc; [|discriminate].
      apply backslash_table_lt in Hesc.
      valid_step IH H Hv. lia. }
  destruct t1 as [|h1 [|h2 [|h3 [|h4 t2]]]]; try discriminate.
  destruct (decode_uXXXX h1 h2 h3 h4) as [uni|] eqn:Hd; [|discriminate].
  apply decode_uXXXX_lt in Hd.
  destruct (is_high_surrogate uni) eqn:Hhi.
  2:{ valid_step IH H Hv. lia. }
  destruct t2 as [|b [|u t3]].
  1,2: valid_step IH H Hv; lia.
  destruct (N.eqb b c_backslash && N.eqb u (ch "u"))%bool.
  2:{ valid_step IH H Hv. lia. }
  destruct t3 as [|g1 [|g2 [|g3 [|g4 t4]]]]; try discriminate.
  destruct (decode_uXXXX g1 g2 g3 g4) as [uni2|] eqn:Hd2; [|discriminate].
  destruct (is_low_surrogate uni2) eqn:Hlo.
  - valid_step IH H Hv. now apply join_surrogates_le.
  - valid_step IH H Hv. lia.
Qed.

Lemma scanstring_valid (s x r : str) :
  scanstring s = Some (x, r) -> valid s -> valid x /\ valid r.
Proof.
  intros H Hv. split.
  - apply (scanstring_valid_bounded (S (length s)) s x r); auto.
  - apply scanstring_stable in H. destruct H as (pre & -> & _).
    now apply valid_suffix in Hv.
Qed.

(** *** Dictionaries *)

Lemma dict_set_keys {V : Type} (k : str) (v : V) (d : list (str * V)) :
  map fst (dict_set k v d) = map fst d
  \/ (~ In k (map fst d) /\ map fst (dict_set k v d) = map fst d ++ [k]).
Proof.
  induction d as [|[k' v'] d IH]; cbn [dict_set map fst app].
  - right. split; [intros []|reflexivity].
  - destruct (str_eqb k k') eqn:E; [now left|].
    destruct IH as [IH|[Hn IH]].
    + left. cbn [map fst]. now rewrite IH.
    + right. split.
      * intros [->|Hin]; [|contradiction].
        assert (Hrefl : str_eqb k k = true) by now apply str_eqb_eq.
        congruence.
      * cbn [map fst]. now rewrite IH.
Qed.

Lemma dict_set_NoDup {V : Type} (k : str) (v : V) (d : list (str * V)) :
  NoDup (map fst d) -> NoDup (map fst (dict_set k v d)).
Proof.
  intros H. destruct (dict_set_keys k v d) as [->|[Hn ->]]; [exact H|].
  apply NoDup_app; [exact H|repeat constructor; intros []|].
  intros x Hx [<-|[]]. contradiction.
Qed.

Lemma dict_set_Forall {V : Type} (P : str * V -> Prop) (k : str) (v : V)
    (d : list (str * V)) :
  P (k, v) -> Forall P d -> Forall P (dict_set k v d).
Proof.
  intros Hk. induction 1 as [|[k' v'] d Hx Hd IH]; cbn [dict_set].
  - repeat constructor. exact Hk.
  - destruct (str_eqb k k') eqn:E.
    + apply str_eqb_eq in E. subst k'. now constructor.
    + now constructor.
Qed.

Lemma dict_invariant {V : Type} (P : str * V -> Prop) (l : list (str * V)) :
  Forall P l -> NoDup (map fst (dict l)) /\ Forall P (dict l).
Proof.
  unfold dict.
  assert (G : forall acc, NoDup (map fst acc) -> Forall P acc -> Forall P l ->
    NoDup (map fst (fold_left (fun d kv => dict_set (fst kv) (snd kv) d)
                              l acc))
    /\ Forall P (fold_left (fun d kv => dict_set (fst kv) (snd kv) d) l acc)).
  { induction l as [|[k v] l IH]; intros acc Hn Ha Hl; [now split|].
    cbn [fold_left fst snd]. inversion Hl; subst.
    apply IH; auto using dict_set_NoDup, dict_set_Forall. }
  intros Hl. apply G; auto. constructor.
Qed.

(** *** Values *)

Section LoopsValid.

Variable scan : str -> presult.

Hypothesis scan_valid : forall s v r, scan s = Ok v r -> valid s ->
  python_value v /\ valid r.

Lemma array_items_valid (f : nat) :
  forall vals s v r, array_items scan f vals s = Ok v r ->
    Forall python_value vals -> valid s -> python_value v.
Proof.
  induction f as [|f IH]; intros vals s v r H Hvals Hs; [discriminate|].
  cbn [array_items] in H.
  destruct (scan s) as [v1 r0| |e0] eqn:Hscan; try discriminate.
  destruct (scan_valid _ _ _ Hscan Hs) as [Hv1 Hr0].
  assert (Hall : Forall python_value (vals ++ [v1]))
    by (apply Forall_app; auto).
  pose proof (valid_skip_ws _ Hr0) as Hw.
  destruct (skip_ws r0) as [|c r1]; [discriminate|].
  apply valid_cons in Hw. destruct Hw as [_ Hr1].
  destruct (N.eqb c c_rbracket).
  - injection H as <- <-. now constructor.
  - destruct (N.eqb c c_comma); [|discriminate].
    apply IH in H; auto using valid_skip_ws.
Qed.

Lemma JSONArray_valid (s : str) (v : json) (r : str) :
  JSONArray scan s = Ok v r -> valid s -> python_value v.
Proof.
  unfold JSONArray. intros H Hs.
  destruct (skip_ws s) as [|c r0] eqn:Hws; [discriminate|].
  destruct (N.eqb c c_rbracket).
  - injection H as <- <-. constructor. constructor.
  - apply array_items_valid in H; auto.
    rewrite <- Hws. now apply valid_skip_ws.
Qed.

Lemma object_items_valid (f : nat) :
  forall pairs s v r, object_items scan f pairs s = Ok v r ->
    Forall valid_pair pairs -> valid s -> python_value v.
Proof.
  induction f as [|f IH]; intros pairs s v r H Hp Hs; [discriminate|].
  cbn [object_items] in H.
  destruct (scanstring s) as [[key r0]|] eqn:Hk; [|discriminate].
  destruct (scanstring_valid _ _ _ Hk Hs) as [Hkey Hr0].
  pose proof (valid_skip_ws _ Hr0) as Hw.
  destruct (skip_ws r0) as [|c r1]; [discriminate|].
  apply valid_cons in Hw. destruct Hw as [_ Hr1].
  destruct (N.eqb c c_colon); [|discriminate].
  destruct (scan (skip_ws r1)) as [v1 r2| |e0] eqn:Hscan; try discriminate.
  destruct (scan_valid _ _ _ Hscan (valid_skip_ws _ Hr1)) as [Hv1 Hr2].
  assert (Hall : Forall valid_pair (pairs ++ [(key, v1)])).
  { apply Forall_app. split; [exact Hp|]. repeat constructor; assumption. }
  pose proof (valid_skip_ws _ Hr2) as Hw2.
  destruct (skip_ws r2) as [|d r3]; [discriminate|].
  apply valid_cons in Hw2. destruct Hw2 as [_ Hr3].
  destruct (N.eqb d c_rbrace).
  - injection H as <- <-.
    destruct (dict_invariant valid_pair _ Hall) as [Hn Hf].
    now constructor.
  - destruct (N.eqb d c_comma); [|discriminate].
    pose proof (valid_skip_ws _ Hr3) as Hw3.
    destruct (skip_ws r3) as [|q r4]; [discriminate|].
    apply valid_cons in Hw3. destruct Hw3 as [_ Hr4].
    destruct (N.eqb q c_quote); [|discriminate].
    apply IH in H; auto.
Qed.

Lemma JSONObject_valid (s : str) (v : json) (r : str) :
  JSONObject scan s = Ok v r -> valid s -> python_value v.
Proof.
  unfold JSONObject. intros H Hs.
  pose proof (valid_skip_ws _ Hs) as Hw.
  destruct (skip_ws s) as [|c r0]; [discriminate|].
  apply valid_cons in Hw. destruct Hw as [_ Hr0].
  destruct (N.eqb c c_rbrace).
  - injection H as <- <-. constructor; constructor.
  - destruct (N.eqb c c_quote); [|discriminate].
    apply object_items_valid in H; auto.
Qed.

End LoopsValid.

Lemma scan_once_valid (L : N) (n : nat) :
  forall s v r, scan_once L n s = Ok v r -> valid s ->
                python_value v /\ valid r.
Proof.
  induction n as [n IH] using lt_wf_ind. intros s v r H Hs.
  split.
  2:{ apply scan_once_stable in H. destruct H as (pre & -> & _).
      now apply valid_suffix in Hs. }
  destruct s as [|c t]; rewrite scan_once_eq in H; [discriminate|].
  pose proof Hs as Ht. apply valid_cons in Ht. destruct Ht as [_ Ht].
  destruct (N.eqb c c_quote).
  { destruct (scanstring t) as [[x r0]|] eqn:Hx; [|discriminate].
    injection H as <- <-. constructor.
    now apply (scanstring_valid _ _ _ Hx). }
  destruct (N.eqb c c_lbrace).
  { destruct n as [|n]; [discriminate|].
    now apply (JSONObject_valid (scan_once L n)
                 (IH n (Nat.lt_succ_diag_r n))) in H. }
  destruct (N.eqb c c_lbracket).
  { destruct n as [|n]; [discriminate|].
    now apply (JSONArray_valid (scan_once L n)
                 (IH n (Nat.lt_succ_diag_r n))) in H. }
  destruct (starts_with (ustr "null") (c :: t));
    [injection H as <- <-; constructor|].
  destruct (starts_with (ustr "true") (c :: t));
    [injection H as <- <-; constructor|].
  destruct (starts_with (ustr "false") (c :: t));
    [injection H as <- <-; constructor|].
  destruct (match_number (c :: t)) as [m|].
  { destruct (int_raises L m); [discriminate|].
    injection H as <- <-. unfold number_value.
    destruct (n_frac m), (n_exp m); constructor. }
  destruct (starts_with (ustr "NaN") (c :: t));
    [injection H as <- <-; constructor|].
  destruct (starts_with (ustr "Infinity") (c :: t));
    [injection H as <- <-; constructor|].
  destruct (starts_with (ustr "-Infinity") (c :: t));
    [injection H as <- <-; constructor|discriminate].
Qed.

(** A parsed value is a Python value. *)
Lemma json_loads_python_value (lim : limits) (s : str) (v : json) :
  valid s -> json_loads lim s = Return v -> python_value v.
Proof.
  intros Hs H. apply json_loads_decode in H. unfold decode in H.
  destruct (scan_once _ _ (skip_ws s)) as [v0 r| |e0] eqn:E;
    try discriminate.
  destruct (skip_ws r); [|discriminate]. injection H as <-.
  now apply (scan_once_valid _ _ _ _ _ E (valid_skip_ws _ Hs)).
Qed.

(** *** A parsed value is within the limits of the interpreter *)

Section LoopsAll.

(** What holds of every scanned value holds of the items of the arrays
    and objects built from them. *)
Variable scan : str -> presult.
Variable P Q : json -> Prop.

Hypothesis scan_all : forall s v r, scan s = Ok v r -> P v.
Hypothesis all_arr : forall l, Forall P l -> Q (JArr l).
Hypothesis all_obj :
  forall d, Forall (fun kv : str * json => P (snd kv)) d -> Q (JObj d).





End LoopsAll.












(** *** The model of floats of the examples *)

Lemma is_float_text_ok (t : str) : is_float_text t = true -> float_text t.
Proof.
  unfold is_float_text, float_text.
  destruct (match_number t) as [m|] eqn:Hm.
  - destruct (n_end m) eqn:He; [|discriminate]. intros H. left. exists m.
    split; [reflexivity|]. split; [exact He|].
    destruct (n_frac m); [left; discriminate|].
    destruct (n_exp m); [right; discriminate|discriminate].
  - intros H. right.
    apply orb_true_iff in H. destruct H as [H|H];
      [apply orb_true_iff in H; destruct H as [H|H]|];
      apply str_eqb_eq in H; eauto.
Qed.

Lemma tf_floatstr_text (f : text_float) : float_text (tf_text f).
Proof. apply is_float_text_ok, tf_ok. Qed.


(** *** Export *)



(* ===================================================================== *)
(** ** String methods                                                      *)
(* ===================================================================== *)

Lemma starts_with_inv (p s : str) :
  starts_with p s = true -> exists r, s = p ++ r.
Proof.
  revert s. induction p as [|x p IH]; intros s H; [now exists s|].
  destruct s as [|y s]; [discriminate|]. cbn [starts_with] in H.
  apply andb_true_iff in H. destruct H as [Hxy H].
  apply N.eqb_eq in Hxy. subst y. destruct (IH s H) as (r & ->).
  now exists r.
Qed.

(** No occurrence starts where the first character of the pattern is not. *)
Lemma starts_with_mismatch (c : char) (p : str) (x : char) (s : str) :
  x <> c -> starts_with (c :: p) (x :: s) = false.
Proof.
  intros H. cbn [starts_with]. apply N.eqb_neq in H.
  rewrite N.eqb_sym in H. now rewrite H.
Qed.

Lemma contains_char (c : char) (s : str) :
  contains [c] s = true <-> In c s.
Proof.
  induction s as [|x s IH]; cbn [contains starts_with In].
  - split; [discriminate|intros []].
  - rewrite orb_true_iff, andb_true_r, N.eqb_eq, IH.
    split; (intros [H|H]; [left; now symmetry|now right]).
Qed.

(** *** [split] *)

Lemma split_from_skip (sep : str) (x : str) :
  forall cur r, split_from sep (length x) cur (x ++ r)
                = split_from sep 0 cur r.
Proof.
  induction x as [|c x IH]; intros cur r; cbn [length app].
  - reflexivity.
  - cbn [split_from]. apply IH.
Qed.

(** At an occurrence, the piece ends. *)
Lemma split_from_sep (c : char) (sep' cur r : str) :
  split_from (c :: sep') 0 cur ((c :: sep') ++ r)
  = rev cur :: split_from (c :: sep') 0 [] r.
Proof.
  cbn [app]. cbn [split_from].
  change (c :: sep' ++ r) with ((c :: sep') ++ r).
  rewrite starts_with_app.
  replace (length (c :: sep') - 1) with (length sep') by (cbn [length]; lia).
  now rewrite split_from_skip.
Qed.

(** Characters other than the first of the separator join the piece. *)
Lemma split_from_run (c : char) (sep' : str) (a : str) :
  ~ In c a ->
  forall cur r, split_from (c :: sep') 0 cur (a ++ r)
                = split_from (c :: sep') 0 (rev a ++ cur) r.
Proof.
  induction a as [|x a IH]; intros Hn cur r; [reflexivity|].
  cbn [app]. cbn [split_from].
  rewrite starts_with_mismatch by (intros ->; apply Hn; now left).
  rewrite IH by (intros H; apply Hn; now right).
  cbn [rev]. now rewrite <- app_assoc.
Qed.

Lemma split_from_absent (sep : str) (s : str) :
  contains sep s = false ->
  forall cur, split_from sep 0 cur s = [rev cur ++ s].
Proof.
  induction s as [|x s IH]; intros H cur.
  - cbn [split_from]. now rewrite app_nil_r.
  - cbn [contains] in H. apply orb_false_iff in H. destruct H as [H1 H2].
    cbn [split_from]. rewrite H1, IH by exact H2.
    cbn [rev]. now rewrite <- app_assoc.
Qed.

Lemma split_absent (sep s : str) :
  contains sep s = false -> split sep s = [s].
Proof. intros H. unfold split. now rewrite split_from_absent. Qed.

(** The first piece of a text that starts with a run free of the first
    character of the separator, followed by the separator. *)
Lemma split_cons (c : char) (sep' a r : str) :
  ~ In c a ->
  split (c :: sep') (a ++ (c :: sep') ++ r) = a :: split (c :: sep') r.
Proof.
  intros H. unfold split. rewrite split_from_run by exact H.
  rewrite split_from_sep, app_nil_r. now rewrite rev_involutive.
Qed.

Lemma split_from_nonempty (sep : str) (s : str) :
  forall k cur, split_from sep k cur s <> [].
Proof.
  induction s as [|x s IH]; intros k cur; cbn [split_from]; [discriminate|].
  destruct k; [|apply IH].
  destruct (starts_with sep (x :: s)); [discriminate|apply IH].
Qed.

(** The pieces of a text cut at one character do not hold it. *)
Lemma split_from_char_free (c : char) (s : str) :
  forall cur, ~ In c cur ->
    Forall (fun piece => ~ In c piece) (split_from [c] 0 cur s).
Proof.
  induction s as [|x s IH]; intros cur Hc; cbn [split_from].
  - constructor; [|constructor]. now rewrite <- in_rev.
  - cbn [starts_with length Nat.sub]. rewrite andb_true_r.
    destruct (N.eqb_spec c x) as [->|Hx].
    + constructor; [now rewrite <- in_rev|]. apply IH. intros [].
    + apply IH. intros [H|H]; [now apply Hx|now apply Hc].
Qed.

(** The pieces, put together again, are a suffix chain of the text: the
    last piece ends the text. *)
Lemma split_from_last (sep : str) (s : str) :
  forall k cur, k <= length s ->
    exists pre, rev cur ++ skipn k s
                = pre ++ last (split_from sep k cur s) [].
Proof.
  induction s as [|x s IH]; intros k cur Hk; cbn [split_from].
  - cbn [length] in Hk. replace k with 0 by lia. exists [].
    cbn [skipn last app]. now rewrite app_nil_r.
  - destruct k as [|k].
    + cbn [skipn]. destruct (starts_with sep (x :: s)) eqn:E.
      * destruct sep as [|c sep'].
        { cbn [length Nat.sub].
          destruct (IH 0 [] (Nat.le_0_l _)) as (pre & Hp).
          pose proof (split_from_nonempty [] s 0 []) as Hne.
          destruct (split_from [] 0 [] s) as [|y l] eqn:El; [easy|].
          cbn [rev app skipn] in Hp.
          exists (rev cur ++ x :: pre).
          change (last (rev cur :: y :: l) []) with (last (y :: l) []).
          rewrite <- app_assoc. cbn [app]. now rewrite <- Hp. }
        apply starts_with_inv in E. destruct E as (r & E).
        cbn [app] in E. injection E as -> ->.
        replace (length (c :: sep') - 1) with (length sep')
          by (cbn [length]; lia).
        destruct (IH (length sep') []) as (pre & Hp).
        { rewrite length_app. lia. }
        pose proof (split_from_nonempty (c :: sep') (sep' ++ r)
                      (length sep') []) as Hne.
        destruct (split_from (c :: sep') (length sep') [] (sep' ++ r))
          as [|y l] eqn:El; [easy|].
        change (last (rev cur :: y :: l) []) with (last (y :: l) []).
        cbn [rev app] in Hp.
        exists (rev cur ++ c :: firstn (length sep') (sep' ++ r) ++ pre).
        rewrite <- app_assoc. cbn [app]. rewrite <- app_assoc, <- Hp.
        now rewrite firstn_skipn.
      * destruct (IH 0 (x :: cur) (Nat.le_0_l _)) as (pre & Hp).
        exists pre. cbn [rev skipn] in Hp. rewrite <- app_assoc in Hp.
        exact Hp.
    + cbn [skipn]. apply IH. cbn [length] in Hk. lia.
Qed.

Lemma split_last_suffix (sep s : str) :
  exists pre, s = pre ++ last (split sep s) [].
Proof.
  destruct (split_from_last sep s 0 [] (Nat.le_0_l _)) as (pre & H).
  now exists pre.
Qed.

(** *** [replace] *)

Lemma replace_from_absent (old new : str) (c : char) (s : str) :
  In c old -> ~ In c s -> replace_from old new 0 s = s.
Proof.
  intros Ho. induction s as [|x s IH]; intros Hs; [reflexivity|].
  cbn [replace_from].
  destruct (starts_with old (x :: s)) eqn:E.
  - exfalso. apply starts_with_inv in E. destruct E as (r & E).
    apply Hs. rewrite E. apply in_or_app. now left.
  - f_equal. apply IH. intros H. apply Hs. now right.
Qed.

(** *** The number of a day *)

Lemma last_occurrence (c : char) (s : str) :
  In c s -> exists q n, s = q ++ c :: n /\ ~ In c n.
Proof.
  induction s as [|x s IH]; intros H; [destruct H|].
  destruct (in_dec N.eq_dec c s) as [Hin|Hout].
  - destruct (IH Hin) as (q & n & -> & Hn). now exists (x :: q), n.
  - destruct H as [->|H]; [|contradiction]. now exists [], s.
Qed.

Lemma last_cons_nonempty {A : Type} (x : A) (l : list A) (d : A) :
  l <> [] -> last (x :: l) d = last l d.
Proof. destruct l; [contradiction|reflexivity]. Qed.

(** The last piece is what follows the last separator character. *)
Lemma last_split_char (c : char) (p n : str) :
  ~ In c n ->
  forall cur, last (split_from [c] 0 cur (p ++ c :: n)) [] = n.
Proof.
  intros Hn. induction p as [|x p IH]; intros cur.
  - change ([] ++ c :: n) with ([c] ++ n). rewrite split_from_sep.
    rewrite last_cons_nonempty by apply split_from_nonempty.
    rewrite <- (app_nil_r n) at 1.
    rewrite (split_from_run c [] n Hn [] []).
    cbn [split_from last]. now rewrite app_nil_r, rev_involutive.
  - cbn [app]. cbn [split_from starts_with]. rewrite andb_true_r.
    destruct (N.eqb c x).
    + rewrite last_cons_nonempty by apply split_from_nonempty.
      cbn [length Nat.sub]. apply IH.
    + apply IH.
Qed.

Lemma underscore_in (day : str) :
  contains (ustr "_") day = true <-> In (ch "_") day.
Proof. apply contains_char. Qed.

Lemma day_num_plain (day : str) :
  ~ In (ch "_") day -> day_num day = day /\ heading_day_num day = day.
Proof.
  intros H. unfold day_num, heading_day_num.
  assert (Hc : contains (ustr "_") day = false).
  { destruct (contains (ustr "_") day) eqn:E; [|reflexivity].
    now apply underscore_in in E. }
  rewrite Hc, split_absent by exact Hc. split; [|reflexivity].
  apply (replace_from_absent _ _ (ch "_")); [|exact H].
  vm_compute. tauto.
Qed.

(** *** Preparation steps *)

Lemma endswith_app (suffix s : str) : endswith suffix (s ++ suffix) = true.
Proof. unfold endswith. rewrite rev_app_distr. apply starts_with_app. Qed.

Lemma finish_step_stop (step : str) :
  endswith (ustr ".") (finish_step step) = true.
Proof.
  unfold finish_step.
  destruct (endswith (ustr ".") (strip step)) eqn:E; [exact E|].
  apply endswith_app.
Qed.

Lemma step_lines_from_In (steps : list str) :
  forall i line, In line (step_lines_from i steps) ->
    exists j piece,
      nth_error steps j = Some piece /\ piece <> []
      /\ line = decimal (N.of_nat (i + j + 1)) ++ ustr ". "
                ++ finish_step piece.
Proof.
  induction steps as [|step rest IH]; intros i line H; [destruct H|].
  cbn [step_lines_from] in H. apply in_app_or in H. destruct H as [H|H].
  - destruct step as [|c t]; [destruct H|].
    destruct H as [<-|[]]. exists 0, (c :: t).
    split; [reflexivity|]. split; [discriminate|].
    now rewrite Nat.add_0_r.
  - destruct (IH _ _ H) as (j & piece & Hj & Hp & ->).
    exists (S j), piece. split; [exact Hj|]. split; [exact Hp|].
    now replace (i + S j + 1) with (S i + j + 1) by lia.
Qed.

Lemma contains_head (c : char) (p s : str) :
  contains (c :: p) s = true -> In c s.
Proof.
  induction s as [|x s IH]; cbn [contains]; intros H.
  - discriminate.
  - apply orb_true_iff in H. destruct H as [H|H].
    + apply starts_with_inv in H. destruct H as (r & H).
      injection H as -> _. now left.
    + right. now apply IH.
Qed.

Lemma contains_sep_stop (s : str) :
  ~ In (ch ".") s -> contains (ustr ". ") (s ++ ustr ".") = false.
Proof.
  induction s as [|x s IH]; intros H; [reflexivity|].
  cbn [app contains]. rewrite IH by (intros Hs; apply H; now right).
  rewrite orb_false_r. apply starts_with_mismatch.
  intros ->. apply H. now left.
Qed.

Lemma clean_not_stop (s : str) :
  clean_sentence s -> endswith (ustr ".") s = false.
Proof.
  intros (Hd & _ & _). unfold endswith.
  destruct (starts_with (rev (ustr ".")) (rev s)) eqn:E; [|reflexivity].
  apply starts_with_inv in E. destruct E as (r & E).
  exfalso. apply Hd. apply in_rev. rewrite E. now left.
Qed.

Lemma clean_nonempty (s : str) : clean_sentence s -> s <> [].
Proof. intros (_ & H & _) ->. exact H. Qed.

Lemma step_line_clean (i : nat) (s : str) :
  clean_sentence s ->
  step_line i s = [decimal (N.of_nat (i + 1)) ++ ustr ". " ++ s ++ ustr "."].
Proof.
  intros Hc. pose proof (clean_nonempty s Hc) as Hne.
  pose proof (clean_not_stop s Hc) as Hs.
  destruct Hc as (Hd & Hh & Hl).
  destruct s as [|c t]; [contradiction|]. cbn [step_line].
  rewrite strip_id by assumption. now rewrite Hs.
Qed.

Lemma step_line_stopped (i : nat) (s : str) :
  clean_sentence s ->
  step_line i (s ++ ustr ".")
  = [decimal (N.of_nat (i + 1)) ++ ustr ". " ++ s ++ ustr "."].
Proof.
  intros Hc. pose proof (clean_nonempty s Hc) as Hne.
  destruct Hc as (Hd & Hh & Hl).
  destruct s as [|c t]; [contradiction|]. cbn [app step_line].
  change (c :: t ++ ustr ".") with ((c :: t) ++ ustr ".").
  rewrite strip_id.
  - now rewrite endswith_app.
  - exact Hh.
  - unfold last_not_space. rewrite rev_app_distr. reflexivity.
Qed.

Lemma split_sentences (s : str) (rest : list str) :
  ~ In (ch ".") s -> rest <> [] ->
  forall tail,
    split (ustr ". ") (join (ustr ". ") (s :: rest) ++ tail)
    = s :: split (ustr ". ") (join (ustr ". ") rest ++ tail).
Proof.
  intros Hd Hr tail. destruct rest as [|s2 rest]; [contradiction|].
  change (join (ustr ". ") (s :: s2 :: rest))
    with (s ++ ustr ". " ++ join (ustr ". ") (s2 :: rest)).
  rewrite <- !app_assoc.
  apply (split_cons (ch ".") [ch " "] s _ Hd).
Qed.

Lemma prep_lines_sentences (ss : list str) :
  Forall clean_sentence ss ->
  forall i,
    step_lines_from i (split (ustr ". ") (join (ustr ". ") ss))
    = numbered_from i ss
    /\ (ss <> [] ->
        step_lines_from i
          (split (ustr ". ") (join (ustr ". ") ss ++ ustr "."))
        = numbered_from i ss).
Proof.
  induction 1 as [|s rest Hs Hrest IH]; intros i.
  - split; [reflexivity|]. intros H. contradiction.
  - pose proof Hs as (Hd & _).
    destruct rest as [|s2 rest].
    + cbn [join numbered_from]. split; [|intros _].
      * rewrite split_absent.
        -- cbn [step_lines_from]. rewrite step_line_clean by exact Hs.
           reflexivity.
        -- destruct (contains (ustr ". ") s) eqn:E; [|reflexivity].
           apply contains_head in E. contradiction.
      * rewrite split_absent by now apply contains_sep_stop.
        cbn [step_lines_from]. rewrite step_line_stopped by exact Hs.
        reflexivity.
    + destruct (IH (S i)) as (IH1 & IH2).
      split; [|intros _].
      * rewrite <- (app_nil_r (join _ (s :: s2 :: rest))).
        rewrite split_sentences by (exact Hd || discriminate).
        rewrite app_nil_r. cbn [step_lines_from numbered_from].
        rewrite step_line_clean by exact Hs. rewrite IH1. reflexivity.
      * rewrite split_sentences by (exact Hd || discriminate).
        cbn [step_lines_from numbered_from].
        rewrite step_line_clean by exact Hs.
        rewrite IH2 by discriminate. reflexivity.
Qed.

(** X16: the two places that show the number of a day, the button with its
    conditional and the heading without, compute the same text for every
    key: the branch taken when the key has no underscore leaves the key as
    it is. *)
Theorem day_num_agrees_with_heading (day : str) :
  day_num day = heading_day_num day
  /\ (contains (ustr "_") day = false -> day_num day = day).
Proof.
  split.
  - unfold day_num. destruct (contains (ustr "_") day) eqn:E; [reflexivity|].
    assert (H : ~ In (ch "_") day).
    { intros H. apply underscore_in in H. congruence. }
    destruct (day_num_plain day H) as (H1 & H2).
    unfold day_num in H1. rewrite E in H1. now rewrite H1, H2.
  - intros E. apply day_num_plain. intros H. apply underscore_in in H.
    congruence.
Qed.

(** X17: the number shown for a day is what follows the last underscore of
    its key: it holds no underscore, and the key is the number itself or
    some text, an underscore, and the number. *)
Theorem day_num_after_last_underscore (day : str) :
  ~ In (ch "_") (day_num day)
  /\ (day = day_num day
      \/ exists pre, day = pre ++ ustr "_" ++ day_num day).
Proof.
  destruct (in_dec N.eq_dec (ch "_") day) as [Hin|Hout].
  - destruct (last_occurrence _ _ Hin) as (q & n & -> & Hn).
    assert (E : day_num (q ++ ch "_" :: n) = n).
    { unfold day_num.
      assert (Hc : contains (ustr "_") (q ++ ch "_" :: n) = true)
        by (apply underscore_in, in_or_app; right; now left).
      rewrite Hc. apply (last_split_char (ch "_") q n Hn). }
    rewrite E. split; [exact Hn|]. right. now exists q.
  - destruct (day_num_plain day Hout) as (E & _). rewrite E.
    split; [exact Hout|now left].
Qed.

(** X19: every line rendered for the preparation text is the position of a
    non-empty piece of the text, cut at full stop and space and counted
    from one, then a full stop and a space, then the piece without the
    whitespace around it, closed by a full stop. *)
Theorem prep_lines_numbered (prep line : str) :
  In line (prep_lines prep) ->
  exists i piece,
    nth_error (split (ustr ". ") prep) i = Some piece /\ piece <> []
    /\ line = decimal (N.of_nat (i + 1)) ++ ustr ". " ++ finish_step piece
    /\ endswith (ustr ".") (finish_step piece) = true.
Proof.
  intros H. apply step_lines_from_In in H.
  destruct H as (j & piece & Hj & Hp & ->).
  exists j, piece. repeat split; auto using finish_step_stop.
Qed.

Lemma prep_lines_numbered_witness :
  In (ustr "3. Serve warm.") (prep_lines (ustr "Mix well. .  Serve warm "))
  /\ exists i piece,
       nth_error (split (ustr ". ") (ustr "Mix well. .  Serve warm ")) i
       = Some piece /\ piece <> []
       /\ ustr "3. Serve warm."
          = decimal (N.of_nat (i + 1)) ++ ustr ". " ++ finish_step piece
       /\ endswith (ustr ".") (finish_step piece) = true.
Proof.
  assert (H : In (ustr "3. Serve warm.")
                (prep_lines (ustr "Mix well. .  Serve warm ")))
    by (vm_compute; tauto).
  split; [exact H|].
  exact (prep_lines_numbered _ _ H).
Defined.

(** X20: a preparation text made of sentences without a full stop inside and
    without whitespace at their ends, joined by a full stop and a space,
    with or without a last full stop, is rendered as these sentences,
    numbered from one in their order, each closed by one full stop. *)
Theorem prep_lines_of_sentences (sentences : list str) :
  Forall clean_sentence sentences ->
  prep_lines (join (ustr ". ") sentences) = numbered_from 0 sentences
  /\ (sentences <> [] ->
      prep_lines (join (ustr ". ") sentences ++ ustr ".")
      = numbered_from 0 sentences).
Proof. intros H. apply (prep_lines_sentences sentences H 0). Qed.

Lemma prep_lines_of_sentences_witness :
  prep_lines (ustr "Chop the onions. Fry until golden. Serve")
  = [ustr "1. Chop the onions."; ustr "2. Fry until golden.";
     ustr "3. Serve."]
  /\ prep_lines (ustr "Chop the onions. Fry until golden. Serve.")
     = [ustr "1. Chop the onions."; ustr "2. Fry until golden.";
        ustr "3. Serve."].
Proof.
  assert (H : Forall clean_sentence
                [ustr "Chop the onions"; ustr "Fry until golden";
                 ustr "Serve"]).
  { repeat constructor; vm_compute; intuition discriminate. }
  destruct (prep_lines_of_sentences _ H) as (H1 & H2).
  split; [exact H1|]. apply H2. discriminate.
Defined.

(* ===================================================================== *)
(** ** The form and the prompt                                             *)
(* ===================================================================== *)

Lemma template_around_name :
  prompt_template
  = template_before_name ++ ustr "{name}" ++ template_after_name.
Proof. vm_compute. reflexivity. Qed.

Lemma template_around_restrictions :
  prompt_template
  = template_before_restrictions ++ ustr "{restrictions}"
    ++ template_after_restrictions.
Proof. vm_compute. reflexivity. Qed.

Lemma format_name_field (p : UserProfile) (timestamp : str) :
  format_from (template_variables p timestamp) None (ustr "{name}")
  = Some (name p).
Proof.
  destruct p as [nm a w h al dp dr r g rg pc b mf d sg]. cbn [name].
  rewrite <- (app_nil_r nm) at 2. vm_compute. reflexivity.
Qed.

Lemma format_restrictions_field (p : UserProfile) (timestamp : str) :
  format_from (template_variables p timestamp) None (ustr "{restrictions}")
  = Some (restrictions p).
Proof.
  destruct p as [nm a w h al dp dr r g rg pc b mf d sg]. cbn [restrictions].
  rewrite <- (app_nil_r r) at 2. vm_compute. reflexivity.
Qed.

Lemma format_three_parts (env : list (str * str)) (a b c x y z : str) :
  format_from env None a = Some x -> format_from env None b = Some y ->
  format_from env None c = Some z ->
  format_from env None (a ++ b ++ c) = Some (x ++ y ++ z).
Proof.
  intros Ha Hb Hc.
  rewrite (format_from_app env _ _ _ Ha), (format_from_app env _ _ _ Hb), Hc.
  reflexivity.
Qed.

Lemma formatted_some (env : list (str * str)) (part text : str) :
  format_from env None part = Some text ->
  format_from env None part = Some (formatted env part).
Proof. intros H. unfold formatted. now rewrite H. Qed.

(** Every part of the template formats, whatever the values. *)
Lemma format_prompt_some (p : UserProfile) (timestamp : str) :
  exists text, format_prompt p timestamp = Some text.
Proof.
  rewrite <- (with_duration_same p).
  rewrite format_prompt_with_duration. eauto.
Qed.

Lemma format_part_some (env : list (str * str)) (a b : str) :
  (exists text, format_from env None (a ++ b) = Some text) ->
  forall x, format_from env None a = Some x ->
  exists y, format_from env None b = Some y.
Proof.
  intros (text & H) x Ha. rewrite (format_from_app env _ _ _ Ha) in H.
  destruct (format_from env None b) as [y|]; [eauto|discriminate].
Qed.

Lemma before_name_fixed (f : FormValues) (timestamp x : str) :
  format_from (template_variables (user_data (with_name f x)) timestamp)
    None template_before_name
  = Some (formatted (template_variables (user_data f) timestamp)
            template_before_name).
Proof. destruct f. vm_compute. reflexivity. Qed.

Lemma after_name_fixed (f : FormValues) (timestamp x : str) :
  format_from (template_variables (user_data (with_name f x)) timestamp)
    None template_after_name
  = Some (formatted (template_variables (user_data f) timestamp)
            template_after_name).
Proof. destruct f. vm_compute. reflexivity. Qed.

Lemma before_restrictions_fixed (f : FormValues) (timestamp x : str) :
  format_from
    (template_variables (user_data (with_restrictions f x)) timestamp)
    None template_before_restrictions
  = Some (formatted (template_variables (user_data f) timestamp)
            template_before_restrictions).
Proof. destruct f. vm_compute. reflexivity. Qed.

Lemma after_restrictions_fixed (f : FormValues) (timestamp x : str) :
  format_from
    (template_variables (user_data (with_restrictions f x)) timestamp)
    None template_after_restrictions
  = Some (formatted (template_variables (user_data f) timestamp)
            template_after_restrictions).
Proof. destruct f. vm_compute. reflexivity. Qed.

Lemma join_nonempty (sep x : str) (rest : list str) :
  x <> [] -> join sep (x :: rest) <> [].
Proof.
  intros Hx. destruct rest; cbn [join]; [exact Hx|].
  destruct x; [contradiction|discriminate].
Qed.

Lemma joined_or_nonempty (default : str) (chosen options : list str) :
  default <> [] -> Forall (fun o => o <> []) options ->
  incl chosen options -> joined_or default chosen <> [].
Proof.
  intros Hd Ho Hi. destruct chosen as [|x rest]; [exact Hd|].
  cbn [joined_or]. apply join_nonempty.
  rewrite Forall_forall in Ho. apply Ho, Hi. now left.
Qed.

(** X6: the template and the dictionary of the form agree: formatting
    finds every variable of the template, so that it succeeds for every
    submitted form and every timestamp, and every entry of the dictionary,
    with the timestamp, has its placeholder in the template. *)
Theorem prompt_variables_agree (f : FormValues) (timestamp : str) :
  (exists prompt,
     option_map (fun p => format_prompt p timestamp) (get_user_input f true)
     = Some (Some prompt))
  /\ Forall (fun kv => contains (placeholder (fst kv)) prompt_template = true)
       (template_variables (user_data f) timestamp).
Proof.
  split.
  - cbn [get_user_input option_map].
    destruct (format_prompt_some (user_data f) timestamp) as (text & ->).
    eauto.
  - unfold template_variables. cbn [fst].
    repeat (constructor; [vm_compute; reflexivity|]). constructor.
Qed.

(** X7: what the user types as the name, and as the restrictions, reaches
    the prompt as it is, braces included, at one place; the text before
    and after that place does not depend on what was typed. An empty
    restrictions text is sent as [None]. *)
Theorem typed_text_is_verbatim (f : FormValues) (timestamp : str) :
  (exists before after, forall x,
     format_prompt (user_data (with_name f x)) timestamp
     = Some (before ++ x ++ after))
  /\ (exists before after, forall x,
        format_prompt (user_data (with_restrictions f x)) timestamp
        = Some (before ++ text_or (ustr "None") x ++ after)).
Proof.
  split.
  - exists (formatted (template_variables (user_data f) timestamp)
              template_before_name),
           (formatted (template_variables (user_data f) timestamp)
              template_after_name).
    intros x. unfold format_prompt. rewrite template_around_name.
    apply format_three_parts.
    + apply before_name_fixed.
    + apply (format_name_field (user_data (with_name f x))).
    + apply after_name_fixed.
  - exists (formatted (template_variables (user_data f) timestamp)
              template_before_restrictions),
           (formatted (template_variables (user_data f) timestamp)
              template_after_restrictions).
    intros x. unfold format_prompt. rewrite template_around_restrictions.
    apply format_three_parts.
    + apply before_restrictions_fixed.
    + apply (format_restrictions_field (user_data (with_restrictions f x))).
    + apply after_restrictions_fixed.
Qed.

(** X8: for a form whose multiple choices hold options of theirs, the
    preferences, the requirements, the restrictions and the cuisines sent
    to the prompt are never empty: an empty choice is sent as [None], or
    [Any] for the cuisines, a choice that is not empty as its options
    joined by a comma and a space; restrictions that are left empty are
    sent as [None], and as they were typed otherwise. *)
Theorem profile_lists_not_empty (f : FormValues) :
  chosen_from_options f ->
  (dietary_preferences (user_data f) <> []
   /\ dietary_requirements (user_data f) <> []
   /\ restrictions (user_data f) <> []
   /\ preferred_cuisines (user_data f) <> [])
  /\ dietary_preferences (user_data f)
     = match f_dietary_preferences f with
       | [] => ustr "None"
       | _ :: _ => join (ustr ", ") (f_dietary_preferences f)
       end
  /\ dietary_requirements (user_data f)
     = match f_dietary_requirements f with
       | [] => ustr "None"
       | _ :: _ => join (ustr ", ") (f_dietary_requirements f)
       end
  /\ restrictions (user_data f)
     = match f_restrictions f with
       | [] => ustr "None"
       | _ :: _ => f_restrictions f
       end
  /\ preferred_cuisines (user_data f)
     = match f_preferred_cuisines f with
       | [] => ustr "Any"
       | _ :: _ => join (ustr ", ") (f_preferred_cuisines f)
       end.
Proof.
  intros (Hp & Hr & Hc). split; [|repeat split].
  cbn [user_data dietary_preferences
    dietary_requirements restrictions preferred_cuisines].
  repeat split.
  - apply (joined_or_nonempty _ _ dietary_preference_options);
      [discriminate| |exact Hp].
    repeat constructor; discriminate.
  - apply (joined_or_nonempty _ _ dietary_requirement_options);
      [discriminate| |exact Hr].
    repeat constructor; discriminate.
  - destruct (f_restrictions f); discriminate.
  - apply (joined_or_nonempty _ _ cuisine_options);
      [discriminate| |exact Hc].
    repeat constructor; discriminate.
Qed.

(* ===================================================================== *)
(** ** What extraction returns                                             *)
(* ===================================================================== *)

Section LoopsDistinct.

Variable scan : str -> presult.

Hypothesis scan_distinct : forall s v r, scan s = Ok v r -> distinct_keys v.

Lemma array_items_distinct (f : nat) :
  forall vals s v r, array_items scan f vals s = Ok v r ->
    Forall distinct_keys vals -> distinct_keys v.
Proof.
  induction f as [|f IH]; intros vals s v r H Hvals; [discriminate|].
  cbn [array_items] in H.
  destruct (scan s) as [v1 r0| |e0] eqn:Hscan; try discriminate.
  assert (Hall : Forall distinct_keys (vals ++ [v1])).
  { apply Forall_app. split; [exact Hvals|]. repeat constructor.
    eapply scan_distinct; eauto. }
  destruct (skip_ws r0) as [|c r1]; [discriminate|].
  destruct (N.eqb c c_rbracket).
  - injection H as <- <-. now constructor.
  - destruct (N.eqb c c_comma); [|discriminate]. eapply IH; eauto.
Qed.

Lemma JSONArray_distinct (s : str) (v : json) (r : str) :
  JSONArray scan s = Ok v r -> distinct_keys v.
Proof.
  unfold JSONArray. intros H.
  destruct (skip_ws s) as [|c r0]; [discriminate|].
  destruct (N.eqb c c_rbracket).
  - injection H as <- <-. constructor. constructor.
  - eapply array_items_distinct; eauto.
Qed.

Lemma object_items_distinct (f : nat) :
  forall pairs s v r, object_items scan f pairs s = Ok v r ->
    Forall (fun kv => distinct_keys (snd kv)) pairs -> distinct_keys v.
Proof.
  induction f as [|f IH]; intros pairs s v r H Hp; [discriminate|].
  cbn [object_items] in H.
  destruct (scanstring s) as [[key r0]|]; [|discriminate].
  destruct (skip_ws r0) as [|c r1]; [discriminate|].
  destruct (N.eqb c c_colon); [|discriminate].
  destruct (scan (skip_ws r1)) as [v1 r2| |e0] eqn:Hscan; try discriminate.
  assert (Hall : Forall (fun kv => distinct_keys (snd kv))
                   (pairs ++ [(key, v1)])).
  { apply Forall_app. split; [exact Hp|]. repeat constructor.
    eapply scan_distinct; eauto. }
  destruct (skip_ws r2) as [|d r3]; [discriminate|].
  destruct (N.eqb d c_rbrace).
  - injection H as <- <-.
    destruct (dict_invariant _ _ Hall) as [Hn Hf]. now constructor.
  - destruct (N.eqb d c_comma); [|discriminate].
    destruct (skip_ws r3) as [|q r4]; [discriminate|].
    destruct (N.eqb q c_quote); [|discriminate].
    eapply IH; eauto.
Qed.

Lemma JSONObject_distinct (s : str) (v : json) (r : str) :
  JSONObject scan s = Ok v r -> distinct_keys v.
Proof.
  unfold JSONObject. intros H.
  destruct (skip_ws s) as [|c r0]; [discriminate|].
  destruct (N.eqb c c_rbrace).
  - injection H as <- <-. constructor; constructor.
  - destruct (N.eqb c c_quote); [|discriminate].
    eapply object_items_distinct; eauto.
Qed.

End LoopsDistinct.

Lemma scan_once_distinct (L : N) (n : nat) :
  forall s v r, scan_once L n s = Ok v r -> distinct_keys v.
Proof.
  induction n as [n IH] using lt_wf_ind. intros s v r H.
  destruct s as [|c t]; rewrite scan_once_eq in H; [discriminate|].
  destruct (N.eqb c c_quote).
  { destruct (scanstring t) as [[x r0]|]; [|discriminate].
    injection H as <- <-. constructor. }
  destruct (N.eqb c c_lbrace).
  { destruct n as [|n]; [discriminate|].
    now apply (JSONObject_distinct (scan_once L n)
                 (IH n (Nat.lt_succ_diag_r n))) in H. }
  destruct (N.eqb c c_lbracket).
  { destruct n as [|n]; [discriminate|].
    now apply (JSONArray_distinct (scan_once L n)
                 (IH n (Nat.lt_succ_diag_r n))) in H. }
  destruct (starts_with (ustr "null") (c :: t));
    [injection H as <- <-; constructor|].
  destruct (starts_with (ustr "true") (c :: t));
    [injection H as <- <-; constructor|].
  destruct (starts_with (ustr "false") (c :: t));
    [injection H as <- <-; constructor|].
  destruct (match_number (c :: t)) as [m|].
  { destruct (int_raises L m); [discriminate|].
    injection H as <- <-. unfold number_value.
    destruct (n_frac m), (n_exp m); constructor. }
  destruct (starts_with (ustr "NaN") (c :: t));
    [injection H as <- <-; constructor|].
  destruct (starts_with (ustr "Infinity") (c :: t));
    [injection H as <- <-; constructor|].
  destruct (starts_with (ustr "-Infinity") (c :: t));
    [injection H as <- <-; constructor|discriminate].
Qed.

Lemma json_loads_distinct (lim : limits) (s : str) (v : json) :
  json_loads lim s = Return v -> distinct_keys v.
Proof.
  intros H. apply json_loads_decode in H. unfold decode in H.
  destruct (scan_once _ _ (skip_ws s)) as [v0 r| |e0] eqn:E;
    try discriminate.
  destruct (skip_ws r); [|discriminate]. injection H as <-.
  eapply scan_once_distinct; eauto.
Qed.

(** X3: whatever extraction returns, no object in it, at any depth, has a
    key twice, and nothing was rendered: the keys of the days, of the meals
    and of the shopping categories that the display iterates over are
    distinct. *)
Theorem extracted_keys_distinct (st : streamlit) (lim : limits)
    (raw : str) (ui ui' : page) (v : json) :
  extract_and_parse_json st lim raw ui = (Return (Some v), ui') ->
  distinct_keys v /\ ui' = ui.
Proof.
  intros H. apply extract_with_value in H. destruct H as (H & ->).
  split; [|reflexivity]. now apply json_loads_distinct in H.
Qed.

Lemma extracted_keys_distinct_witness :
  extract_and_parse_json st_returns default_limits
    (py "{'day_1': 1, 'day_2': 2, 'day_1': {'a': 3}}") []
  = (Return (Some (JObj [(ustr "day_1", JObj [(ustr "a", JInt 3)]);
                         (ustr "day_2", JInt 2)])), [])
  /\ distinct_keys (JObj [(ustr "day_1", JObj [(ustr "a", JInt 3)]);
                          (ustr "day_2", JInt 2)]).
Proof.
  assert (H : extract_and_parse_json st_returns default_limits
                (py "{'day_1': 1, 'day_2': 2, 'day_1': {'a': 3}}") []
              = (Return (Some (JObj [(ustr "day_1",
                                      JObj [(ustr "a", JInt 3)]);
                                     (ustr "day_2", JInt 2)])), []))
    by (vm_compute; reflexivity).
  split; [exact H|].
  exact (proj1 (extracted_keys_distinct _ _ _ _ _ _ H)).
Defined.



(* ===================================================================== *)
(** ** The display                                                         *)
(* ===================================================================== *)

Lemma assoc_dict_set {V : Type} (k k' : str) (v : V) (d : list (str * V)) :
  dict_find k (dict_set k' v d)
  = if str_eqb k k' then Some v else dict_find k d.
Proof.
  induction d as [|[k0 v0] d IH]; cbn [dict_set dict_find].
  - destruct (str_eqb k k'); reflexivity.
  - destruct (str_eqb k' k0) eqn:E0; cbn [dict_find].
    + apply str_eqb_eq in E0. subst k0.
      destruct (str_eqb k k'); reflexivity.
    + rewrite IH. destruct (str_eqb k k') eqn:E1; [|reflexivity].
      apply str_eqb_eq in E1. subst k'. now rewrite E0.
Qed.

Lemma str_eqb_refl (a : str) : str_eqb a a = true.
Proof. now apply str_eqb_eq. Qed.

Lemma assoc_In {V : Type} (k : str) (d : list (str * V)) :
  In k (map fst d) -> exists v, dict_find k d = Some v.
Proof.
  induction d as [|[k0 v0] d IH]; cbn [map fst In dict_find]; [intros []|].
  intros [->|H].
  - rewrite str_eqb_refl. eauto.
  - destruct (str_eqb k k0); eauto.
Qed.

Section DisplayFacts.

Variable st_call : ui_call -> outcome unit.
Variable st_button : str -> str -> bool -> outcome bool.
Variable py_str : json -> str.
Variable display_day : json -> json -> json -> action unit.

Lemma bind_eval {A B : Type} (o : outcome A) (k : A -> action B)
    (s : session) :
  bind (eval o) k s
  = match o with
    | Return a => k a s
    | Raise e => (Raise e, s)
    end.
Proof. unfold bind, eval. now destruct o. Qed.

Lemma bind_raise {A B : Type} (m : action A) (k : A -> action B)
    (s s' : session) (e : exn) :
  m s = (Raise e, s') -> bind m k s = (Raise e, s').
Proof. intros H. unfold bind. now rewrite H. Qed.

Lemma bind_cong {A B : Type} (m : action A) (k1 k2 : A -> action B)
    (s : session) :
  (forall a s', k1 a s' = k2 a s') -> bind m k1 s = bind m k2 s.
Proof.
  intros H. unfold bind. destruct (m s) as [[a|e] s']; [apply H|reflexivity].
Qed.

Lemma bind_return {A B : Type} (m : action A) (k : A -> action B)
    (s s' : session) (a : A) :
  m s = (Return a, s') -> bind m k s = k a s'.
Proof. intros H. unfold bind. now rewrite H. Qed.

(** While no button returns [True], the loop keeps the selected day and
    the session. *)
Lemma day_buttons_idle (days : list str) :
  (forall label key primary, st_button label key primary <> Return true) ->
  forall selected s,
    day_buttons st_button days selected s = (Return selected, s)
    \/ exists e, day_buttons st_button days selected s = (Raise e, s).
Proof.
  intros Hb. induction days as [|day rest IH]; intros selected s.
  - now left.
  - cbn [day_buttons]. rewrite bind_eval.
    destruct (st_button _ _ _) as [[|]|e] eqn:E.
    + now apply Hb in E.
    + apply IH.
    + right. now exists e.
Qed.

(** The metrics do not touch the session. *)
Lemma display_metrics_session (plan : json) (s : session) :
  snd (display_metrics st_call py_str plan s) = s.
Proof.
  unfold display_metrics.
  repeat (rewrite bind_eval; cbv beta iota;
          try match goal with
              | |- snd (match ?o with _ => _ end) = _ =>
                  destruct o; [|reflexivity]
              end).
  unfold eval. reflexivity.
Qed.

Lemma select_day_idle (plan : json) (s : session) :
  (forall label key primary, st_button label key primary <> Return true) ->
  dict_find (ustr "selected_day") s = Some JNull ->
  exists e, select_day st_call st_button plan s = (Raise e, s).
Proof.
  intros Hb Hs. unfold select_day.
  rewrite bind_eval.
  destruct (st_call st_markdown_select_day); [|eauto].
  rewrite bind_eval.
  destruct (getitem plan (JStr (ustr "daily_plans"))) as [dp|e] eqn:Hdp;
    [|eauto].
  rewrite bind_eval.
  destruct (keys_method dp) as [days|e] eqn:Hk; [|eauto].
  rewrite bind_eval.
  destruct (st_call (st_columns _)); [|eauto].
  rewrite bind_eval.
  destruct days as [|day rest]; [eauto|].
  unfold bind at 1. unfold read. unfold session_get. rewrite Hs.
  destruct (day_buttons_idle (day :: rest) Hb JNull s) as [H|(e & H)].
  - rewrite (bind_return _ _ _ _ _ H). rewrite bind_eval. cbv beta iota.
    rewrite bind_eval.
    destruct dp; try discriminate. cbn [getitem]. eauto.
  - rewrite (bind_raise _ _ _ _ _ H). eauto.
Qed.

(** X12: while the session holds [None] as the selected day, as [main] sets
    it, and no button of a day returns [True], [display_plan] raises an
    exception at the lookup of the plan of the day at the latest, for every
    plan and whatever the rendering calls do; the session is unchanged. *)
Theorem display_raises_without_selected_day (plan : json) (s : session) :
  (forall label key primary, st_button label key primary <> Return true) ->
  dict_find (ustr "selected_day") s = Some JNull ->
  exists e,
    display_plan st_call st_button py_str display_day plan s = (Raise e, s).
Proof.
  intros Hb Hs. unfold display_plan.
  pose proof (display_metrics_session plan s) as Hm.
  destruct (display_metrics st_call py_str plan s) as [[[]|e] s0] eqn:E;
    cbn [snd] in Hm; subst s0.
  2:{ exists e. now apply bind_raise. }
  rewrite (bind_return _ _ _ _ _ E). rewrite bind_eval.
  destruct (st_call st_tabs); [|eauto].
  destruct (select_day_idle plan s Hb Hs) as (e & H).
  exists e. now apply bind_raise.
Qed.

Lemma dict_set_twice {V : Type} (k : str) (v : V) (d : list (str * V)) :
  dict_set k v (dict_set k v d) = dict_set k v d.
Proof.
  induction d as [|[k0 v0] d IH]; cbn [dict_set].
  - now rewrite str_eqb_refl.
  - destruct (str_eqb k k0) eqn:E; cbn [dict_set]; rewrite E.
    + reflexivity.
    + now rewrite IH.
Qed.

Section Buttons.

(** The rendering calls return, and a button returns as its key says. *)
Variable pressed : str -> bool.
Hypothesis st_call_returns : forall c, st_call c = Return tt.
Hypothesis st_button_pressed :
  forall label key primary, st_button label key primary = Return (pressed key).

Lemma day_buttons_none (days : list str) :
  (forall k, In k days -> pressed (day_button_key k) = false) ->
  forall selected s,
    day_buttons st_button days selected s = (Return selected, s).
Proof.
  induction days as [|day rest IH]; intros H selected s; [reflexivity|].
  cbn [day_buttons]. rewrite bind_eval, st_button_pressed.
  rewrite H by now left. apply IH. intros k Hk. apply H. now right.
Qed.

Lemma day_buttons_one (day : str) (days : list str) :
  In day days ->
  (forall k, In k days -> pressed (day_button_key k) = true <-> k = day) ->
  forall selected s,
    day_buttons st_button days selected s
    = (Return (JStr day), dict_set (ustr "selected_day") (JStr day) s).
Proof.
  induction days as [|d rest IH]; intros Hin H selected s; [destruct Hin|].
  cbn [day_buttons]. rewrite bind_eval, st_button_pressed.
  assert (Hrest : forall k, In k rest ->
            pressed (day_button_key k) = true <-> k = day)
    by (intros k Hk; apply H; now right).
  destruct (pressed (day_button_key d)) eqn:E.
  - apply (H d (or_introl eq_refl)) in E. subst d.
    unfold bind at 1. unfold assign.
    destruct (in_dec (list_eq_dec N.eq_dec) day rest) as [Hr|Hr].
    + rewrite (IH Hr Hrest). now rewrite dict_set_twice.
    + apply day_buttons_none. intros k Hk.
      destruct (pressed (day_button_key k)) eqn:Ek; [|reflexivity].
      apply (Hrest k Hk) in Ek. now subst k.
  - destruct Hin as [->|Hin].
    + assert (Ht : pressed (day_button_key day) = true)
        by now apply (H day (or_introl eq_refl)).
      congruence.
    + now apply IH.
Qed.

Lemma select_day_steps (plan : json) (d : list (str * json)) (first : str)
    (s : session) :
  getitem plan (JStr (ustr "daily_plans")) = Return (JObj d) ->
  hd_error (map fst d) = Some first ->
  select_day st_call st_button plan s
  = bind (day_buttons st_button (map fst d)
            (session_get (ustr "selected_day") (JStr first) s))
      (fun selected_day =>
         bind (eval (getitem (JObj d) selected_day))
           (fun day_plan => ret (selected_day, day_plan))) s.
Proof.
  intros Hd Hf. unfold select_day.
  rewrite bind_eval, st_call_returns. rewrite bind_eval, Hd.
  rewrite bind_eval. cbn [keys_method]. rewrite bind_eval, st_call_returns.
  rewrite bind_eval. destruct (map fst d) as [|day rest]; [discriminate|].
  injection Hf as ->. unfold bind at 1. unfold read.
  apply bind_cong. intros sel s'. now rewrite bind_eval.
Qed.

End Buttons.

End DisplayFacts.

(** X13: when no button is pressed and the session holds the key of a day,
    that day is shown if the plan has it, and the session is unchanged; if
    the plan does not have the key, as after a new plan with fewer days,
    the lookup raises [KeyError]. *)
Theorem stored_day_is_shown
    (st_call : ui_call -> outcome unit)
    (st_button : str -> str -> bool -> outcome bool)
    (plan : json) (d : list (str * json)) (day : str) (s : session) :
  (forall c, st_call c = Return tt) ->
  (forall label key primary, st_button label key primary = Return false) ->
  getitem plan (JStr (ustr "daily_plans")) = Return (JObj d) ->
  d <> [] ->
  dict_find (ustr "selected_day") s = Some (JStr day) ->
  select_day st_call st_button plan s
  = (match dict_find day d with
     | Some day_plan => Return (JStr day, day_plan)
     | None => Raise KeyError
     end, s).
Proof.
  intros Hc Hb Hd Hne Hs.
  destruct d as [|[k0 v0] d'] eqn:Ed; [contradiction|]. rewrite <- Ed in *.
  rewrite (select_day_steps st_call st_button Hc plan d k0 s Hd)
    by (subst d; reflexivity).
  unfold session_get. rewrite Hs.
  rewrite (bind_return _ _ _ _ _
             (day_buttons_none st_button (fun _ => false) Hb
                (map fst d) (fun _ _ => eq_refl) (JStr day) s)).
  rewrite bind_eval. cbn [getitem].
  destruct (dict_find day d); reflexivity.
Qed.

(** X14: when the button of one day of the plan returns [True], that day is
    shown whatever the session held, and the session holds its key
    afterwards. *)
Theorem pressed_day_is_shown
    (st_call : ui_call -> outcome unit)
    (st_button : str -> str -> bool -> outcome bool)
    (pressed : str -> bool)
    (plan : json) (d : list (str * json)) (day : str) (day_plan : json)
    (s : session) :
  (forall c, st_call c = Return tt) ->
  (forall label key primary,
     st_button label key primary = Return (pressed key)) ->
  getitem plan (JStr (ustr "daily_plans")) = Return (JObj d) ->
  dict_find day d = Some day_plan ->
  In day (map fst d) ->
  (forall k, In k (map fst d) ->
             pressed (day_button_key k) = true <-> k = day) ->
  select_day st_call st_button plan s
  = (Return (JStr day, day_plan),
     dict_set (ustr "selected_day") (JStr day) s).
Proof.
  intros Hc Hb Hd Hv Hin Hp.
  destruct (map fst d) as [|k0 rest] eqn:Ek; [destruct Hin|].
  rewrite (select_day_steps st_call st_button Hc plan d k0 s Hd)
    by (now rewrite Ek).
  rewrite Ek.
  rewrite (bind_return _ _ _ _ _
             (day_buttons_one st_button pressed Hb day
                (k0 :: rest) Hin Hp _ s)).
  rewrite bind_eval. cbn [getitem]. now rewrite Hv.
Qed.

(* ===================================================================== *)
(** ** [main]                                                              *)
(* ===================================================================== *)

Lemma setdefault_keeps (k k' : str) (v x : json) (s : session) :
  dict_find k s = Some x -> dict_find k (setdefault k' v s) = Some x.
Proof.
  intros H. unfold setdefault.
  destruct (dict_find k' s) eqn:E; [exact H|].
  rewrite assoc_dict_set. destruct (str_eqb k k') eqn:Ek; [|exact H].
  apply str_eqb_eq in Ek. subst k'. congruence.
Qed.

Lemma setdefault_sets (k : str) (v : json) (s : session) :
  dict_find k (setdefault k v s) = Some (session_get k v s).
Proof.
  unfold setdefault, session_get.
  destruct (dict_find k s) eqn:E; [exact E|].
  now rewrite assoc_dict_set, str_eqb_refl.
Qed.

Lemma setdefault_other (k k' : str) (v : json) (s : session) :
  str_eqb k k' = false -> dict_find k (setdefault k' v s) = dict_find k s.
Proof.
  intros H. unfold setdefault. destruct (dict_find k' s); [reflexivity|].
  now rewrite assoc_dict_set, H.
Qed.

(** After the defaults, the session has a plan, maybe [None], and a
    selected day, maybe [None]. *)
Lemma init_session_plan (s : session) :
  dict_find (ustr "nutrition_plan") (init_session s)
  = Some (session_get (ustr "nutrition_plan") JNull s).
Proof.
  unfold init_session.
  do 4 (erewrite setdefault_keeps; [reflexivity|]).
  apply setdefault_sets.
Qed.

Lemma init_session_selected_day (s : session) :
  dict_find (ustr "selected_day") (init_session s)
  = Some (session_get (ustr "selected_day") JNull s).
Proof.
  unfold init_session.
  do 3 (erewrite setdefault_keeps; [reflexivity|]).
  rewrite setdefault_sets. unfold session_get.
  now rewrite setdefault_other by reflexivity.
Qed.

Section MainFacts.

Variable float_is_zero : str -> bool.
Variable getenv_api_key : option str.
Variable client : Type.
Variable ChatGroq : str -> outcome client.
Variable invoke : client -> str -> outcome str.
Variable timestamp : str.
Variable st : streamlit.
Variable lim : limits.
Variable display : json -> action unit.
Variable new_plan_button : bool.

Lemma store_plan_keeps (parsed : option json) (s : session) (x : json) :
  dict_find (ustr "selected_day") s = Some x ->
  dict_find (ustr "selected_day") (fst (store_plan float_is_zero parsed s))
  = Some x.
Proof.
  intros H. unfold store_plan.
  destruct (truthy_result float_is_zero parsed); cbn [fst]; [|exact H].
  rewrite assoc_dict_set. exact H.
Qed.





(** The prompt sent to the model. *)
Lemma format_prompt_text (p : UserProfile) :
  format_prompt p timestamp = Some (prompt_text p timestamp).
Proof.
  pose proof (format_prompt_some p timestamp) as (text & H).
  unfold prompt_text. now rewrite H.
Qed.

Lemma generate_prompt (c : client) (p : UserProfile) (s : session) :
  generate float_is_zero client invoke timestamp st lim c p s
  = answer float_is_zero client invoke st lim c
      (prompt_text p timestamp) s.
Proof. unfold generate. now rewrite format_prompt_text. Qed.

(** The first [if], when the session holds no plan, the client is there
    and the model answers. *)
Lemma generation_step_answer (form : FormValues) (s : session)
    (api_key : str) (c : client) (content : str) (parsed : option json)
    (ui : page) (x : json) :
  getenv_api_key = Some api_key -> api_key <> [] ->
  ChatGroq api_key = Return c ->
  dict_find (ustr "nutrition_plan") s = Some x ->
  truthy float_is_zero x = false ->
  invoke c (prompt_text (user_data form) timestamp) = Return content ->
  extract_and_parse_json st lim content [] = (Return parsed, ui) ->
  generation_step float_is_zero getenv_api_key client ChatGroq invoke
    timestamp st lim (get_user_input form true) s
  = (Done tt, fst (store_plan float_is_zero parsed s),
     map from_extraction ui ++ snd (store_plan float_is_zero parsed s)).
Proof.
  intros Hkey Hne Hc Hx Ht Hi He.
  cbn [get_user_input]. unfold generation_step. rewrite Hx, Ht.
  unfold init_groq_client. rewrite Hkey.
  destruct api_key as [|k0 key]; [contradiction|]. rewrite Hc.
  cbn [fst snd app]. rewrite generate_prompt. unfold answer.
  rewrite Hi. cbv zeta. rewrite He. reflexivity.
Qed.

(** X9: when the model answers with a text whose extracted value is false
    for Python (an empty object or list, zero, an empty string, [false],
    [null]) or with a text that extraction rejects, no plan is stored, and
    after what extraction rendered the run shows that no valid plan was
    generated; [display_plan] is not called. *)
Theorem falsy_answer_is_not_stored (form : FormValues) (s : session)
    (api_key : str) (c : client) (content : str) (parsed : option json)
    (ui : page) :
  getenv_api_key = Some api_key -> api_key <> [] ->
  ChatGroq api_key = Return c ->
  truthy float_is_zero (session_get (ustr "nutrition_plan") JNull s)
  = false ->
  invoke c (prompt_text (user_data form) timestamp) = Return content ->
  extract_and_parse_json st lim content [] = (Return parsed, ui) ->
  truthy_result float_is_zero parsed = false ->
  main float_is_zero getenv_api_key client ChatGroq invoke timestamp st lim
    display new_plan_button s form true
  = (Done tt, init_session s, map from_extraction ui ++ [failed_to_generate]).
Proof.
  intros Hkey Hne Hc Ht Hi He Hp. unfold main. cbv zeta.
  rewrite (generation_step_answer form (init_session s) api_key c content
             parsed ui _ Hkey Hne Hc (init_session_plan s) Ht Hi He).
  unfold store_plan. rewrite Hp. cbn [fst snd].
  unfold display_step. rewrite init_session_plan, Ht. reflexivity.
Qed.

End MainFacts.

(** X11: in the run that generates a plan, no button of a day is pressed and
    the session holds [None] as the selected day: the plan that extraction
    returned is stored, and then [display_plan] raises, so that the run
    ends in an exception although a plan was generated. *)
Theorem generation_run_fails_in_display
    (float_is_zero : str -> bool) (client : Type)
    (ChatGroq : str -> outcome client) (invoke : client -> str -> outcome str)
    (timestamp : str) (st : streamlit) (lim : limits)
    (new_plan_button : bool)
    (st_call : ui_call -> outcome unit)
    (st_button : str -> str -> bool -> outcome bool)
    (py_str : json -> str)
    (display_day : json -> json -> json -> action unit)
    (form : FormValues) (s : session)
    (api_key : str) (c : client) (content : str) (plan : json) (ui : page) :
  api_key <> [] ->
  ChatGroq api_key = Return c ->
  truthy float_is_zero (session_get (ustr "nutrition_plan") JNull s)
  = false ->
  session_get (ustr "selected_day") JNull s = JNull ->
  invoke c (prompt_text (user_data form) timestamp) = Return content ->
  extract_and_parse_json st lim content [] = (Return (Some plan), ui) ->
  truthy float_is_zero plan = true ->
  (forall label key primary, st_button label key primary <> Return true) ->
  exists e,
    main float_is_zero (Some api_key) client ChatGroq invoke timestamp st lim
      (display_plan st_call st_button py_str display_day) new_plan_button
      s form true
    = (Failed e,
       dict_set (ustr "nutrition_plan") plan (init_session s),
       map from_extraction ui).
Proof.
  intros Hne Hc Ht Hd Hi He Hp Hb.
  set (s1 := dict_set (ustr "nutrition_plan") plan (init_session s)).
  assert (Hsel : dict_find (ustr "selected_day") s1 = Some JNull).
  { unfold s1. rewrite assoc_dict_set.
    change (str_eqb (ustr "selected_day") (ustr "nutrition_plan"))
      with false. cbv iota.
    now rewrite init_session_selected_day, Hd. }
  destruct (display_raises_without_selected_day st_call st_button py_str
              display_day plan s1 Hb Hsel) as (e & Hdis).
  exists e. unfold main. cbv zeta.
  rewrite (generation_step_answer float_is_zero (Some api_key) client
             ChatGroq invoke timestamp st lim form (init_session s) api_key c
             content (Some plan) ui _ eq_refl Hne Hc (init_session_plan s)
             Ht Hi He).
  unfold store_plan. cbn [truthy_result]. rewrite Hp. cbn [fst snd].
  fold s1. unfold display_step.
  assert (Hplan : dict_find (ustr "nutrition_plan") s1 = Some plan)
    by (unfold s1; now rewrite assoc_dict_set, str_eqb_refl).
  rewrite Hplan, Hp, Hdis. cbn [fst snd]. now rewrite app_nil_r.
Qed.

(* ===================================================================== *)
(** ** Extraction of a text with braces                                    *)
(* ===================================================================== *)

Lemma first_occurrence (c : char) (s : str) :
  In c s -> exists p r, s = p ++ c :: r /\ ~ In c p.
Proof.
  induction s as [|x s IH]; intros H; [destruct H|].
  destruct (N.eq_dec x c) as [->|Hx].
  - exists [], s. split; [reflexivity|intros []].
  - destruct H as [H|H]; [contradiction|].
    destruct (IH H) as (p & r & -> & Hp). exists (x :: p), r.
    split; [reflexivity|]. intros [E|E]; [now apply Hx|now apply Hp].
Qed.

(** A text with a brace pair, cut at its first [{] and its last [}]. *)
Lemma brace_pair_cut (s : str) :
  brace_pair s ->
  exists p1 body p2,
    s = p1 ++ c_lbrace :: body ++ c_rbrace :: p2
    /\ ~ In c_lbrace p1 /\ ~ In c_rbrace p2.
Proof.
  intros (a & b & c & ->).
  destruct (first_occurrence c_lbrace (a ++ c_lbrace :: b ++ c_rbrace :: c))
    as (p1 & r & E & Hp1).
  { apply in_or_app. right. now left. }
  assert (Hr : In c_rbrace r).
  { apply app_cons_align in E.
    destruct E as [(t & -> & ->)|[(_ & _ & <-)|(w' & -> & _)]].
    - apply in_or_app. right. right. apply in_or_app. right. now left.
    - apply in_or_app. right. now left.
    - exfalso. apply Hp1. apply in_or_app. right. now left. }
  destruct (last_occurrence c_rbrace r Hr) as (body & p2 & -> & Hp2).
  exists p1, body, p2. now rewrite E.
Qed.

Lemma candidate_json_of_group (p1 body p2 : str) :
  ~ In c_lbrace p1 -> ~ In c_rbrace p2 ->
  candidate_json (p1 ++ c_lbrace :: body ++ c_rbrace :: p2)
  = re_sub comma_pattern [RGroup1]
      (strip (re_sub fence_pattern [] (c_lbrace :: body ++ [c_rbrace]))).
Proof.
  intros H1 H2. unfold candidate_json.
  now rewrite re_search_json_pattern by assumption.
Qed.

(** What is returned depends on the candidate only, when the calls of
    Streamlit return. *)
Lemma extract_with_result (st : streamlit) (loads : str -> outcome json)
    (raw : str) (ui : page) :
  renders st ->
  fst (extract_with st loads raw ui)
  = match loads (candidate_json raw) with
    | Return v => Return (Some v)
    | Raise e => Return None
    end.
Proof.
  intros Hst. unfold extract_with.
  destruct (loads (candidate_json raw)) as [v|e]; [reflexivity|].
  cbn [try_except]. destruct (isinstance e cls_JSONDecodeError).
  - unfold on_decode_error, render. now rewrite !Hst.
  - cbn [isinstance]. unfold on_exception, render. now rewrite Hst.
Qed.

Lemma extract_with_value_iff (st : streamlit) (loads : str -> outcome json)
    (raw : str) (ui : page) (v : json) :
  extract_with st loads raw ui = (Return (Some v), ui)
  <-> loads (candidate_json raw) = Return v.
Proof.
  split.
  - intros H. now apply extract_with_value in H.
  - apply extract_with_return.
Qed.

Lemma re_sub_fence_brace (t : str) :
  exists t', re_sub fence_pattern [] (c_lbrace :: t) = c_lbrace :: t'.
Proof.
  unfold re_sub. cbn [length re_sub_from].
  assert (H : re_match fence_pattern (c_lbrace :: t) = None)
    by reflexivity.
  rewrite H. eauto.
Qed.

Lemma re_sub_comma_brace (t : str) :
  exists t', re_sub comma_pattern [RGroup1] (c_lbrace :: t) = c_lbrace :: t'.
Proof.
  unfold re_sub. cbn [length re_sub_from].
  rewrite re_match_comma_unfold. change (N.eqb c_lbrace c_comma) with false.
  cbv iota. eauto.
Qed.

Lemma lstrip_last (l : str) (c : char) :
  is_space c = false -> exists l', lstrip (l ++ [c]) = l' ++ [c].
Proof.
  intros Hc. induction l as [|x l (l' & IH)]; cbn [app lstrip].
  - rewrite Hc. now exists [].
  - destruct (is_space x); [now exists l'|now exists (x :: l)].
Qed.

Lemma strip_brace (t : str) :
  exists t', strip (c_lbrace :: t) = c_lbrace :: t'.
Proof.
  unfold strip, rstrip. rewrite lstrip_head by reflexivity.
  cbn [rev]. destruct (lstrip_last (rev t) c_lbrace eq_refl) as (l' & ->).
  rewrite rev_app_distr. cbn [rev app]. eauto.
Qed.

Lemma json_loads_brace (lim : limits) (t : str) (v : json) :
  json_loads lim (c_lbrace :: t) = Return v -> is_object v.
Proof.
  intros H. apply json_loads_decode in H. unfold decode in H.
  rewrite skip_ws_id in H by reflexivity.
  destruct (scan_once _ _ (c_lbrace :: t)) as [v0 r| |e0] eqn:E;
    try discriminate.
  destruct (skip_ws r); [|discriminate]. injection H as <-.
  apply scan_once_head in E. now apply E.
Qed.

Lemma candidate_json_prose (p1 core p2 : str) :
  braced core -> ~ In c_lbrace p1 -> ~ In c_rbrace p2 ->
  candidate_json (p1 ++ core ++ p2) = candidate_json core.
Proof.
  intros (body & ->) H1 H2.
  replace (p1 ++ (c_lbrace :: body ++ [c_rbrace]) ++ p2)
    with (p1 ++ c_lbrace :: body ++ c_rbrace :: p2)
    by (cbn [app]; now rewrite <- app_assoc).
  rewrite candidate_json_of_group by assumption.
  replace (c_lbrace :: body ++ [c_rbrace])
    with ([] ++ c_lbrace :: body ++ c_rbrace :: []) at 2 by reflexivity.
  rewrite candidate_json_of_group by (intros []).
  reflexivity.
Qed.

(** X2: prose before the first opening brace and after the last closing
    brace does not change what extraction returns: the text from a [{] to a
    [}], with prose around it that has no [{] before and no [}] after,
    gives a value exactly when it gives that value alone, whatever the
    calls of Streamlit do; when they return, it gives the result it gives
    alone, be it a value or a failure. *)
Theorem prose_around_braces_ignored (st st' : streamlit) (lim : limits)
    (p1 core p2 : str) (ui ui' : page) :
  braced core -> ~ In c_lbrace p1 -> ~ In c_rbrace p2 ->
  (forall v,
     extract_and_parse_json st lim (p1 ++ core ++ p2) ui
     = (Return (Some v), ui)
     <-> extract_and_parse_json st' lim core ui' = (Return (Some v), ui'))
  /\ (renders st ->
      fst (extract_and_parse_json st lim (p1 ++ core ++ p2) ui)
      = fst (extract_and_parse_json st lim core ui')).
Proof.
  intros Hb H1 H2.
  pose proof (candidate_json_prose p1 core p2 Hb H1 H2) as Hc.
  unfold extract_and_parse_json. split.
  - intros v. rewrite !extract_with_value_iff. now rewrite Hc.
  - intros Hst. rewrite !extract_with_result by exact Hst. now rewrite Hc.
Qed.

(** X1: when the text has an opening brace with a closing brace somewhere
    after it, extraction returns a JSON object or nothing: a scalar or a
    list is returned only for a text without such a pair. *)
Theorem braces_give_an_object (st : streamlit) (lim : limits) (raw : str)
    (ui ui' : page) (v : json) :
  brace_pair raw ->
  extract_and_parse_json st lim raw ui = (Return (Some v), ui') ->
  is_object v.
Proof.
  intros Hb H. apply extract_with_value in H. destruct H as (H & _).
  destruct (brace_pair_cut raw Hb) as (p1 & body & p2 & -> & H1 & H2).
  rewrite candidate_json_of_group in H by assumption.
  destruct (re_sub_fence_brace (body ++ [c_rbrace])) as (t1 & E1).
  rewrite E1 in H.
  destruct (strip_brace t1) as (t2 & E2). rewrite E2 in H.
  destruct (re_sub_comma_brace t2) as (t3 & E3). rewrite E3 in H.
  now apply json_loads_brace in H.
Qed.

(* ===================================================================== *)
(** ** The text of the download                                            *)
(* ===================================================================== *)

Lemma printable_range (c : char) :
  printable c = true <-> c = 10%N \/ (32 <= c <= 126)%N.
Proof.
  unfold printable.
  rewrite orb_true_iff, andb_true_iff, N.eqb_eq, !N.leb_le. tauto.
Qed.

Lemma digit_printable (c : char) : is_digit c = true -> printable c = true.
Proof.
  unfold is_digit. rewrite andb_true_iff, !N.leb_le. intros H.
  apply printable_range. lia.
Qed.

Lemma digits_printable (ds : str) :
  forallb is_digit ds = true -> forallb printable ds = true.
Proof.
  induction ds as [|c ds IH]; cbn [forallb]; [reflexivity|].
  rewrite !andb_true_iff. intros [Hc Hds].
  split; [now apply digit_printable|now apply IH].
Qed.

Lemma hex_digit_printable (d : N) :
  (d < 16)%N -> printable (hex_digit d) = true.
Proof.
  intros H. apply printable_range. right. unfold hex_digit.
  destruct (d <? 10)%N eqn:E; [apply N.ltb_lt in E|apply N.ltb_ge in E]; lia.
Qed.

Lemma u_escape_printable (n : N) :
  (n < 65536)%N -> forallb printable (u_escape n) = true.
Proof.
  intros H. unfold u_escape, hex4. cbn [forallb].
  rewrite !hex_digit_printable;
    try (apply N.mod_lt; discriminate);
    try (apply N.Div0.div_lt_upper_bound; exact H).
  reflexivity.
Qed.

Lemma escape_char_printable (c : char) :
  valid_char c = true -> forallb printable (escape_char c) = true.
Proof.
  intros Hv. unfold valid_char in Hv. apply N.leb_le in Hv.
  unfold escape_char.
  repeat match goal with
         | |- context [if N.eqb ?a ?b then _ else _] =>
             destruct (N.eqb a b); [reflexivity|]
         end.
  destruct ((32 <=? c) && (c <=? 126))%N eqn:Hp.
  { cbn [forallb]. unfold printable. rewrite Hp.
    now rewrite orb_true_r. }
  destruct (c <? 65536)%N eqn:Hb.
  { apply u_escape_printable. now apply N.ltb_lt. }
  apply N.ltb_ge in Hb.
  destruct (astral_pair c Hb Hv) as (-> & -> & Hq & Hr).
  rewrite forallb_app, !u_escape_printable by lia. reflexivity.
Qed.

Lemma encode_basestring_printable (s : str) :
  forallb valid_char s = true ->
  forallb printable (encode_basestring_ascii s) = true.
Proof.
  intros H. unfold encode_basestring_ascii. cbn [forallb].
  rewrite forallb_app. cbn [forallb]. rewrite andb_true_r.
  change (printable c_quote) with true. cbn [andb].
  induction s as [|c s IH]; [reflexivity|].
  cbn [forallb flat_map] in *. apply andb_true_iff in H.
  destruct H as [Hc Hs].
  now rewrite forallb_app, escape_char_printable, IH.
Qed.

Lemma decimal_printable (n : N) : forallb printable (decimal n) = true.
Proof.
  rewrite decimal_chars. destruct n; [reflexivity|].
  apply digits_printable, uint_chars_digits.
Qed.

Lemma int_repr_printable (z : Z) : forallb printable (int_repr z) = true.
Proof.
  destruct z; cbn [int_repr forallb]; rewrite ?decimal_printable;
    reflexivity.
Qed.

Lemma match_integer_printable (s i r : str) :
  match_integer s = Some (i, r) -> forallb printable i = true.
Proof.
  unfold match_integer. destruct s as [|c t]; [discriminate|].
  assert (Hint : forall sign d t0,
            forallb printable sign = true ->
            (if N.eqb d (ch "0") then Some (sign ++ [d], t0)
             else if is_digit d
                  then let (ds, r0) := digits t0 in Some (sign ++ d :: ds, r0)
                  else None) = Some (i, r) ->
            forallb printable i = true).
  { intros sign d t0 Hs. destruct (N.eqb_spec d (ch "0")) as [->|_].
    - intros [= <- <-]. rewrite forallb_app, Hs. reflexivity.
    - destruct (is_digit d) eqn:Hd; [|discriminate].
      destruct (digits t0) as [ds r0] eqn:Hds. intros [= <- <-].
      apply digits_split in Hds. destruct Hds as [_ Hds].
      rewrite forallb_app, Hs. cbn [forallb andb].
      now rewrite digit_printable, digits_printable. }
  destruct (N.eqb_spec c (ch "-")) as [->|_].
  - destruct t as [|d t]; [discriminate|]. now apply Hint.
  - now apply (Hint [] c t).
Qed.

Lemma match_frac_printable (s : str) (f : option str) (r : str) :
  match_frac s = (f, r) -> forallb printable (opt_text f) = true.
Proof.
  unfold match_frac. destruct s as [|c t]; [intros [= <- <-]; reflexivity|].
  destruct (N.eqb_spec c (ch ".")) as [->|_];
    [|intros [= <- <-]; reflexivity].
  destruct (digits t) as [[|d ds] r0] eqn:Hds; intros [= <- <-];
    [reflexivity|].
  apply digits_split in Hds. destruct Hds as [_ Hds].
  cbn [opt_text forallb]. change (printable (ch ".")) with true.
  now apply digits_printable in Hds.
Qed.

Lemma match_exp_printable (s : str) (e : option str) (r : str) :
  match_exp s = (e, r) -> forallb printable (opt_text e) = true.
Proof.
  unfold match_exp. destruct s as [|c t]; [intros [= <- <-]; reflexivity|].
  destruct (N.eqb c (ch "e") || N.eqb c (ch "E"))%bool eqn:Hc;
    [|intros [= <- <-]; reflexivity].
  assert (Hcp : printable c = true).
  { apply orb_true_iff in Hc. destruct Hc as [Hc|Hc];
      apply N.eqb_eq in Hc; subst c; reflexivity. }
  assert (Hexp : forall sign t1,
            forallb printable sign = true ->
            match digits t1 with
            | ([], _) => (None, c :: t)
            | (ds, r0) => (Some (c :: sign ++ ds), r0)
            end = (e, r) ->
            forallb printable (opt_text e) = true).
  { intros sign t1 Hs. destruct (digits t1) as [[|d ds] r0] eqn:Hds;
      intros [= <- <-]; [reflexivity|].
    apply digits_split in Hds. destruct Hds as [_ Hds].
    cbn [opt_text forallb]. rewrite Hcp, forallb_app, Hs.
    now apply digits_printable in Hds. }
  destruct t as [|x t']; [now apply (Hexp [] [])|].
  destruct (N.eqb x (ch "-") || N.eqb x (ch "+"))%bool eqn:Hx.
  - apply (Hexp [x] t'). cbn [forallb]. rewrite andb_true_r.
    apply orb_true_iff in Hx. destruct Hx as [Hx|Hx];
      apply N.eqb_eq in Hx; subst x; reflexivity.
  - now apply (Hexp [] (x :: t')).
Qed.

Lemma float_text_printable (t : str) :
  float_text t -> forallb printable t = true.
Proof.
  intros [(m & Hm & Hend & _)|(c & ->)]; [|now destruct c].
  pose proof (number_text _ _ Hm) as Ht. rewrite Hend, app_nil_r in Ht.
  unfold match_number in Hm.
  destruct (match_integer t) as [[i r]|] eqn:Hi; [|discriminate].
  destruct (match_frac r) as [f r1] eqn:Hf.
  destruct (match_exp r1) as [e r2] eqn:He.
  injection Hm as <-. cbn [n_integer n_frac n_exp] in Ht. rewrite Ht.
  rewrite !forallb_app.
  now rewrite (match_integer_printable _ _ _ Hi),
    (match_frac_printable _ _ _ Hf), (match_exp_printable _ _ _ He).
Qed.

Lemma newline_indent_printable (level : nat) :
  forallb printable (newline_indent level) = true.
Proof.
  unfold newline_indent. cbn [forallb]. change (printable 10%N) with true.
  cbn [andb]. induction (2 * level) as [|n IH]; [reflexivity|].
  cbn [repeat forallb]. now rewrite IH.
Qed.

Section ExportText.

Variable F : Type.
Variable float : str -> F.
Variable floatstr : F -> str.

Hypothesis floatstr_text : forall f, float_text (floatstr f).

Lemma more_items_printable (level : nat) (xs : list json) :
  Forall (fun x => forall level,
            forallb printable (iterencode F float floatstr level x) = true)
    xs ->
  forallb printable (more_items F float floatstr level xs) = true.
Proof.
  induction 1 as [|y xs Hy _ IH]; cbn [more_items].
  - now rewrite forallb_app, newline_indent_printable.
  - cbn [forallb]. change (printable c_comma) with true.
    now rewrite !forallb_app, newline_indent_printable, Hy, IH.
Qed.

Lemma more_pairs_printable (level : nat) (d : list (str * json)) :
  Forall (fun kv =>
            forallb valid_char (fst kv) = true
            /\ forall level,
                 forallb printable
                   (iterencode F float floatstr level (snd kv)) = true) d ->
  forallb printable (more_pairs F float floatstr level d) = true.
Proof.
  induction 1 as [|[k y] d [Hk Hy] _ IH]; cbn [more_pairs].
  - now rewrite forallb_app, newline_indent_printable.
  - cbn [forallb fst snd] in *. change (printable c_comma) with true.
    rewrite !forallb_app, newline_indent_printable,
      encode_basestring_printable, Hy, IH by exact Hk.
    reflexivity.
Qed.

Lemma iterencode_printable (v : json) :
  python_value v ->
  forall level,
    forallb printable (iterencode F float floatstr level v) = true.
Proof.
  induction v as [|b|z|t|c|s|l IH|d IH] using json_induction;
    intros Hv level.
  - reflexivity.
  - now destruct b.
  - apply int_repr_printable.
  - apply float_text_printable, floatstr_text.
  - apply float_text_printable, floatstr_text.
  - inversion Hv; subst. now apply encode_basestring_printable.
  - inversion Hv as [| | | | | |l' Hl|]; subst.
    destruct l as [|x xs]; [reflexivity|].
    rewrite iterencode_arr. cbn [forallb].
    change (printable c_lbracket) with true.
    inversion IH as [|? ? IHx IHxs]; subst.
    inversion Hl as [|? ? Hx Hxs]; subst.
    rewrite !forallb_app, newline_indent_printable, IHx by exact Hx.
    rewrite more_items_printable; [reflexivity|].
    clear - IHxs Hxs. induction IHxs as [|y ys Hy _ IHys]; [constructor|].
    inversion Hxs; subst. constructor; auto.
  - inversion Hv as [| | | | | | |d' Hn Hd]; subst.
    destruct d as [|[k x] d]; [reflexivity|].
    rewrite iterencode_obj. cbn [forallb].
    change (printable c_lbrace) with true.
    inversion IH as [|? ? IHx IHd]; subst. cbn [snd] in IHx.
    inversion Hd as [|? ? [Hk Hx] Hd']; subst. cbn [fst snd] in Hk, Hx.
    rewrite !forallb_app, newline_indent_printable,
      encode_basestring_printable, IHx by assumption.
    rewrite more_pairs_printable; [reflexivity|].
    clear - IHd Hd'. induction IHd as [|[k' y] ys Hy _ IHys]; [constructor|].
    inversion Hd' as [|? ? [Hk' Hy'] Hys]; subst. cbn [fst snd] in *.
    constructor; auto.
Qed.

End ExportText.

(** X5: the text of the download is plain: for every parsed plan, it holds
    only line feeds and the characters from space to tilde, whatever
    characters the strings of the plan hold, as long as the float printer
    writes numbers or the names of the three constants. *)
Theorem download_is_plain_text
    (F : Type) (float : str -> F) (floatstr : F -> str) (lim : limits)
    (s : str) (plan : json) :
  (forall f, float_text (floatstr f)) ->
  forallb valid_char s = true ->
  json_loads lim s = Return plan ->
  forallb printable (export_data F float floatstr plan) = true.
Proof.
  intros Htext Hs Hplan. unfold export_data.
  apply iterencode_printable; [exact Htext|].
  now apply (json_loads_python_value lim s).
Qed.

(* ===================================================================== *)
(** ** The dashboard and the keys of the widgets                           *)
(* ===================================================================== *)

Lemma getitem_str (o : json) (k : str) (v : json) :
  getitem o (JStr k) = Return v ->
  exists d, o = JObj d /\ dict_find k d = Some v.
Proof.
  destruct o as [| | | | |s|l|d]; cbn [getitem]; try discriminate.
  destruct (dict_find k d) as [x|] eqn:E; [|discriminate].
  intros [= <-]. eauto.
Qed.

Lemma assoc_some_In {V : Type} (k : str) (d : list (str * V)) (v : V) :
  dict_find k d = Some v -> In (k, v) d.
Proof.
  induction d as [|[k0 v0] d IH]; cbn [dict_find]; [discriminate|].
  destruct (str_eqb k k0) eqn:E.
  - apply str_eqb_eq in E. subst k0. intros [= <-]. now left.
  - intros H. right. now apply IH.
Qed.

Lemma assoc_keys {V : Type} (k : str) (d : list (str * V)) :
  In k (map fst d) <-> exists v, dict_find k d = Some v.
Proof.
  split.
  - apply assoc_In.
  - intros (v & H). apply assoc_some_In in H.
    now apply (in_map fst) in H.
Qed.

Section DashboardFacts.

Variable st_call : ui_call -> outcome unit.
Variable py_str : json -> str.
Hypothesis st_call_returns : forall c, st_call c = Return tt.

Lemma display_metrics_fields (plan : json) (s : session) :
  fst (display_metrics st_call py_str plan s) = Return tt
  <-> has_dashboard_fields plan.
Proof.
  unfold display_metrics.
  rewrite !(bind_eval (st_call _)), !st_call_returns.
  split.
  - rewrite bind_eval.
    destruct (getitem plan (JStr (ustr "user_profile"))) as [up|e] eqn:Hup;
      [|discriminate].
    rewrite bind_eval.
    destruct (getitem up (JStr (ustr "daily_calories"))) as [dc|e] eqn:Hdc;
      [|discriminate].
    rewrite bind_eval, st_call_returns, bind_eval.
    destruct (getitem plan (JStr (ustr "metadata"))) as [md|e] eqn:Hmd;
      [|discriminate].
    rewrite bind_eval.
    destruct (getitem md (JStr (ustr "plan_duration"))) as [pd|e] eqn:Hpd;
      [|discriminate].
    intros _.
    apply getitem_str in Hup, Hdc, Hmd, Hpd.
    destruct Hup as (d & -> & Hup), Hdc as (u & -> & Hdc),
      Hmd as (d' & [= <-] & Hmd), Hpd as (m & -> & Hpd).
    exists d, u, m. repeat split; auto; apply assoc_keys; eauto.
  - intros (d & u & m & -> & Hup & Hdc & Hmd & Hpd).
    apply assoc_keys in Hdc, Hpd.
    destruct Hdc as (dc & Hdc), Hpd as (pd & Hpd).
    repeat first
      [ rewrite bind_eval; cbv beta iota
      | rewrite st_call_returns
      | progress (cbn [getitem]; rewrite ?Hup, ?Hmd, ?Hdc, ?Hpd)
      | progress unfold get_method
      | match goal with
        | |- context [match dict_find ?k u with _ => _ end] =>
            destruct (dict_find k u)
        end ];
      unfold eval; rewrite ?st_call_returns; reflexivity.
Qed.

End DashboardFacts.

(** X15: when the rendering calls return, the dashboard is rendered exactly
    for the plans that are an object with an object [user_profile] holding
    [daily_calories] and an object [metadata] holding [plan_duration]; any
    other plan raises there, and [bmi] and [bmr] may be missing. *)
Theorem dashboard_needs_two_fields
    (st_call : ui_call -> outcome unit) (py_str : json -> str)
    (plan : json) (s : session) :
  (forall c, st_call c = Return tt) ->
  (fst (display_metrics st_call py_str plan s) = Return tt
   <-> has_dashboard_fields plan).
Proof. intros H. now apply display_metrics_fields. Qed.

Lemma NoDup_map_injective {A B : Type} (f : A -> B) (l : list A) :
  (forall a b, f a = f b -> a = b) -> NoDup l -> NoDup (map f l).
Proof.
  intros Hf. induction 1 as [|x l Hx _ IH]; cbn [map]; constructor.
  - intros H. apply in_map_iff in H. destruct H as (y & E & Hy).
    apply Hf in E. now subst y.
  - exact IH.
Qed.

Lemma NoDup_map_app (p : str) (l : list str) :
  NoDup l -> NoDup (map (app p) l).
Proof.
  intros H. apply NoDup_map_injective; [|exact H].
  intros a b E. now apply app_inv_head in E.
Qed.

(** X18: the buttons of the days have different keys, for every plan that
    extraction returns: the keys of the days are different, and the key of
    a button is the key of its day after a fixed text. *)
Theorem day_button_keys_distinct (st : streamlit) (lim : limits)
    (raw : str) (ui ui' : page) (plan daily_plans : json)
    (days : list str) :
  extract_and_parse_json st lim raw ui = (Return (Some plan), ui') ->
  getitem plan (JStr (ustr "daily_plans")) = Return daily_plans ->
  keys_method daily_plans = Return days ->
  NoDup (map day_button_key days).
Proof.
  intros He Hg Hk. apply extract_with_value in He. destruct He as (He & _).
  apply json_loads_distinct in He.
  apply getitem_str in Hg. destruct Hg as (d & -> & Hg).
  inversion He as [| | | | | | |d0 _ Hall]; subst.
  apply assoc_some_In in Hg. rewrite Forall_forall in Hall.
  specialize (Hall _ Hg). cbn [snd] in Hall.
  destruct daily_plans; try discriminate. injection Hk as <-.
  inversion Hall; subst. now apply NoDup_map_app.
Qed.

(** *** The shopping list *)

(** A category without an underscore and an item make their key in one
    way only. *)
Lemma shop_key_injective (py_str : json -> str) (c1 c2 n1 n2 : str) :
  ~ In (ch "_") c1 -> ~ In (ch "_") c2 ->
  shop_key py_str c1 (JStr n1) = shop_key py_str c2 (JStr n2) ->
  c1 = c2 /\ n1 = n2.
Proof.
  intros H1 H2 E. unfold shop_key in E. cbn [format_value] in E.
  apply app_inv_head in E. cbn [ustr list_ascii_of_string map app] in E.
  apply app_cons_align in E.
  destruct E as [(t & -> & _)|[(-> & _ & ->)|(w' & -> & _)]].
  - exfalso. apply H1, in_or_app. right. now left.
  - auto.
  - exfalso. apply H2, in_or_app. right. now left.
Qed.

Section ShoppingFacts.

Variable float_is_zero : str -> bool.
Variable py_str : json -> str.

Lemma category_keys_plain (category : str) (names : list str) :
  category_keys float_is_zero py_str category (JArr (map JStr names))
  = Return (map (fun n => shop_key py_str category (JStr n)) names).
Proof.
  unfold category_keys. destruct names as [|n names]; [reflexivity|].
  cbn [map truthy iterate]. now rewrite map_map.
Qed.

(** The keys of plain categories, and where each comes from. *)
Lemma shopping_keys_plain (categories : list (str * json)) :
  Forall plain_category categories ->
  NoDup (map fst categories) ->
  exists keys,
    shopping_keys_of float_is_zero py_str categories = Return keys
    /\ NoDup keys
    /\ forall key, In key keys ->
         exists c n, In c (map fst categories)
                     /\ key = shop_key py_str c (JStr n).
Proof.
  induction 1 as [|[c items] rest (Hc & names & Hitems & Hnames) Hrest IH];
    intros Hn.
  - exists []. repeat split; [constructor|intros key []].
  - cbn [fst snd map] in *. subst items. inversion Hn as [|? ? Hout Hn']; subst.
    destruct (IH Hn') as (keys' & Hk' & Hd' & Hfrom).
    cbn [shopping_keys_of]. rewrite category_keys_plain, Hk'.
    eexists. split; [reflexivity|]. split.
    + apply NoDup_app.
      * apply NoDup_map_injective; [|exact Hnames].
        intros a b E. now apply shop_key_injective in E.
      * exact Hd'.
      * intros key Hin Hin'. apply in_map_iff in Hin.
        destruct Hin as (n & <- & _).
        destruct (Hfrom _ Hin') as (c2 & n2 & Hc2 & E).
        assert (Hc2' : ~ In (ch "_") c2).
        { rewrite Forall_forall in Hrest. apply in_map_iff in Hc2.
          destruct Hc2 as ([c0 i0] & <- & Hin0).
          now destruct (Hrest _ Hin0). }
        apply shop_key_injective in E; auto. destruct E as [-> _].
        contradiction.
    + intros key Hin. apply in_app_or in Hin. destruct Hin as [Hin|Hin].
      * apply in_map_iff in Hin. destruct Hin as (n & <- & _).
        exists c, n. split; [now left|reflexivity].
      * destruct (Hfrom _ Hin) as (c2 & n2 & Hc2 & ->).
        exists c2, n2. split; [now right|reflexivity].
Qed.

End ShoppingFacts.

(** X21: the checkboxes of the shopping list have different keys when the
    plan was returned by extraction and every category has a name without
    an underscore and a list of different strings as its items. *)
Theorem shopping_keys_distinct
    (float_is_zero : str -> bool) (py_str : json -> str)
    (st : streamlit) (lim : limits) (raw : str) (ui ui' : page)
    (plan : json)
    (categories : list (str * json)) :
  extract_and_parse_json st lim raw ui = (Return (Some plan), ui') ->
  getitem plan (JStr (ustr "shopping_list")) = Return (JObj categories) ->
  Forall plain_category categories ->
  exists keys,
    shopping_keys float_is_zero py_str plan = Return keys /\ NoDup keys.
Proof.
  intros He Hg Hp. apply extract_with_value in He. destruct He as (He & _).
  apply json_loads_distinct in He.
  unfold shopping_keys. rewrite Hg. cbn [items_method].
  apply getitem_str in Hg. destruct Hg as (d & -> & Hg).
  inversion He as [| | | | | | |d0 _ Hall]; subst.
  apply assoc_some_In in Hg. rewrite Forall_forall in Hall.
  specialize (Hall _ Hg). cbn [snd] in Hall.
  inversion Hall as [| | | | | | |d1 Hn _]; subst.
  destruct (shopping_keys_plain float_is_zero py_str categories Hp Hn)
    as (keys & Hk & Hd & _).
  eauto.
Qed.

(* ===================================================================== *)
(** ** The properties on examples                                          *)
(* ===================================================================== *)

Lemma sample_answer_extracted :
  extract_and_parse_json st_returns default_limits sample_answer []
  = (Return (Some sample_plan), []).
Proof. vm_compute. reflexivity. Qed.

Lemma profile_lists_not_empty_witness :
  chosen_from_options sample_form
  /\ (dietary_preferences (user_data sample_form) <> []
      /\ dietary_requirements (user_data sample_form) <> []
      /\ restrictions (user_data sample_form) <> []
      /\ preferred_cuisines (user_data sample_form) <> [])
  /\ dietary_preferences (user_data sample_form) = ustr "Vegetarian, None"
  /\ dietary_requirements (user_data sample_form) = ustr "None"
  /\ restrictions (user_data sample_form) = ustr "nuts {or} shellfish"
  /\ preferred_cuisines (user_data sample_form) = ustr "Indian".
Proof.
  assert (H : chosen_from_options sample_form).
  { unfold chosen_from_options, incl. cbn [sample_form f_dietary_preferences
      f_dietary_requirements f_preferred_cuisines].
    repeat split; intros a Ha; cbn in Ha; cbn; tauto. }
  split; [exact H|].
  exact (profile_lists_not_empty sample_form H).
Defined.


Lemma display_raises_without_selected_day_witness :
  exists e,
    display_plan calls_return no_button no_text nothing_more sample_plan
      session_with_plan
    = (Raise e, session_with_plan).
Proof.
  apply display_raises_without_selected_day.
  - intros label key primary. discriminate.
  - vm_compute; reflexivity.
Defined.

Lemma stored_day_is_shown_witness :
  select_day calls_return no_button sample_plan
    (dict_set (ustr "selected_day") (JStr (ustr "day_2")) session_with_plan)
  = (Return (JStr (ustr "day_2"), JObj [(ustr "snacks", JObj [])]),
     dict_set (ustr "selected_day") (JStr (ustr "day_2")) session_with_plan)
  /\ select_day calls_return no_button sample_plan
       (dict_set (ustr "selected_day") (JStr (ustr "day_9"))
          session_with_plan)
     = (Raise KeyError,
        dict_set (ustr "selected_day") (JStr (ustr "day_9"))
          session_with_plan).
Proof.
  split.
  - apply (stored_day_is_shown calls_return no_button sample_plan
             [(ustr "day_1", JObj [(ustr "meals", JObj [])]);
              (ustr "day_2", JObj [(ustr "snacks", JObj [])])]
             (ustr "day_2")).
    + reflexivity.
    + reflexivity.
    + vm_compute; reflexivity.
    + discriminate.
    + vm_compute; reflexivity.
  - apply (stored_day_is_shown calls_return no_button sample_plan
             [(ustr "day_1", JObj [(ustr "meals", JObj [])]);
              (ustr "day_2", JObj [(ustr "snacks", JObj [])])]
             (ustr "day_9")).
    + reflexivity.
    + reflexivity.
    + vm_compute; reflexivity.
    + discriminate.
    + vm_compute; reflexivity.
Defined.

Lemma pressed_day_is_shown_witness :
  select_day calls_return (button_with_key (ustr "day_btn_day_2"))
    sample_plan session_with_plan
  = (Return (JStr (ustr "day_2"), JObj [(ustr "snacks", JObj [])]),
     dict_set (ustr "selected_day") (JStr (ustr "day_2")) session_with_plan).
Proof.
  apply (pressed_day_is_shown calls_return
           (button_with_key (ustr "day_btn_day_2"))
           (fun key => str_eqb key (ustr "day_btn_day_2")) sample_plan
           [(ustr "day_1", JObj [(ustr "meals", JObj [])]);
            (ustr "day_2", JObj [(ustr "snacks", JObj [])])]
           (ustr "day_2")).
  - reflexivity.
  - reflexivity.
  - vm_compute; reflexivity.
  - vm_compute; reflexivity.
  - vm_compute; tauto.
  - intros k [<-|[<-|[]]]; vm_compute; split; intros H;
      first [reflexivity | discriminate H].
Defined.

Lemma generation_run_fails_in_display_witness :
  exists e,
    main never_zero (Some (ustr "gsk_key")) unit sample_client
      (answers sample_answer) sample_timestamp st_returns default_limits
      (display_plan calls_return no_button no_text nothing_more) false
      [] sample_form true
    = (Failed e, session_with_plan, map from_extraction []).
Proof.
  apply (generation_run_fails_in_display never_zero unit sample_client
           (answers sample_answer) sample_timestamp st_returns
           default_limits false calls_return
           no_button no_text nothing_more sample_form [] (ustr "gsk_key") tt
           sample_answer sample_plan []).
  - discriminate.
  - reflexivity.
  - reflexivity.
  - reflexivity.
  - reflexivity.
  - exact sample_answer_extracted.
  - reflexivity.
  - intros label key primary. discriminate.
Defined.


Lemma falsy_answer_is_not_stored_witness :
  main never_zero (Some (ustr "gsk_key")) unit sample_client
    (answers (py "Sorry: {}")) sample_timestamp st_returns default_limits
    (display_plan calls_return no_button no_text nothing_more) false
    [] sample_form true
  = (Done tt, init_session [], map from_extraction [] ++ [failed_to_generate]).
Proof.
  apply (falsy_answer_is_not_stored never_zero (Some (ustr "gsk_key")) unit
           sample_client (answers (py "Sorry: {}")) sample_timestamp
           st_returns default_limits
           (display_plan calls_return no_button no_text nothing_more) false
           sample_form [] (ustr "gsk_key") tt (py "Sorry: {}")
           (Some (JObj [])) []).
  - reflexivity.
  - discriminate.
  - reflexivity.
  - reflexivity.
  - reflexivity.
  - vm_compute; reflexivity.
  - reflexivity.
Defined.

Lemma prose_around_braces_ignored_witness :
  renders st_returns
  /\ fst (extract_and_parse_json st_returns default_limits sample_answer [])
     = fst (extract_and_parse_json st_returns default_limits
              sample_plan_text []).
Proof.
  assert (Hst : renders st_returns) by (intros ui el; reflexivity).
  split; [exact Hst|].
  apply (prose_around_braces_ignored st_returns st_returns default_limits
           (ustr "Here is your plan: ") _ (ustr " Enjoy!")).
  - exists (removelast (tl sample_plan_text)). vm_compute. reflexivity.
  - vm_compute. intuition discriminate.
  - vm_compute. intuition discriminate.
  - exact Hst.
Defined.

Lemma braces_give_an_object_witness : is_object sample_plan.
Proof.
  apply (braces_give_an_object st_returns default_limits sample_answer
           [] []).
  - exists (ustr "Here is your plan: "),
      (firstn 31 (skipn 20 sample_answer)), (skipn 52 sample_answer).
    vm_compute. reflexivity.
  - exact sample_answer_extracted.
Defined.

Lemma download_is_plain_text_witness :
  forallb printable
    (export_data text_float tf_float tf_text
       (JObj [(ustr "note", JStr [233%N; 10%N; 128512%N]);
              (ustr "bmi", JFloat (ustr "22.5"))]))
  = true.
Proof.
  apply (download_is_plain_text text_float tf_float tf_text default_limits
           (py "{'note': '\u00e9\n\ud83d\ude00', 'bmi': 22.5}")).
  - exact tf_floatstr_text.
  - vm_compute; reflexivity.
  - vm_compute; reflexivity.
Defined.

Lemma dashboard_needs_two_fields_witness :
  fst (display_metrics calls_return no_text sample_plan []) = Return tt
  <-> has_dashboard_fields sample_plan.
Proof.
  apply dashboard_needs_two_fields. reflexivity.
Defined.

Lemma day_button_keys_distinct_witness :
  NoDup (map day_button_key [ustr "day_1"; ustr "day_2"]).
Proof.
  apply (day_button_keys_distinct st_returns default_limits sample_answer
           [] [] sample_plan
           (JObj [(ustr "day_1", JObj [(ustr "meals", JObj [])]);
                  (ustr "day_2", JObj [(ustr "snacks", JObj [])])])).
  - exact sample_answer_extracted.
  - vm_compute; reflexivity.
  - reflexivity.
Defined.

Lemma shopping_keys_distinct_witness :
  exists keys,
    shopping_keys never_zero no_text sample_plan = Return keys /\ NoDup keys.
Proof.
  apply (shopping_keys_distinct never_zero no_text st_returns
           default_limits sample_answer [] [] sample_plan
           [(ustr "proteins",
             JArr [JStr (ustr "chicken"); JStr (ustr "tofu")]);
            (ustr "carbs", JArr [JStr (ustr "quinoa")])]).
  - exact sample_answer_extracted.
  - vm_compute; reflexivity.
  - repeat constructor.
    + vm_compute. intuition discriminate.
    + exists [ustr "chicken"; ustr "tofu"]. split; [reflexivity|].
      repeat constructor; vm_compute; intuition discriminate.
    + vm_compute. intuition discriminate.
    + exists [ustr "quinoa"]. split; [reflexivity|].
      repeat constructor; vm_compute; intuition discriminate.
Defined.

(* ===================================================================== *)
(** ** The meal timeline                                                   *)
(* ===================================================================== *)

(** Two times on two digits and two digits are in the order of their
    texts exactly when they are in the order of the day. *)
Lemma clock_order (a b : str) :
  clock_time a = true -> clock_time b = true ->
  str_ltb a b = (minutes_of a <? minutes_of b)%N.
Proof.
  destruct a as [|a1 [|a2 [|a3 [|a4 [|a5 [|? ?]]]]]]; try discriminate.
  destruct b as [|b1 [|b2 [|b3 [|b4 [|b5 [|? ?]]]]]]; try discriminate.
  unfold clock_time, is_digit. intros Ha Hb.
  repeat match goal with
         | H : (_ && _)%bool = true |- _ => apply andb_prop in H; destruct H
         | H : (_ <=? _)%N = true |- _ => apply N.leb_le in H
         | H : (_ =? _)%N = true |- _ => apply N.eqb_eq in H
         end.
  subst a3 b3. cbn [str_ltb minutes_of].
  repeat match goal with
         | |- context [(?x <? ?y)%N] =>
             lazymatch x with
             | context [N.mul] => fail
             | _ => destruct (N.ltb_spec x y); cbv iota
             end
         end;
    cbn [str_ltb]; symmetry; first [apply N.ltb_lt | apply N.ltb_ge]; lia.
Qed.

Lemma insert_item_In (x y : timeline_item) (l : list timeline_item) :
  In y (insert_item x l) <-> y = x \/ In y l.
Proof.
  induction l as [|z l IH]; cbn [insert_item].
  - cbn. intuition congruence.
  - destruct (time_ltb z x); cbn [In]; [rewrite IH|]; intuition congruence.
Qed.

Lemma sort_items_In (y : timeline_item) (l : list timeline_item) :
  In y (sort_items l) <-> In y l.
Proof.
  induction l as [|x l IH]; cbn [sort_items]; [tauto|].
  rewrite insert_item_In, IH. cbn. intuition congruence.
Qed.

Lemma insert_item_length (x : timeline_item) (l : list timeline_item) :
  length (insert_item x l) = S (length l).
Proof.
  induction l as [|z l IH]; cbn [insert_item]; [reflexivity|].
  destruct (time_ltb z x); cbn [length]; congruence.
Qed.

Lemma sort_items_length (l : list timeline_item) :
  length (sort_items l) = length l.
Proof.
  induction l as [|x l IH]; cbn [sort_items]; [reflexivity|].
  rewrite insert_item_length, IH. reflexivity.
Qed.

Lemma clock_item_ltb (x y : timeline_item) :
  clock_item x -> clock_item y ->
  time_ltb x y = (item_minutes x <? item_minutes y)%N.
Proof.
  intros [a [Ea Ha]] [b [Eb Hb]]. unfold time_ltb, item_minutes.
  rewrite Ea, Eb. apply clock_order; assumption.
Qed.

Lemma insert_item_chronological (x : timeline_item)
    (l : list timeline_item) :
  clock_item x -> Forall clock_item l -> chronological l ->
  chronological (insert_item x l).
Proof.
  intros Hx Hl Hs. induction l as [|y l IH]; cbn [insert_item].
  - constructor; constructor.
  - apply StronglySorted_inv in Hs. destruct Hs as [Hs Hy].
    inversion Hl as [|? ? Hcy Hcl]; subst.
    rewrite (clock_item_ltb y x Hcy Hx).
    destruct (N.ltb_spec (item_minutes y) (item_minutes x)) as [Hlt|Hge].
    + constructor; [apply IH; assumption|].
      apply Forall_forall. intros z Hz. apply insert_item_In in Hz.
      destruct Hz as [->|Hz]; [lia|].
      rewrite Forall_forall in Hy. apply Hy, Hz.
    + constructor; [constructor; assumption|].
      constructor; [assumption|].
      apply Forall_forall. intros z Hz.
      rewrite Forall_forall in Hy. specialize (Hy z Hz). cbv beta in Hy. lia.
Qed.

Lemma sort_items_chronological (l : list timeline_item) :
  Forall clock_item l -> chronological (sort_items l).
Proof.
  induction l as [|x l IH]; cbn [sort_items]; intros Hl.
  - constructor.
  - inversion Hl as [|? ? Hx Hrest]; subst.
    apply insert_item_chronological; [exact Hx| |apply IH, Hrest].
    apply Forall_forall. intros z Hz.
    rewrite Forall_forall in Hrest. apply Hrest, sort_items_In, Hz.
Qed.

(** A list of items whose times are all strings is sorted by comparing
    the strings. *)
Lemma sort_by_time_strings
    (sort_other : list timeline_item -> outcome (list timeline_item))
    (l : list timeline_item) :
  forallb string_time l = true ->
  sort_by_time sort_other l = Return (sort_items l).
Proof.
  intros H. unfold sort_by_time. rewrite H.
  destruct l as [|x [|y l]]; reflexivity.
Qed.

Section TimelineFacts.

Variable float_is_zero : str -> bool.
Variable capitalize : str -> str.
Variable title : str -> str.
Variable sort_other : list timeline_item -> outcome (list timeline_item).
Variable accepted : str -> bool.

(** What the loop over the meals collects. *)
Lemma meal_items_collected (meals : list (str * json)) :
  Forall (timed_meal accepted) meals ->
  exists items,
    meal_items float_is_zero capitalize meals = Return items
    /\ (forall x, In x items <-> meal_on_timeline capitalize meals x)
    /\ Forall (fun x => exists t, item_time x = JStr t /\ accepted t = true)
         items.
Proof.
  induction meals as [|[meal_type meal] meals IH]; intros H.
  - exists []. cbn. repeat split; try constructor; try tauto.
    intros (? & ? & ? & ? & [] & _).
  - inversion H as [|? ? (d & Ed & Et) Hrest]; subst.
    destruct (IH Hrest) as (items & E & Hin & Hall).
    cbn [snd] in Ed. subst meal.
    assert (Hmono : forall x, meal_on_timeline capitalize meals x ->
              meal_on_timeline capitalize ((meal_type, JObj d) :: meals) x).
    { intros x (k & d' & t & n & Hk & Ht & Hne & Hn & ->).
      exists k, d', t, n. cbn [In]. auto 7. }
    assert (Hskip : (forall t, dict_find (ustr "time") d = Some (JStr t) ->
                        t = []) ->
              forall x, meal_on_timeline capitalize
                          ((meal_type, JObj d) :: meals) x ->
                        meal_on_timeline capitalize meals x).
    { intros Hno x (k & d' & t & n & Hk & Ht & Hne & Hn & ->).
      destruct Hk as [Hk|Hk].
      - inversion Hk; subst. elim Hne. auto.
      - exists k, d', t, n. auto 7. }
    cbn [meal_items get_method].
    destruct (dict_find (ustr "time") d) as [[| | | | |t| |]|] eqn:Etime;
      try contradiction.
    + destruct t as [|c t].
      * cbn [truthy]. exists items. split; [exact E|]. split; [|exact Hall].
        intros x. rewrite Hin. split; [apply Hmono|apply Hskip].
        intros t Ht. congruence.
      * destruct Et as (Et & name & En).
        cbn [truthy getitem]. rewrite En, E.
        eexists. split; [reflexivity|]. split.
        -- intros x. cbn [In]. rewrite Hin. split.
           ++ intros [<-|Hx]; [|apply Hmono, Hx].
              exists meal_type, d, (c :: t), name. cbn [In].
              repeat split; auto. discriminate.
           ++ intros (k & d' & t' & n & Hk & Ht & Hne & Hn & ->).
              destruct Hk as [Hk|Hk].
              ** inversion Hk; subst. left. congruence.
              ** right. exists k, d', t', n. auto 7.
        -- constructor; [|exact Hall]. exists (c :: t). auto.
    + cbn [truthy]. exists items. split; [exact E|]. split; [|exact Hall].
      intros x. rewrite Hin. split; [apply Hmono|apply Hskip].
      intros t Ht. discriminate.
Qed.

(** What the loop over the snacks collects. *)
Lemma snack_items_collected (snacks : list (str * json)) :
  Forall named_snack snacks ->
  exists items,
    snack_items title snacks = Return items
    /\ (forall x, In x items <-> snack_on_timeline title snacks x)
    /\ Forall clock_item items.
Proof.
  induction snacks as [|[snack_type snack] snacks IH]; intros H.
  - exists []. cbn. repeat split; try constructor; try tauto.
    intros (? & ? & ? & [] & _).
  - inversion H as [|? ? (d & name & Ed & En) Hrest]; subst.
    destruct (IH Hrest) as (items & E & Hin & Hall).
    cbn [snd] in Ed. subst snack.
    cbn [snack_items getitem]. rewrite En, E.
    eexists. split; [reflexivity|]. split.
    + intros x. cbn [In]. rewrite Hin. split.
      * intros [<-|(k & d' & n & Hk & Hn & ->)].
        -- exists snack_type, d, name. cbn [In]. auto.
        -- exists k, d', n. cbn [In]. auto.
      * intros (k & d' & n & Hk & Hn & ->). destruct Hk as [Hk|Hk].
        -- inversion Hk; subst. left. congruence.
        -- right. exists k, d', n. auto.
    + constructor; [|exact Hall]. eexists. split; [reflexivity|].
      unfold snack_time.
      repeat match goal with |- context [if ?b then _ else _] =>
                               destruct b end; reflexivity.
Qed.

(** The number of items that the two loops collect. *)
Lemma meal_items_length (meals : list (str * json))
    (items : list timeline_item) :
  Forall (timed_meal accepted) meals ->
  meal_items float_is_zero capitalize meals = Return items ->
  length items = length (filter has_time meals).
Proof.
  revert items. induction meals as [|[meal_type meal] meals IH];
    intros items H E.
  - cbn in E. inversion E. reflexivity.
  - inversion H as [|? ? (d & Ed & Et) Hrest]; subst.
    cbn [snd] in Ed. subst meal. specialize (fun items => IH items Hrest).
    cbn [meal_items get_method] in E. cbn [filter has_time snd].
    destruct (dict_find (ustr "time") d) as [[| | | | |t| |]|] eqn:Etime;
      try contradiction.
    + destruct t as [|c t]; cbn [truthy] in E; [apply IH, E|].
      destruct Et as (_ & name & En).
      cbn [getitem] in E. rewrite En in E.
      destruct (meal_items float_is_zero capitalize meals) as [items'|e];
        [|discriminate].
      inversion E. cbn [length]. f_equal. apply IH. reflexivity.
    + cbn [truthy] in E. apply IH, E.
Qed.

Lemma snack_items_length (snacks : list (str * json))
    (items : list timeline_item) :
  snack_items title snacks = Return items -> length items = length snacks.
Proof.
  revert items. induction snacks as [|[snack_type snack] snacks IH];
    intros items E; cbn [snack_items] in E.
  - inversion E. reflexivity.
  - destruct (getitem snack (JStr (ustr "name"))); [|discriminate].
    destruct (snack_items title snacks) as [items'|e]; [|discriminate].
    inversion E. cbn [length]. f_equal. apply IH. reflexivity.
Qed.

(** The timeline of a day with its meals and its snacks: what the two
    loops collect, sorted. *)
Lemma meal_times_collected (day_plan : json)
    (meals snacks : list (str * json)) :
  scheduled_day accepted day_plan meals snacks ->
  exists from_meals from_snacks,
    meal_items float_is_zero capitalize meals = Return from_meals
    /\ snack_items title snacks = Return from_snacks
    /\ meal_times float_is_zero capitalize title sort_other day_plan
       = Return (sort_items (from_meals ++ from_snacks))
    /\ (forall x, In x (from_meals ++ from_snacks) <->
                  meal_on_timeline capitalize meals x
                  \/ snack_on_timeline title snacks x)
    /\ Forall (fun x => exists t, item_time x = JStr t /\ accepted t = true)
         from_meals
    /\ Forall clock_item from_snacks.
Proof.
  intros (d & -> & Em & Es & Hm & Hs).
  destruct (meal_items_collected meals Hm) as (M & EM & HinM & HallM).
  destruct (snack_items_collected snacks Hs) as (S & ES & HinS & HallS).
  assert (EM' : timed_meals float_is_zero capitalize (JObj d) = Return M).
  { unfold timed_meals. cbn [contains_str getitem].
    destruct Em as [Em|(Em & ->)]; rewrite Em; [exact EM|].
    cbn in EM. congruence. }
  assert (ES' : timed_snacks float_is_zero title (JObj d) = Return S).
  { unfold timed_snacks. cbn [contains_str getitem].
    destruct Es as [Es|(Es & ->)]; rewrite Es; [|cbn in ES; congruence].
    cbn [items_method truthy]. destruct snacks; [|exact ES].
    cbn in ES. congruence. }
  exists M, S. repeat split; try assumption.
  - unfold meal_times. rewrite EM', ES'.
    apply sort_by_time_strings. apply forallb_forall. intros x Hx.
    apply in_app_or in Hx. unfold string_time. destruct Hx as [Hx|Hx].
    + rewrite Forall_forall in HallM. destruct (HallM x Hx) as (t & -> & _).
      reflexivity.
    + rewrite Forall_forall in HallS. destruct (HallS x Hx) as (t & -> & _).
      reflexivity.
  - rewrite in_app_iff, HinM, HinS. tauto.
  - rewrite in_app_iff, HinM, HinS. tauto.
Qed.

End TimelineFacts.

(** X22: for a day that is an object, whose [meals], when it has the
    key, is an object of meals that are objects, each with no time, an
    empty time, or a name and a time on two digits for the hour and two
    for the minutes, and whose [snacks], when it has the key, is an object
    of snacks that are objects with a name: the timeline is built without
    an error, every time on it is such a time, and its items are in the
    order of the day. *)
Theorem timeline_chronological (float_is_zero : str -> bool)
    (capitalize title : str -> str)
    (sort_other : list timeline_item -> outcome (list timeline_item))
    (day_plan : json) (meals snacks : list (str * json)) :
  scheduled_day clock_time day_plan meals snacks ->
  exists items,
    meal_times float_is_zero capitalize title sort_other day_plan
    = Return items
    /\ Forall clock_item items
    /\ chronological items.
Proof.
  intros H.
  destruct (meal_times_collected float_is_zero capitalize title sort_other
              clock_time day_plan meals snacks H)
    as (M & S & _ & _ & E & _ & HM & HS).
  assert (Hc : Forall clock_item (M ++ S)).
  { apply Forall_app. split; [|exact HS].
    eapply Forall_impl; [|exact HM]. cbv beta.
    intros x (t & Et & Ht). exists t. auto. }
  exists (sort_items (M ++ S)). split; [exact E|]. split.
  - apply Forall_forall. intros x Hx.
    rewrite Forall_forall in Hc. apply Hc, sort_items_In, Hx.
  - apply sort_items_chronological, Hc.
Qed.

(** X23: for a day that is an object, whose [meals], when it has the
    key, is an object of meals that are objects, each with no time, an
    empty time, or a name and a time that is a string, and whose [snacks],
    when it has the key, is an object of snacks that are objects with a
    name: the timeline has one item for each meal with a time that is not
    empty and one for each snack, and nothing else. A snack is put at the
    time that goes with the name of its key (12:00 for a name that is not
    known), whatever time the snack itself gives. *)
Theorem timeline_lists_meals_and_snacks (float_is_zero : str -> bool)
    (capitalize title : str -> str)
    (sort_other : list timeline_item -> outcome (list timeline_item))
    (day_plan : json) (meals snacks : list (str * json)) :
  scheduled_day (fun _ => true) day_plan meals snacks ->
  exists items,
    meal_times float_is_zero capitalize title sort_other day_plan
    = Return items
    /\ (forall x, In x items <->
                  meal_on_timeline capitalize meals x
                  \/ snack_on_timeline title snacks x)
    /\ length items = length (filter has_time meals) + length snacks.
Proof.
  intros H.
  destruct (meal_times_collected float_is_zero capitalize title sort_other
              _ day_plan meals snacks H)
    as (M & S & EM & ES & E & Hin & _ & _).
  exists (sort_items (M ++ S)). split; [exact E|]. split.
  - intros x. rewrite sort_items_In. apply Hin.
  - rewrite sort_items_length, length_app.
    destruct H as (d & _ & _ & _ & Hm & _).
    rewrite (meal_items_length float_is_zero capitalize _ meals M Hm EM).
    rewrite (snack_items_length title snacks S ES). reflexivity.
Qed.

Lemma sample_day_scheduled (accepted : str -> bool) :
  accepted (ustr "12:30") = true -> accepted (ustr "08:00") = true ->
  scheduled_day accepted sample_day sample_meals sample_snacks.
Proof.
  intros H1 H2. exists [(ustr "meals", JObj sample_meals);
                        (ustr "snacks", JObj sample_snacks)].
  split; [reflexivity|]. split; [now left|]. split; [now left|]. split.
  - repeat constructor.
    + eexists. cbn [snd]. split; [reflexivity|]. cbn. split; [exact H1|].
      now eexists.
    + eexists. cbn [snd]. split; [reflexivity|]. cbn. split; [exact H2|].
      now eexists.
    + eexists. cbn [snd]. split; [reflexivity|]. exact I.
  - repeat constructor; eexists _, _; cbn [snd]; repeat split.
Qed.

Lemma timeline_chronological_witness :
  scheduled_day clock_time sample_day sample_meals sample_snacks
  /\ exists items,
       meal_times never_zero same_text same_text no_other_sort sample_day
       = Return items
       /\ Forall clock_item items
       /\ chronological items.
Proof.
  assert (H : scheduled_day clock_time sample_day sample_meals sample_snacks)
    by (apply sample_day_scheduled; reflexivity).
  split; [exact H|].
  exact (timeline_chronological never_zero same_text same_text no_other_sort
           sample_day sample_meals sample_snacks H).
Defined.

Lemma timeline_lists_meals_and_snacks_witness :
  scheduled_day (fun _ => true) sample_day sample_meals sample_snacks
  /\ exists items,
       meal_times never_zero same_text same_text no_other_sort sample_day
       = Return items
       /\ (forall x, In x items <->
                     meal_on_timeline same_text sample_meals x
                     \/ snack_on_timeline same_text sample_snacks x)
       /\ length items = 4.
Proof.
  assert (H : scheduled_day (fun _ => true) sample_day sample_meals
                sample_snacks)
    by (apply sample_day_scheduled; reflexivity).
  split; [exact H|].
  exact (timeline_lists_meals_and_snacks never_zero same_text same_text
           no_other_sort sample_day sample_meals sample_snacks H).
Defined.
